(** * SimmGate gateway: exact cache, upstream client and chat handler

    A shallow embedding of the Go sources of the gateway core
    ([internal/cache], [internal/llm], [internal/handlers]) together with
    the properties its specification states about them.

    Conventions.
    - A Go [string] and a Go [[]byte] holding text are Rocq [string]s
      (sequences of bytes); a cached value is a [list Byte.byte].
    - A Go [int], [int64] or [time.Duration] is a [Z]; where the source can
      overflow, the wrap-around is written out with [wrap64].
    - A [time.Time] is the number of nanoseconds on the process clock.
    - A [float32] / [float64] is an IEEE-754 value of the Standard
      Library's [spec_float], with the library's operations at the right
      precision.
    - Functions of the Go standard library whose text is not part of the
      repository (JSON string escaping, float formatting, JSON decoding,
      [http.ParseTime]) are parameters of the definitions that call them. *)

From Stdlib Require Import ZArith List Bool Ascii String Lia.
From Stdlib Require Import Floats.SpecFloat.
From stdpp Require Import base option gmap strings.

Local Open Scope string_scope.
Local Open Scope Z_scope.

(** ** Go primitives *)

Module Go.

Definition minInt64 : Z := - 2 ^ 63.
Definition maxInt64 : Z := 2 ^ 63 - 1.

(** Two's-complement wrap-around of 64-bit signed arithmetic. *)
Definition wrap64 (z : Z) : Z := (z + 2 ^ 63) mod 2 ^ 64 - 2 ^ 63.

Definition in_int64 (z : Z) : Prop := minInt64 <= z <= maxInt64.

(** [time.Duration] units, in nanoseconds. *)
Definition Nanosecond : Z := 1.
Definition Millisecond : Z := 1000000.
Definition Second : Z := 1000000000.
Definition Minute : Z := 60 * Second.

(** *** Strings *)

Definition byte_string (codes : list nat) : string :=
  string_of_list_ascii (map ascii_of_nat codes).

(** The one-character string holding a double quote. *)
Definition dquote : string := String (ascii_of_nat 34) EmptyString.

(** [strings.CutPrefix]. *)
Fixpoint CutPrefix (s p : string) : option string :=
  match p, s with
  | EmptyString, _ => Some s
  | String a p', String b s' =>
      if Ascii.eqb a b then CutPrefix s' p' else None
  | String _ _, EmptyString => None
  end.

(** [strings.HasPrefix] / [bytes.HasPrefix]. *)
Definition HasPrefix (s p : string) : bool :=
  match CutPrefix s p with Some _ => true | None => false end.

Definition rev_string (s : string) : string :=
  string_of_list_ascii (rev (list_ascii_of_string s)).

(** [strings.Contains]. *)
Fixpoint Contains (s sub : string) : bool :=
  HasPrefix s sub ||
  match s with
  | EmptyString => false
  | String _ s' => Contains s' sub
  end.

(** The UTF-8 encodings of the code points for which [unicode.IsSpace]
    holds: the six ASCII ones, U+0085, U+00A0, U+1680, U+2000..U+200A,
    U+2028, U+2029, U+202F, U+205F and U+3000. Decoding a rune at the
    front (or back) of a string yields one of these code points exactly
    when the string starts (ends) with one of these byte sequences. *)
Definition white_space : list string :=
  map byte_string
    [ [9]; [10]; [11]; [12]; [13]; [32];
      [194; 133]; [194; 160]; [225; 154; 128];
      [226; 128; 128]; [226; 128; 129]; [226; 128; 130]; [226; 128; 131];
      [226; 128; 132]; [226; 128; 133]; [226; 128; 134]; [226; 128; 135];
      [226; 128; 136]; [226; 128; 137]; [226; 128; 138];
      [226; 128; 168]; [226; 128; 169]; [226; 128; 175];
      [226; 129; 159]; [227; 128; 128] ]%nat.

(** Drop one leading white-space rune taken from [ws], if there is one. *)
Fixpoint cut_any (ws : list string) (s : string) : option string :=
  match ws with
  | [] => None
  | w :: ws' =>
      match CutPrefix s w with
      | Some s' => Some s'
      | None => cut_any ws' s
      end
  end.

Fixpoint trim_left_loop (fuel : nat) (ws : list string) (s : string) : string :=
  match fuel with
  | O => s
  | S fuel' =>
      match cut_any ws s with
      | Some s' => trim_left_loop fuel' ws s'
      | None => s
      end
  end.

Definition TrimLeftSpace (s : string) : string :=
  trim_left_loop (String.length s) white_space s.

Definition TrimRightSpace (s : string) : string :=
  let r := rev_string s in
  rev_string (trim_left_loop (String.length r) (map rev_string white_space) r).

(** [strings.TrimSpace] / [bytes.TrimSpace]. *)
Definition TrimSpace (s : string) : string :=
  TrimRightSpace (TrimLeftSpace s).

(** [strings.Split(s, ":")] *)
Fixpoint split_on (sep : ascii) (cur : string) (s : string) : list string :=
  match s with
  | EmptyString => [rev_string cur]
  | String c s' =>
      if Ascii.eqb c sep then rev_string cur :: split_on sep EmptyString s'
      else split_on sep (String c cur) s'
  end.

Definition Split (s : string) (sep : ascii) : list string :=
  split_on sep EmptyString s.

Fixpoint count_char (c : ascii) (s : string) : nat :=
  match s with
  | EmptyString => O
  | String d s' => ((if Ascii.eqb d c then 1 else 0) + count_char c s')%nat
  end.

Fixpoint join (sep : string) (parts : list string) : string :=
  match parts with
  | [] => EmptyString
  | [p] => p
  | p :: ps => p ++ sep ++ join sep ps
  end.

(** First value stored under a key in an association list. *)
Fixpoint assoc {A} (l : list (string * A)) (k : string) : option A :=
  match l with
  | [] => None
  | (k', a) :: l' => if String.eqb k k' then Some a else assoc l' k
  end.

(** *** Numbers as text *)

Definition digit_value (c : ascii) : option Z :=
  let n := Z.of_nat (nat_of_ascii c) in
  if (48 <=? n) && (n <=? 57) then Some (n - 48) else None.

(** Value of a non-empty run of decimal digits. *)
Fixpoint digits_value (acc : Z) (s : string) : option Z :=
  match s with
  | EmptyString => Some acc
  | String c s' =>
      match digit_value c with
      | Some d => digits_value (acc * 10 + d) s'
      | None => None
      end
  end.

(** [strconv.Atoi] on a 64-bit platform: an optional sign, then one or
    more decimal digits, and the value has to fit an [int]; anything else
    is a syntax or range error ([None]). *)
Definition Atoi (s : string) : option Z :=
  let '(neg, ds) :=
    match s with
    | String "-" s' => (true, s')
    | String "+" s' => (false, s')
    | _ => (false, s)
    end in
  match ds with
  | EmptyString => None
  | _ =>
      match digits_value 0 ds with
      | None => None
      | Some n =>
          let v := if neg : bool then - n else n in
          if (minInt64 <=? v) && (v <=? maxInt64) then Some v else None
      end
  end.

Definition digit_char (d : Z) : ascii := ascii_of_nat (Z.to_nat (48 + d)).

Fixpoint pos_digits (fuel : nat) (n : Z) (acc : string) : string :=
  match fuel with
  | O => acc
  | S fuel' =>
      let acc' := String (digit_char (n mod 10)) acc in
      if n / 10 =? 0 then acc' else pos_digits fuel' (n / 10) acc'
  end.

(** [strconv.Itoa] / [strconv.FormatInt(n, 10)]. *)
Definition Itoa (n : Z) : string :=
  if n <? 0 then String "-" (pos_digits (Z.to_nat (Z.log2 (- n)) + 1) (- n) EmptyString)
  else pos_digits (Z.to_nat (Z.log2 n) + 1) n EmptyString.

Definition hex_digit (d : Z) : ascii :=
  if d <? 10 then ascii_of_nat (Z.to_nat (48 + d))
  else ascii_of_nat (Z.to_nat (87 + d)).

(** [hex.EncodeToString]: two lower-case digits per byte. *)
Fixpoint hex_encode (bs : list Z) : string :=
  match bs with
  | [] => EmptyString
  | b :: bs' =>
      String (hex_digit (b / 16)) (String (hex_digit (b mod 16)) (hex_encode bs'))
  end.

Definition is_lower_hex (c : ascii) : bool :=
  let n := Z.of_nat (nat_of_ascii c) in
  ((48 <=? n) && (n <=? 57)) || ((97 <=? n) && (n <=? 102)).

Fixpoint string_forallb (p : ascii -> bool) (s : string) : bool :=
  match s with
  | EmptyString => true
  | String c s' => p c && string_forallb p s'
  end.

(** Errors are carried as their message. *)
Inductive result (A : Type) : Type :=
| Ok (a : A)
| Err (msg : string).
Arguments Ok {A} a.
Arguments Err {A} msg.

End Go.

(** ** The in-process exact cache ([internal/cache/memory.go]) *)

Module MemoryCache.

Record memoryEntry := {
  value : list Byte.byte;
  expiresAt : Z
}.

(** The [items] map of [MemoryExactCache]; the lock only serialises the
    operations below, each of which is one critical section (or, for
    [Get], a read section followed by a re-checking write section). *)
Abbreviation items := (gmap string memoryEntry).

(** [now.After(t)]. *)
Definition After (now t : Z) : bool := t <? now.

(** [Get]: result triple [(value, hit, err)] and the map afterwards.
    The error is always [nil] and is left out of the triple. *)
Definition Get (c : items) (now : Z) (key : string)
  : (option (list Byte.byte) * bool) * items :=
  match c !! key with
  | None => ((None, false), c)
  | Some entry =>
      if After now (expiresAt entry) then
        (* writer lock: re-check and delete only if still expired *)
        let c' := match c !! key with
                  | Some e => if After now (expiresAt e) then delete key c else c
                  | None => c
                  end in
        ((None, false), c')
      else ((Some (value entry), true), c)
  end.

(** [Set]: [ttl <= 0] deletes; otherwise a copy of the bytes is stored
    with [expiresAt = now + ttl]. *)
Definition Set_ (c : items) (now : Z) (key : string)
    (v : list Byte.byte) (ttl : Z) : items :=
  if ttl <=? 0 then delete key c
  else
    let valueCopy := v in
    <[ key := {| value := valueCopy; expiresAt := now + ttl |} ]> c.

(** One tick of [cleanupExpired]. *)
Definition sweep (c : items) (now : Z) : items :=
  filter (fun kv => After now (expiresAt (snd kv)) = false) c.

Definition Len (c : items) : nat := size c.
Definition Clear (c : items) : items := ∅.

(** Operations other goroutines may run between a [Set] and a later
    [Get] of the same key, each stamped with the clock reading it
    takes. *)
Inductive op :=
| OpGet (now : Z) (key : string)
| OpSet (now : Z) (key : string) (v : list Byte.byte) (ttl : Z)
| OpSweep (now : Z).

Definition run_op (c : items) (o : op) : items :=
  match o with
  | OpGet now k => snd (Get c now k)
  | OpSet now k v ttl => Set_ c now k v ttl
  | OpSweep now => sweep c now
  end.

Definition run_ops (c : items) (os : list op) : items :=
  fold_left run_op os c.

Definition op_time (o : op) : Z :=
  match o with
  | OpGet now _ | OpSet now _ _ _ | OpSweep now => now
  end.

(** An operation leaves key [k] alone when it is not a [Set] of [k]. *)
Definition foreign (k : string) (o : op) : Prop :=
  match o with
  | OpSet _ k' _ _ => k' <> k
  | _ => True
  end.

End MemoryCache.

(** ** Chat types and validation ([internal/llm], types file) *)

Module Llm.
Import Go.

(** A Go slice is [nil] or a (possibly empty) sequence; the two differ
    under [json.Marshal] ([null] against [[]]) and agree under [len]. *)
Definition slice (A : Type) : Type := option (list A).

Definition elems {A} (s : slice A) : list A :=
  match s with Some l => l | None => [] end.

Definition len {A} (s : slice A) : Z := Z.of_nat (length (elems s)).

(** [float32] values: [spec_float] at precision 24, [emax] 128. *)
Definition float32 : Type := spec_float.
Definition f32_zero : float32 := S754_zero false.
Definition f32_one : float32 := S754_finite false 8388608 (-23).
Definition f32_two : float32 := S754_finite false 8388608 (-22).

Definition IsNaN (f : spec_float) : bool :=
  match f with S754_nan => true | _ => false end.
Definition IsInf (f : spec_float) : bool :=
  match f with S754_infinity _ => true | _ => false end.

Definition RoleSystem : string := "system".
Definition RoleUser : string := "user".
Definition RoleAssistant : string := "assistant".

Record ChatMessage := {
  Role : string;
  Content : string
}.

Record ChatRequest := {
  Model : string;
  Messages : slice ChatMessage;
  Temperature : float32;
  TopP : float32;
  MaxTokens : Z;
  Stop : slice string;
  Stream : bool
}.

(** The errors [Validate] builds, one constructor per message. *)
Inductive ValidationError :=
| ErrModelRequired
| ErrNoMessages
| ErrInvalidRole (role : string) (i : nat)
| ErrContentRequired (i : nat)
| ErrTemperature
| ErrTopP.

(** Body of the [for i, m := range r.Messages] loop. *)
Fixpoint validate_messages (i : nat) (ms : list ChatMessage) : option ValidationError :=
  match ms with
  | [] => None
  | m :: ms' =>
      if negb (String.eqb (Role m) RoleSystem)
         && negb (String.eqb (Role m) RoleUser)
         && negb (String.eqb (Role m) RoleAssistant)
      then Some (ErrInvalidRole (Role m) i)
      else if String.eqb (Content m) EmptyString && negb (String.eqb (Role m) RoleSystem)
      then Some (ErrContentRequired i)
      else validate_messages (S i) ms'
  end.

(** [ChatRequest.Validate]; [None] is the [nil] error. *)
Definition Validate (r : ChatRequest) : option ValidationError :=
  if String.eqb (Model r) EmptyString then Some ErrModelRequired
  else if len (Messages r) =? 0 then Some ErrNoMessages
  else
    match validate_messages 0 (elems (Messages r)) with
    | Some e => Some e
    | None =>
        if SFltb (Temperature r) f32_zero || SFltb f32_two (Temperature r)
        then Some ErrTemperature
        else if SFltb (TopP r) f32_zero || SFltb f32_one (TopP r)
        then Some ErrTopP
        else None
    end.

Definition validation_message (e : ValidationError) : string :=
  match e with
  | ErrModelRequired => "model is required"
  | ErrNoMessages => "at least one message is required"
  | ErrInvalidRole _ i => "invalid role in messages[" ++ Itoa (Z.of_nat i) ++ "]"
  | ErrContentRequired i => "content is required for messages[" ++ Itoa (Z.of_nat i) ++ "]"
  | ErrTemperature => "temperature must be between 0 and 2"
  | ErrTopP => "top_p must be between 0 and 1"
  end.

Record ChatChoice := {
  Index : Z;
  Message : ChatMessage;
  FinishReason : string
}.

Record Usage := {
  PromptTokens : Z;
  CompletionTokens : Z;
  TotalTokens : Z
}.

Record ChatResponse := {
  ID : string;
  Created : Z;
  RespModel : string;
  Choices : slice ChatChoice;
  RespUsage : option Usage
}.

Record StreamChunk := {
  ChunkIndex : Z;
  Delta : string;
  ChunkFinishReason : string
}.

(** [StreamResult]: a chunk or an error (never both in this code). *)
Inductive StreamResult :=
| ResChunk (c : StreamChunk)
| ResErr (msg : string).

(** *** Provider wire shapes (provider types file) *)

Record providerChatRequest := {
  pModel : string;
  pMessages : slice ChatMessage;
  pTemperature : float32;
  pTopP : float32;
  pMaxTokens : Z;
  pStop : slice string;
  pStream : bool
}.

Record providerChatChoice := {
  pcIndex : Z;
  pcMessage : ChatMessage;
  pcFinishReason : string
}.

Record providerChatResponse := {
  prID : string;
  prCreated : Z;
  prModel : string;
  prChoices : slice providerChatChoice;
  prUsage : option Usage
}.

(** One element of [providerStreamChunk.Choices]. *)
Record providerStreamChoice := {
  scIndex : Z;
  scDeltaRole : string;
  scDeltaContent : string;
  scFinishReason : string
}.

(** *** encoding/json

    The parts of [encoding/json] and [strconv] the gateway relies on and
    whose text is outside the repository. *)
Class JSONLib := {
  (** the quoted, escaped JSON literal of a Go string *)
  json_quote : string -> string;
  (** the JSON text of a finite [float32] *)
  json_float32 : float32 -> string;
  (** [json.Unmarshal] into a [providerStreamChunk]: its [Choices] *)
  unmarshal_stream_chunk : string -> result (list providerStreamChoice);
  (** [json.Decoder.Decode] into a [providerChatResponse] *)
  decode_provider_response : string -> result providerChatResponse;
  (** the [message] and [type] of a [providerErrorResponse], when the
      body decodes as one *)
  unmarshal_provider_error : string -> option (string * string);
  (** [json.Decoder.Decode] of an inbound body into a [ChatRequest] *)
  decode_chat_request : string -> result ChatRequest;
  (** [json.Marshal] and [json.Unmarshal] of a [ChatResponse] *)
  marshal_chat_response : ChatResponse -> result string;
  unmarshal_chat_response : list Byte.byte -> result ChatResponse
}.

Section Marshal.
Context `{JSONLib}.

(** A member of a JSON object under construction: key and value text. *)
Definition member : Type := string * string.

Definition encode_member (m : member) : string :=
  dquote ++ fst m ++ dquote ++ ":" ++ snd m.

Definition encode_object (ms : list member) : string :=
  "{" ++ join "," (map encode_member ms) ++ "}".

Definition encode_array (vs : list string) : string :=
  "[" ++ join "," vs ++ "]".

Definition encode_message (m : ChatMessage) : string :=
  encode_object [("role", json_quote (Role m)); ("content", json_quote (Content m))].

(** A slice without [omitempty]: [null] when nil. *)
Definition encode_messages (ms : slice ChatMessage) : string :=
  match ms with
  | None => "null"
  | Some l => encode_array (map encode_message l)
  end.

(** [isEmptyValue] on a float: equal to zero (either sign). *)
Definition float_is_empty (f : float32) : bool := SFeqb f f32_zero.

(** The float encoder refuses NaN and the infinities. *)
Definition float_member (key : string) (f : float32) : result (list member) :=
  if float_is_empty f then Ok []
  else if IsNaN f || IsInf f then Err "json: unsupported value"
  else Ok [(key, json_float32 f)].

Definition int_member (key : string) (n : Z) : list member :=
  if n =? 0 then [] else [(key, Itoa n)].

Definition strings_member (key : string) (s : slice string) : list member :=
  if len s =? 0 then [] else [(key, encode_array (map json_quote (elems s)))].

Definition bool_member (key : string) (b : bool) : list member :=
  if b then [(key, "true")] else [].

(** Members emitted for the seven fields shared by [ChatRequest] and
    [providerChatRequest] (same tags, same order): [model] and [messages]
    always, the other five under [omitempty]. *)
Definition request_members (model : string) (msgs : slice ChatMessage)
    (temp topp : float32) (maxTokens : Z) (stop : slice string) (stream : bool)
  : result (list member) :=
  match float_member "temperature" temp with
  | Err e => Err e
  | Ok mt =>
      match float_member "top_p" topp with
      | Err e => Err e
      | Ok mp =>
          Ok ([("model", json_quote model); ("messages", encode_messages msgs)]
                ++ mt ++ mp
                ++ int_member "max_tokens" maxTokens
                ++ strings_member "stop" stop
                ++ bool_member "stream" stream)%list
      end
  end.

Definition marshal_members (ms : result (list member)) : result string :=
  match ms with
  | Ok l => Ok (encode_object l)
  | Err e => Err e
  end.

Definition ChatRequest_members (r : ChatRequest) : result (list member) :=
  request_members (Model r) (Messages r) (Temperature r) (TopP r)
                  (MaxTokens r) (Stop r) (Stream r).

Definition providerChatRequest_members (p : providerChatRequest) : result (list member) :=
  request_members (pModel p) (pMessages p) (pTemperature p) (pTopP p)
                  (pMaxTokens p) (pStop p) (pStream p).

(** [json.Marshal(req)] for a [ChatRequest]. *)
Definition marshal_ChatRequest (r : ChatRequest) : result string :=
  marshal_members (ChatRequest_members r).

(** [json.Marshal(pReq)] for a [providerChatRequest]. *)
Definition marshal_providerChatRequest (p : providerChatRequest) : result string :=
  marshal_members (providerChatRequest_members p).

End Marshal.

End Llm.

(** ** SHA-256 ([crypto/sha256]), FIPS 180-4, on bytes as [Z] in [0, 256) *)

Module Sha256.

Definition w32 (x : Z) : Z := x mod 2 ^ 32.
Definition add32 (x y : Z) : Z := w32 (x + y).
Definition rotr (n x : Z) : Z := Z.lor (Z.shiftr x n) (w32 (Z.shiftl x (32 - n))).
Definition not32 (x : Z) : Z := 2 ^ 32 - 1 - x.

Definition Ch (x y z : Z) : Z := Z.lxor (Z.land x y) (Z.land (not32 x) z).
Definition Maj (x y z : Z) : Z :=
  Z.lxor (Z.lxor (Z.land x y) (Z.land x z)) (Z.land y z).
Definition Sigma0 (x : Z) : Z := Z.lxor (Z.lxor (rotr 2 x) (rotr 13 x)) (rotr 22 x).
Definition Sigma1 (x : Z) : Z := Z.lxor (Z.lxor (rotr 6 x) (rotr 11 x)) (rotr 25 x).
Definition sigma0 (x : Z) : Z := Z.lxor (Z.lxor (rotr 7 x) (rotr 18 x)) (Z.shiftr x 3).
Definition sigma1 (x : Z) : Z := Z.lxor (Z.lxor (rotr 17 x) (rotr 19 x)) (Z.shiftr x 10).

Definition K : list Z :=
  [
    1116352408; 1899447441; 3049323471; 3921009573;
    961987163; 1508970993; 2453635748; 2870763221;
    3624381080; 310598401; 607225278; 1426881987;
    1925078388; 2162078206; 2614888103; 3248222580;
    3835390401; 4022224774; 264347078; 604807628;
    770255983; 1249150122; 1555081692; 1996064986;
    2554220882; 2821834349; 2952996808; 3210313671;
    3336571891; 3584528711; 113926993; 338241895;
    666307205; 773529912; 1294757372; 1396182291;
    1695183700; 1986661051; 2177026350; 2456956037;
    2730485921; 2820302411; 3259730800; 3345764771;
    3516065817; 3600352804; 4094571909; 275423344;
    430227734; 506948616; 659060556; 883997877;
    958139571; 1322822218; 1537002063; 1747873779;
    1955562222; 2024104815; 2227730452; 2361852424;
    2428436474; 2756734187; 3204031479; 3329325298 ].

Definition state : Type := Z * Z * Z * Z * Z * Z * Z * Z.

Definition H0 : state :=
  (1779033703, 3144134277, 1013904242, 2773480762, 1359893119, 2600822924, 528734635, 1541459225).

(** The padded message: a [0x80] byte, zeros up to 56 mod 64, then the
    bit length as a big-endian 64-bit integer. *)
Definition be_bytes (n : nat) (x : Z) : list Z :=
  map (fun i => (x / 2 ^ (8 * Z.of_nat i)) mod 256) (rev (seq 0 n)).

Definition pad (msg : list Z) : list Z :=
  let l := Z.of_nat (length msg) in
  let k := (55 - l) mod 64 in
  (msg ++ [128] ++ repeat 0 (Z.to_nat k) ++ be_bytes 8 (8 * l))%list.

Fixpoint be_words (bs : list Z) : list Z :=
  match bs with
  | a :: b :: c :: d :: bs' =>
      (((a * 256 + b) * 256 + c) * 256 + d) :: be_words bs'
  | _ => []
  end.

(** Message schedule, kept newest-first: [ws = W(t-1) :: W(t-2) :: ...]. *)
Fixpoint schedule (n : nat) (ws : list Z) : list Z :=
  match n with
  | O => ws
  | S n' =>
      let w := add32 (add32 (sigma1 (nth 1 ws 0)) (nth 6 ws 0))
                     (add32 (sigma0 (nth 14 ws 0)) (nth 15 ws 0)) in
      schedule n' (w :: ws)
  end.

Definition round (s : state) (kw : Z * Z) : state :=
  let '(a, b, c, d, e, f, g, h) := s in
  let t1 := add32 (add32 (add32 h (Sigma1 e)) (add32 (Ch e f g) (fst kw))) (snd kw) in
  let t2 := add32 (Sigma0 a) (Maj a b c) in
  (add32 t1 t2, a, b, c, add32 d t1, e, f, g).

Definition add_state (s t : state) : state :=
  let '(a, b, c, d, e, f, g, h) := s in
  let '(a', b', c', d', e', f', g', h') := t in
  (add32 a a', add32 b b', add32 c c', add32 d d',
   add32 e e', add32 f f', add32 g g', add32 h h').

Definition compress (s : state) (block : list Z) : state :=
  let w := rev (schedule 48 (rev (be_words block))) in
  add_state s (fold_left round (combine K w) s).

Fixpoint blocks (n : nat) (bs : list Z) : list (list Z) :=
  match n with
  | O => []
  | S n' => firstn 64 bs :: blocks n' (skipn 64 bs)
  end.

Definition digest_bytes (s : state) : list Z :=
  let '(a, b, c, d, e, f, g, h) := s in
  (be_bytes 4 a ++ be_bytes 4 b ++ be_bytes 4 c ++ be_bytes 4 d
   ++ be_bytes 4 e ++ be_bytes 4 f ++ be_bytes 4 g ++ be_bytes 4 h)%list.

(** [sha256.Sum256]. *)
Definition Sum256 (msg : list Z) : list Z :=
  let p := pad msg in
  digest_bytes (fold_left compress (blocks (length p / 64) p) H0).

Definition bytes_of_string (s : string) : list Z :=
  map (fun c => Z.of_nat (nat_of_ascii c)) (list_ascii_of_string s).

End Sha256.

(** ** The exact-cache key ([internal/cache/key_builder.go]) *)

Module Cache.
Import Go Llm.

Record ExactCacheKey := {
  UserID : string;
  ModelID : string;
  VersionID : string;
  Hash : string
}.

(** [ExactCacheKey.String]: [fmt.Sprintf("exact:%s:%s:%s:%s", ...)]. *)
Definition String_ (k : ExactCacheKey) : string :=
  "exact:" ++ UserID k ++ ":" ++ ModelID k ++ ":" ++ VersionID k ++ ":" ++ Hash k.

(** The text that is hashed. *)
Definition normalized (modelID body : string) : string :=
  "model:" ++ modelID ++ "|body:" ++ body.

Section KeyBuilder.
Context `{JSONLib}.

(** [BuildExactCacheKeyFromChatRequest]. *)
Definition BuildExactCacheKeyFromChatRequest
    (req : ChatRequest) (userID versionID : string) : result ExactCacheKey :=
  let modelID := TrimSpace (Model req) in
  match marshal_ChatRequest req with
  | Err e => Err e
  | Ok body =>
      let sum := Sha256.Sum256 (Sha256.bytes_of_string (normalized modelID body)) in
      let hash := hex_encode sum in
      Ok {| UserID := TrimSpace userID;
            ModelID := modelID;
            VersionID := TrimSpace versionID;
            Hash := hash |}
  end.

End KeyBuilder.

End Cache.

(** ** Client configuration ([internal/llm/config.go]) *)

Module Config.
Import Go.

Record Config := {
  BaseURL : string;
  APIKey : string;
  UpstreamTimeout : Z;
  MaxRetries : Z;
  BaseBackoff : Z;
  MaxIdleConns : Z;
  MaxIdleConnsPerHost : Z
}.

(** [strings.TrimRight(s, "/")]. *)
Fixpoint drop_slashes (r : string) : string :=
  match r with
  | String "/" r' => drop_slashes r'
  | _ => r
  end.

Definition TrimRightSlash (s : string) : string :=
  rev_string (drop_slashes (rev_string s)).

(** [Config.Validate]. *)
Definition Validate (c : Config) : option string :=
  if String.eqb (BaseURL c) EmptyString then Some "BaseURL is required"
  else if String.eqb (APIKey c) EmptyString then Some "APIKey is required"
  else None.

(** [Config.WithDefaults]. *)
Definition WithDefaults (c : Config) : Config :=
  {| BaseURL := TrimRightSlash (BaseURL c);
     APIKey := APIKey c;
     UpstreamTimeout := if UpstreamTimeout c <=? 0 then 30 * Second else UpstreamTimeout c;
     MaxRetries := if MaxRetries c <=? 0 then 2 else MaxRetries c;
     BaseBackoff := if BaseBackoff c <=? 0 then 100 * Millisecond else BaseBackoff c;
     MaxIdleConns := if MaxIdleConns c <=? 0 then 100 else MaxIdleConns c;
     MaxIdleConnsPerHost :=
       if MaxIdleConnsPerHost c <=? 0 then 100 else MaxIdleConnsPerHost c |}.

(** [NewClient]: the configuration the returned client holds, or the
    validation error. *)
Definition NewClient (cfg : Config) : result Config :=
  let cfg := WithDefaults cfg in
  match Validate cfg with
  | Some e => Err ("invalid config: " ++ e)
  | None => Ok cfg
  end.

End Config.

(** ** The retry engine (retry file of [internal/llm]) *)

Module Retry.
Import Go.

(** *** float64 arithmetic of [computeBackoff] *)

Definition prec64 : Z := 53.
Definition emax64 : Z := 1024.

(** [float64(n)] for an integer [n]: round to nearest, ties to even. *)
Definition float64_of_int (n : Z) : spec_float :=
  binary_normalize prec64 emax64 n 0 false.

(** [math.Pow(2, float64(a))] for an integer [a]: the power of two
    itself, zero on underflow, infinity on overflow. *)
Definition Pow2 (a : Z) : spec_float :=
  SFldexp prec64 emax64 (SFone prec64 emax64) a.

Definition fmul (x y : spec_float) : spec_float := SFmul prec64 emax64 x y.

(** The integer part of a finite float (truncation towards zero). *)
Definition float64_trunc (f : spec_float) : option Z :=
  match f with
  | S754_zero _ => Some 0
  | S754_finite s m e =>
      Some (cond_Zopp s (if 0 <=? e then Zpos m * 2 ^ e else Zpos m / 2 ^ (- e)))
  | _ => None
  end.

(** What the target yields when a float does not fit the integer type
    (NaN, infinities, out of range): the Go specification leaves the value
    to the implementation. *)
Class FloatConv := {
  convert_overflow : spec_float -> Z
}.

(** amd64: [CVTTSD2SQ] returns the "integer indefinite" value. *)
Definition amd64 : FloatConv := {| convert_overflow := fun _ => minInt64 |}.

(** arm64: [FCVTZS] saturates and maps NaN to zero. *)
Definition arm64 : FloatConv :=
  {| convert_overflow := fun f =>
       match f with
       | S754_nan => 0
       | S754_infinity true | S754_finite true _ _ => minInt64
       | _ => maxInt64
       end |}.

(** [net/http]'s [ParseTime]: the instant of an HTTP date, if it parses. *)
Class HTTPTime := {
  ParseTime : string -> option Z
}.

Section Engine.
Context `{FloatConv} `{HTTPTime}.

(** [time.Duration(f)] / [int64(f)]. *)
Definition int64_of_float64 (f : spec_float) : Z :=
  match float64_trunc f with
  | Some z => if (minInt64 <=? z) && (z <=? maxInt64) then z else convert_overflow f
  | None => convert_overflow f
  end.

(** [computeBackoff]; [r] is the value [rand.Float64()] returns. *)
Definition computeBackoff (base attempt : Z) (r : spec_float) : Z :=
  let base := if base <=? 0 then 100 * Millisecond else base in
  let maxExponent := 10 in
  let attempt := if attempt >? maxExponent then maxExponent else attempt in
  let multiplier := Pow2 attempt in
  let exponentialBackoff := fmul (float64_of_int base) multiplier in
  let maxBackoff := int64_of_float64 exponentialBackoff in
  let maxAllowed := 60 * Second in
  let maxBackoff := if maxBackoff >? maxAllowed then maxAllowed else maxBackoff in
  let jitteredBackoff := int64_of_float64 (fmul r (float64_of_int maxBackoff)) in
  jitteredBackoff.

(** [shouldRetryStatus]. *)
Definition shouldRetryStatus (status : Z) : bool :=
  if status =? 0 then true
  else if status =? 429 then true
  else if status =? 408 then true
  else if (500 <=? status) && (status <=? 599) then true
  else false.

(** An upstream response as the engine sees it: status, the value of the
    [Retry-After] header ([Header.Get] gives the empty string when it is
    absent) and the bytes of the body not yet read. *)
Record Response := {
  StatusCode : Z;
  RetryAfter : string;
  Body : string
}.

(** [t.Sub(u)] saturates at the ends of [Duration]. *)
Definition Sub (t u : Z) : Z := Z.max minInt64 (Z.min maxInt64 (t - u)).

(** [parseRetryAfter]; [now] is the clock [time.Until] reads. *)
Definition parseRetryAfter (resp : option Response) (now : Z) : Z :=
  match resp with
  | None => 0
  | Some resp =>
      let retryAfter := RetryAfter resp in
      if String.eqb retryAfter EmptyString then 0
      else
        let by_date :=
          match ParseTime retryAfter with
          | Some t =>
              let duration := Sub t now in
              if duration >? 0 then
                let maxRetryAfter := 5 * Minute in
                if duration >? maxRetryAfter then maxRetryAfter else duration
              else 0
          | None => 0
          end in
        match Atoi (TrimSpace retryAfter) with
        | Some seconds =>
            if seconds >? 0 then
              let maxRetryAfter := 5 * 60 in
              let seconds := if seconds >? maxRetryAfter then maxRetryAfter else seconds in
              seconds * Second
            else by_date
        | None => by_date
        end
  end.

(** What the engine can observe of an error returned by [do]. *)
Record NetError := {
  is_context_err : bool;
  (** [errors.As(err, &netErr) && netErr.Timeout()] *)
  net_timeout : bool;
  (** [IsTimeout] and [IsTemporary] of a wrapped [*net.DNSError] *)
  dns_error : option (bool * bool);
  (** [Op] of a wrapped [*net.OpError] *)
  op_error : option string;
  (** [strings.ToLower(err.Error())] *)
  lower_text : string;
  text : string
}.

Definition transientPatterns : list string :=
  [ "connection refused"; "connection reset"; "broken pipe";
    "no such host"; "temporary failure" ].

(** [isTransientNetError] on a non-nil error. *)
Definition isTransientNetError (e : NetError) : bool :=
  if net_timeout e then true
  else
    match dns_error e with
    | Some (isTimeout, isTemporary) => isTimeout || isTemporary
    | None =>
        let by_op :=
          match op_error e with
          | Some op =>
              String.eqb op "dial" || String.eqb op "read" || String.eqb op "write"
          | None => false
          end in
        if by_op then true
        else existsb (Contains (lower_text e)) transientPatterns
    end.

(** The result of one call of [do]. *)
Inductive doOutcome :=
| DoErr (e : NetError)
| DoResp (r : Response).

(** Everything outside the engine that one iteration of the loop reads. *)
Record attemptEnv := {
  (** [ctx.Err()] at the top of the iteration *)
  ctx_err : option string;
  outcome : doOutcome;
  (** the clock read by [parseRetryAfter] *)
  clock : Z;
  (** [rand.Float64()] *)
  jitter : spec_float;
  (** [ctx.Err()] when [ctx.Done()] wins the [select] of the wait *)
  cancelled_in_wait : option string
}.

(** What the engine does to the outside, in order. Closing a body records
    the bytes that were still unread at that moment. *)
Inductive event :=
| EvAttempt (attempt : Z)
| EvBodyClose (attempt : Z) (unread : string)
| EvWaitRetryAfter (d : Z)
| EvWaitBackoff (d : Z).

Definition exhausted (maxAttempts : Z) (lastErr : option string) : result Response :=
  let lastErr := match lastErr with
                 | Some e => e
                 | None => "unknown upstream error"
                 end in
  Err ("llmclient: max retries (" ++ Itoa maxAttempts ++ ") exceeded: " ++ lastErr).

(** The [for attempt := 0; attempt < maxAttempts; attempt++] loop, from
    iteration [i]; [fuel] is the number of iterations left,
    [maxAttempts - i]. *)
Fixpoint retry_loop (fuel : nat) (base maxAttempts : Z) (env : nat -> attemptEnv)
    (i : nat) (lastErr : option string) : result Response * list event :=
  match fuel with
  | O => (exhausted maxAttempts lastErr, [])
  | S fuel' =>
      let attempt := Z.of_nat i in
      let a := env i in
      match ctx_err a with
      | Some e => (Err e, [])
      | None =>
          (* the tail of the iteration: last attempt, or back off and go on *)
          let backoff_and_go (lastErr : option string) (evs : list event) :=
            if attempt =? maxAttempts - 1 then
              (exhausted maxAttempts lastErr, evs)
            else
              let backoff := computeBackoff base attempt (jitter a) in
              match cancelled_in_wait a with
              | Some e => (Err e, evs ++ [EvWaitBackoff backoff])%list
              | None =>
                  let '(res, rest) := retry_loop fuel' base maxAttempts env (S i) lastErr in
                  (res, evs ++ EvWaitBackoff backoff :: rest)%list
              end in
          match outcome a with
          | DoErr e =>
              if is_context_err e then (Err (text e), [EvAttempt attempt])
              else if negb (isTransientNetError e) then (Err (text e), [EvAttempt attempt])
              else backoff_and_go (Some (text e)) [EvAttempt attempt]
          | DoResp resp =>
              let status := StatusCode resp in
              if negb (shouldRetryStatus status) then (Ok resp, [EvAttempt attempt])
              else
                let lastErr := Some ("upstream status " ++ Itoa status) in
                let retryAfter := parseRetryAfter (Some resp) (clock a) in
                (* resp.Body.Close() *)
                let evs := [EvAttempt attempt; EvBodyClose attempt (Body resp)] in
                if (retryAfter >? 0) && (attempt <? maxAttempts - 1) then
                  match cancelled_in_wait a with
                  | Some e => (Err e, evs ++ [EvWaitRetryAfter retryAfter])%list
                  | None =>
                      let '(res, rest) := retry_loop fuel' base maxAttempts env (S i) lastErr in
                      (res, evs ++ EvWaitRetryAfter retryAfter :: rest)%list
                  end
                else backoff_and_go lastErr evs
          end
      end
  end.

(** [maxAttempts := c.cfg.MaxRetries + 1], clamped below at one. *)
Definition maxAttempts_of (maxRetries : Z) : Z :=
  let maxAttempts := wrap64 (maxRetries + 1) in
  if maxAttempts <? 1 then 1 else maxAttempts.

(** [client.doWithRetry]. *)
Definition doWithRetry (cfg : Config.Config) (env : nat -> attemptEnv)
  : result Response * list event :=
  let maxAttempts := maxAttempts_of (Config.MaxRetries cfg) in
  retry_loop (Z.to_nat maxAttempts) (Config.BaseBackoff cfg) maxAttempts env 0 None.

(** Number of calls of [do] in a trace. *)
Definition attempts (evs : list event) : nat :=
  length (List.filter (fun e => match e with EvAttempt _ => true | _ => false end) evs).

End Engine.

End Retry.

(** ** The upstream client (unary and stream files of [internal/llm]) *)

Module Client.
Import Go Llm.

Definition maxRequestSize : Z := 2 * 1024 * 1024.
Definition maxMessageSize : Z := 512 * 1024.

Definition strlen (s : string) : Z := Z.of_nat (String.length s).

(** [truncate]. *)
Definition truncate (s : string) (maxLen : nat) : string :=
  if (String.length s <=? maxLen)%nat then s
  else String.substring 0 maxLen s ++ "...".

(** The per-message size guard: the index of the first oversized message. *)
Fixpoint oversized_message (i : nat) (ms : list ChatMessage) : option nat :=
  match ms with
  | [] => None
  | m :: ms' =>
      if strlen (Content m) >? maxMessageSize then Some i
      else oversized_message (S i) ms'
  end.

(** A cancellation context as the decoder observes it: never done, or
    done from the [n+1]-th time it is consulted. *)
Inductive ctx :=
| Never
| DoneAfter (n : nat).

(** One look at [ctx.Done()]: [None] when it is closed. *)
Definition tick (c : ctx) : option ctx :=
  match c with
  | Never => Some Never
  | DoneAfter O => None
  | DoneAfter (S n) => Some (DoneAfter n)
  end.

(** [bufio.Reader.ReadBytes('\n')] applied until the data runs out: the
    complete lines (each with its newline) and the unterminated rest,
    which the last call returns together with the error. *)
Fixpoint split_lines (cur : string) (data : string) : list string * string :=
  match data with
  | EmptyString => ([], rev_string cur)
  | String c data' =>
      if Ascii.eqb c (ascii_of_nat 10) then
        let '(ls, rest) := split_lines EmptyString data' in
        (rev_string (String c cur) :: ls, rest)
      else split_lines (String c cur) data'
  end.

Section Client.
Context `{JSONLib} `{Retry.FloatConv} `{Retry.HTTPTime}.

(** The first three pre-flight checks shared by both operations; a
    [None] request is the nil pointer. *)
Definition preflight (req : option ChatRequest) : result ChatRequest :=
  match req with
  | None => Err "llmclient: request is nil"
  | Some req =>
      match Validate req with
      | Some e => Err ("llmclient: invalid request: " ++ validation_message e)
      | None =>
          match oversized_message 0 (elems (Messages req)) with
          | Some i =>
              Err ("llmclient: message[" ++ Itoa (Z.of_nat i) ++ "] content too large")
          | None => Ok req
          end
      end
  end.

(** The provider-shaped request of an operation. *)
Definition provider_request (req : ChatRequest) (stream : bool) : providerChatRequest :=
  {| pModel := Model req;
     pMessages := Messages req;
     pTemperature := Temperature req;
     pTopP := TopP req;
     pMaxTokens := MaxTokens req;
     pStop := Stop req;
     pStream := stream |}.

(** The marshalled body with the total-size guard. *)
Definition request_body (what : string) (req : ChatRequest) (stream : bool) : result string :=
  match marshal_providerChatRequest (provider_request req stream) with
  | Err e => Err ("llmclient: marshal " ++ what ++ ": " ++ e)
  | Ok bodyBytes =>
      if strlen bodyBytes >? maxRequestSize then Err "llmclient: request too large"
      else Ok bodyBytes
  end.

(** The error built from a non-2xx response. *)
Definition upstream_error (what : string) (status : Z) (body : string) : string :=
  match unmarshal_provider_error body with
  | Some (message, type) =>
      if negb (String.eqb message EmptyString)
      then "llmclient: " ++ what ++ " " ++ Itoa status ++ ": " ++ message ++ " (" ++ type ++ ")"
      else "llmclient: " ++ what ++ " " ++ Itoa status ++ ": " ++ truncate body 200
  | None => "llmclient: " ++ what ++ " " ++ Itoa status ++ ": " ++ truncate body 200
  end.

Definition map_choice (ch : providerChatChoice) : ChatChoice :=
  {| Index := pcIndex ch; Message := pcMessage ch; FinishReason := pcFinishReason ch |}.

(** Provider response to [ChatResponse]; usage is always present. *)
Definition map_response (p : providerChatResponse) : ChatResponse :=
  {| ID := prID p;
     Created := prCreated p * Second;
     RespModel := prModel p;
     Choices := Some (map map_choice (elems (prChoices p)));
     RespUsage := Some match prUsage p with
                       | Some u => u
                       | None => {| PromptTokens := 0; CompletionTokens := 0; TotalTokens := 0 |}
                       end |}.

(** [client.ChatCompletion]: the result and the engine's trace (empty
    when the request never reaches the engine). *)
Definition ChatCompletion (cfg : Config.Config) (env : nat -> Retry.attemptEnv)
    (req : option ChatRequest) : result ChatResponse * list Retry.event :=
  match preflight req with
  | Err e => (Err e, [])
  | Ok req =>
      match request_body "request" req false with
      | Err e => (Err e, [])
      | Ok bodyBytes =>
          match Retry.doWithRetry cfg env with
          | (Err e, tr) => (Err e, tr)
          | (Ok resp, tr) =>
              let status := Retry.StatusCode resp in
              if (status <? 200) || (status >=? 300) then
                (Err (upstream_error "upstream" status (Retry.Body resp)), tr)
              else
                match decode_provider_response (Retry.Body resp) with
                | Err e => (Err ("llmclient: decode upstream response: " ++ e), tr)
                | Ok pResp =>
                    if len (prChoices pResp) =? 0
                    then (Err "llmclient: provider returned no choices", tr)
                    else (Ok (map_response pResp), tr)
                end
          end
      end
  end.

(** The inner [for _, choice := range chunk.Choices] loop: what is sent,
    and the context afterwards ([None] once cancellation was observed). *)
Fixpoint emit_choices (c : ctx) (choices : list providerStreamChoice)
  : list StreamResult * option ctx :=
  match choices with
  | [] => ([], Some c)
  | choice :: rest =>
      let deltaText := scDeltaContent choice in
      if String.eqb deltaText EmptyString && String.eqb (scFinishReason choice) EmptyString
      then emit_choices c rest
      else
        let sc := {| ChunkIndex := scIndex choice;
                     Delta := deltaText;
                     ChunkFinishReason := scFinishReason choice |} in
        match tick c with
        | None => ([], None)
        | Some c' =>
            let '(out, c'') := emit_choices c' rest in
            (ResChunk sc :: out, c'')
        end
  end.

(** The SSE read loop over the lines [ReadBytes] returns; [read_err] is
    the error of the read that ends the data ([None] for [io.EOF]). *)
Fixpoint sse_loop (c : ctx) (lines : list string) (read_err : option string)
  : list StreamResult :=
  match tick c with
  | None => []
  | Some c1 =>
      match lines with
      | [] =>
          match read_err with
          | None => []
          | Some e => [ResErr ("llmclient: read stream line: " ++ e)]
          end
      | line :: rest =>
          let line := TrimSpace line in
          if (String.length line =? 0)%nat then sse_loop c1 rest read_err
          else
            match CutPrefix line "data: " with
            | None => sse_loop c1 rest read_err
            | Some tail =>
                let payload := TrimSpace tail in
                if String.eqb payload "[DONE]" then []
                else
                  match unmarshal_stream_chunk payload with
                  | Err e => [ResErr ("llmclient: unmarshal stream chunk: " ++ e)]
                  | Ok choices =>
                      match emit_choices c1 choices with
                      | (out, None) => out
                      | (out, Some c2) => (out ++ sse_loop c2 rest read_err)%list
                      end
                  end
            end
      end
  end.

(** The decoder on the body of a 2xx response. *)
Definition decode_stream (c : ctx) (body : string) (read_err : option string)
  : list StreamResult :=
  sse_loop c (fst (split_lines EmptyString body)) read_err.

(** [client.ChatCompletionStream]: a connect error, or the sequence of
    results sent on the channel before it is closed. *)
Definition ChatCompletionStream (cfg : Config.Config) (env : nat -> Retry.attemptEnv)
    (c : ctx) (read_err : option string) (req : option ChatRequest)
  : result (list StreamResult) * list Retry.event :=
  match preflight req with
  | Err e => (Err e, [])
  | Ok req =>
      match request_body "stream request" req true with
      | Err e => (Ok [ResErr e], [])
      | Ok bodyBytes =>
          match Retry.doWithRetry cfg env with
          | (Err e, tr) => (Ok [ResErr e], tr)
          | (Ok resp, tr) =>
              let status := Retry.StatusCode resp in
              if (status <? 200) || (status >=? 300) then
                (Ok [ResErr (upstream_error "upstream stream" status (Retry.Body resp))], tr)
              else (Ok (decode_stream c (Retry.Body resp) read_err), tr)
          end
      end
  end.

End Client.

End Client.

(** ** The chat handler ([internal/handlers/chat.go]) *)

Module Handlers.
Import Go Llm.

(** What [ExactCache.Get] returns. *)
Record getResult := {
  got : list Byte.byte;
  hit : bool;
  get_err : option string
}.

(** The [cache.ExactCache] interface over a backend state [S]. *)
Class ExactCache (S : Type) := {
  cache_Get : S -> string -> getResult * S;
  cache_Set : S -> string -> list Byte.byte -> Z -> option string * S
}.

(** The in-process backend, with the clock reading its operations take. *)
Definition memory_backend (now : Z) : ExactCache (gmap string MemoryCache.memoryEntry) :=
  {| cache_Get := fun c key =>
       match MemoryCache.Get c now key with
       | ((Some v, h), c') => ({| got := v; hit := h; get_err := None |}, c')
       | ((None, h), c') => ({| got := []; hit := h; get_err := None |}, c')
       end;
     cache_Set := fun c key v ttl => (None, MemoryCache.Set_ c now key v ttl) |}.

(** The [llm.Client] interface: each call returns its result together
    with the attempts the client made on the wire. *)
Record LLMClient := {
  llm_ChatCompletion : ChatRequest -> result ChatResponse * list Retry.event;
  llm_ChatCompletionStream : ChatRequest -> result (list StreamResult) * list Retry.event
}.

Record ChatHandler := {
  CacheTTL : Z;
  HandlerVersionID : string;
  LLM : LLMClient
}.

(** Calls the handler makes on its collaborators, in order. *)
Inductive call :=
| CallCacheGet (key : string)
| CallCacheSet (key : string) (value : list Byte.byte) (ttl : Z)
| CallChatCompletion (req : ChatRequest) (wire : list Retry.event)
| CallChatCompletionStream (req : ChatRequest) (wire : list Retry.event).

(** What the client receives. *)
Record reply := {
  Status : Z;
  ContentType : string;
  ReplyBody : string
}.

Definition StatusOK : Z := 200.
Definition StatusBadRequest : Z := 400.
Definition StatusInternalServerError : Z := 500.
Definition StatusBadGateway : Z := 502.

Definition newline : string := String (ascii_of_nat 10) EmptyString.

(** The JSON text of [map[string]string{"error": msg}] for the fixed
    error codes (letters and underscores only). *)
Definition error_json (msg : string) : string :=
  "{" ++ dquote ++ "error" ++ dquote ++ ":" ++ dquote ++ msg ++ dquote ++ "}".

(** [writeErrorJSON]; [Encoder.Encode] ends the value with a newline. *)
Definition writeErrorJSON (status : Z) (msg : string) : reply :=
  {| Status := status;
     ContentType := "application/json";
     ReplyBody := error_json msg ++ newline |}.

Section Handler.
Context `{JSONLib} {S : Type} `{ExactCache S}.

(** [ChatHandler.writeJSON] of a [ChatResponse]. *)
Definition writeJSON (v : ChatResponse) : reply :=
  {| Status := StatusOK;
     ContentType := "application/json";
     ReplyBody := match marshal_chat_response v with
                  | Ok text => text ++ newline
                  | Err _ => EmptyString
                  end |}.

(** The JSON text of one relayed chunk ([streamResponse]). *)
Definition stream_frame_json (c : StreamChunk) : string :=
  let delta :=
    encode_object (if String.eqb (Delta c) EmptyString then []
                   else [("content", json_quote (Delta c))]) in
  let choice :=
    encode_object ([("index", Itoa (ChunkIndex c)); ("delta", delta)]
                   ++ (if String.eqb (ChunkFinishReason c) EmptyString then []
                       else [("finish_reason", json_quote (ChunkFinishReason c))]))%list in
  encode_object [("choices", encode_array [choice])].

(** [writeSSEJSON]. *)
Definition sse_frame (json : string) : string :=
  "data: " ++ json ++ newline ++ newline.

Definition done_frame : string := "data: [DONE]" ++ newline ++ newline.

(** The relay loop over the results the channel delivers before it is
    closed; every [select] consults the request context first. *)
Fixpoint relay (c : Client.ctx) (results : list StreamResult) : string :=
  match Client.tick c with
  | None => EmptyString
  | Some c' =>
      match results with
      | [] => done_frame
      | ResErr _ :: _ => sse_frame (error_json "upstream_error") ++ done_frame
      | ResChunk ch :: rest => sse_frame (stream_frame_json ch) ++ relay c' rest
      end
  end.

(** [streamChatCompletion]; [can_flush] tells whether the response
    writer is an [http.Flusher]. *)
Definition streamChatCompletion (h : ChatHandler) (c : Client.ctx) (can_flush : bool)
    (req : ChatRequest) : reply * list call :=
  if negb can_flush then
    (writeErrorJSON StatusInternalServerError "streaming_not_supported", [])
  else
    match llm_ChatCompletionStream (LLM h) req with
    | (Err _, wire) =>
        (writeErrorJSON StatusBadGateway "upstream_error",
         [CallChatCompletionStream req wire])
    | (Ok results, wire) =>
        ({| Status := StatusOK;
            ContentType := "text/event-stream";
            ReplyBody := relay c results |},
         [CallChatCompletionStream req wire])
    end.

(** The part of [ChatCompletion] after the cache lookup did not answer:
    call the client, write back under [cacheKey] when there is one. *)
Definition call_upstream (h : ChatHandler) (st : S) (req : ChatRequest)
    (cacheKey : string) (before : list call) : reply * list call * S :=
  match llm_ChatCompletion (LLM h) req with
  | (Err _, wire) =>
      (writeErrorJSON StatusBadGateway "upstream_error",
       before ++ [CallChatCompletion req wire], st)%list
  | (Ok resp, wire) =>
      let calls := (before ++ [CallChatCompletion req wire])%list in
      if negb (String.eqb cacheKey EmptyString) then
        match marshal_chat_response resp with
        | Err _ => (writeJSON resp, calls, st)
        | Ok respBytes =>
            let v := list_byte_of_string respBytes in
            let '(_, st') := cache_Set st cacheKey v (CacheTTL h) in
            (writeJSON resp, calls ++ [CallCacheSet cacheKey v (CacheTTL h)], st')%list
        end
      else (writeJSON resp, calls, st)
  end.

(** [ChatHandler.ChatCompletion]: the reply, the calls made and the cache
    afterwards, from the request body, the [X-User-ID] header and the
    cache before. *)
Definition ChatCompletion (h : ChatHandler) (c : Client.ctx) (can_flush : bool)
    (st : S) (body : string) (userHeader : string) : reply * list call * S :=
  match decode_chat_request body with
  | Err _ => (writeErrorJSON StatusBadRequest "invalid_json", [], st)
  | Ok req =>
      let modelID := if String.eqb (Model req) EmptyString then "unknown-model" else Model req in
      let userID := if String.eqb userHeader EmptyString then "anon" else userHeader in
      let versionID :=
        if String.eqb (HandlerVersionID h) EmptyString then "v1" else HandlerVersionID h in
      if Stream req then
        let '(r, calls) := streamChatCompletion h c can_flush req in (r, calls, st)
      else
        match Cache.BuildExactCacheKeyFromChatRequest req userID versionID with
        | Err _ => call_upstream h st req EmptyString []
        | Ok key =>
            let cacheKey := Cache.String_ key in
            let '(res, st1) := cache_Get st cacheKey in
            let calls := [CallCacheGet cacheKey] in
            if hit res then
              match unmarshal_chat_response (got res) with
              | Err _ => call_upstream h st1 req cacheKey calls
              | Ok cachedResp => (writeJSON cachedResp, calls, st1)
              end
            else call_upstream h st1 req cacheKey calls
        end
  end.

End Handler.

(** The handler's client in production: the upstream client over a
    scripted wire. *)
Definition real_client `{JSONLib} `{Retry.FloatConv} `{Retry.HTTPTime}
    (cfg : Config.Config) (env : nat -> Retry.attemptEnv)
    (c : Client.ctx) (read_err : option string) : LLMClient :=
  {| llm_ChatCompletion := fun req => Client.ChatCompletion cfg env (Some req);
     llm_ChatCompletionStream :=
       fun req => Client.ChatCompletionStream cfg env c read_err (Some req) |}.

End Handlers.

(** ** Statements of the specification, in its own words

    Definitions that follow the wording of the specification rather than
    the code; the theorems compare them with the code. *)

Module Spec.
Import Go Llm.

(** [f] lies in the closed interval [[lo, hi]]. *)
Definition in_interval (f lo hi : float32) : Prop :=
  SFleb lo f = true /\ SFleb f hi = true.

Definition role_in_range (m : ChatMessage) : Prop :=
  Role m = RoleSystem \/ Role m = RoleUser \/ Role m = RoleAssistant.

Definition content_in_range (m : ChatMessage) : Prop :=
  Content m <> EmptyString \/ Role m = RoleSystem.

(** "model non-empty after trimming whitespace, messages non-empty,
    every role in {system, user, assistant}, content non-empty unless the
    role is system, temperature in [0,2], top_p in [0,1], and max_tokens a
    non-negative integer". *)
Definition fields_in_range (r : ChatRequest) : Prop :=
  TrimSpace (Model r) <> EmptyString
  /\ elems (Messages r) <> []
  /\ Forall (fun m => role_in_range m /\ content_in_range m) (elems (Messages r))
  /\ in_interval (Temperature r) f32_zero f32_two
  /\ in_interval (TopP r) f32_zero f32_one
  /\ 0 <= MaxTokens r.

(** The ranges [Validate] enforces: the model as given (not trimmed), no
    bound on [max_tokens], and a NaN passes both float checks because
    every comparison with it is false. *)
Definition fields_accepted (r : ChatRequest) : Prop :=
  Model r <> EmptyString
  /\ elems (Messages r) <> []
  /\ Forall (fun m => role_in_range m /\ content_in_range m) (elems (Messages r))
  /\ (Temperature r = S754_nan \/ in_interval (Temperature r) f32_zero f32_two)
  /\ (TopP r = S754_nan \/ in_interval (TopP r) f32_zero f32_one).

(** The members of an inbound JSON body, with presence: what the client
    wrote. [None] is a member that is absent. *)
Record InboundFields := {
  in_model : string;
  in_messages : slice ChatMessage;
  in_temperature : option float32;
  in_top_p : option float32;
  in_max_tokens : option Z;
  in_stop : slice string;
  in_stream : option bool
}.

(** What decoding such a body leaves in the [ChatRequest]: an absent
    member leaves the zero value of its field. *)
Definition from_fields (j : InboundFields) : ChatRequest :=
  {| Model := in_model j;
     Messages := in_messages j;
     Temperature := default f32_zero (in_temperature j);
     TopP := default f32_zero (in_top_p j);
     MaxTokens := default 0 (in_max_tokens j);
     Stop := in_stop j;
     Stream := default false (in_stream j) |}.

Definition set_temperature (t : option float32) (j : InboundFields) : InboundFields :=
  {| in_model := in_model j; in_messages := in_messages j; in_temperature := t;
     in_top_p := in_top_p j; in_max_tokens := in_max_tokens j; in_stop := in_stop j;
     in_stream := in_stream j |}.

Definition set_top_p (t : option float32) (j : InboundFields) : InboundFields :=
  {| in_model := in_model j; in_messages := in_messages j;
     in_temperature := in_temperature j; in_top_p := t;
     in_max_tokens := in_max_tokens j; in_stop := in_stop j; in_stream := in_stream j |}.

Definition set_max_tokens (n : option Z) (j : InboundFields) : InboundFields :=
  {| in_model := in_model j; in_messages := in_messages j;
     in_temperature := in_temperature j; in_top_p := in_top_p j;
     in_max_tokens := n; in_stop := in_stop j; in_stream := in_stream j |}.

Definition set_stream (b : option bool) (j : InboundFields) : InboundFields :=
  {| in_model := in_model j; in_messages := in_messages j;
     in_temperature := in_temperature j; in_top_p := in_top_p j;
     in_max_tokens := in_max_tokens j; in_stop := in_stop j; in_stream := b |}.

(** Whether an object under construction has a member with this key
    ([false] when marshalling fails and nothing is produced). *)
Definition has_member (key : string) (ms : result (list member)) : bool :=
  match ms with
  | Ok l => match assoc l key with Some _ => true | None => false end
  | Err _ => false
  end.

(** An environment in which every attempt fails in a retryable way and
    the context is never cancelled. *)
Definition retryable_outcome `{Retry.FloatConv} `{Retry.HTTPTime} (o : Retry.doOutcome) : Prop :=
  match o with
  | Retry.DoResp r => Retry.shouldRetryStatus (Retry.StatusCode r) = true
  | Retry.DoErr e => Retry.is_context_err e = false /\ Retry.isTransientNetError e = true
  end.

Definition persistently_retryable `{Retry.FloatConv} `{Retry.HTTPTime}
    (env : nat -> Retry.attemptEnv) : Prop :=
  forall i, Retry.ctx_err (env i) = None
            /\ Retry.cancelled_in_wait (env i) = None
            /\ retryable_outcome (Retry.outcome (env i)).

(** "for each parsed choice, emits StreamChunk{index, delta=content,
    finish_reason} exactly when delta.content is non-empty or
    finish_reason is non-empty and skips the choice otherwise". *)
Definition emits (choice : providerStreamChoice) : bool :=
  negb (String.eqb (scDeltaContent choice) EmptyString)
  || negb (String.eqb (scFinishReason choice) EmptyString).

Definition chunk_of (choice : providerStreamChoice) : StreamChunk :=
  {| ChunkIndex := scIndex choice;
     Delta := scDeltaContent choice;
     ChunkFinishReason := scFinishReason choice |}.

Definition emitted (choices : list providerStreamChoice) : list StreamResult :=
  map (fun choice => ResChunk (chunk_of choice)) (List.filter emits choices).

End Spec.

(** ** Concrete data for the scenarios of the specification

    A small stand-in for [encoding/json] and [net/http] that agrees with
    them on the texts listed here (plain ASCII without characters that
    need escaping), so that the scenarios can be run. JSON texts are
    written with ['] for the double quote. *)

Module Samples.
Import Go Llm.

Definition json_text (s : string) : string :=
  string_of_list_ascii
    (map (fun c => if Ascii.eqb c "'" then ascii_of_nat 34 else c)
         (list_ascii_of_string s)).

Definition quote_plain (s : string) : string := dquote ++ s ++ dquote.

Definition f32_half : float32 := S754_finite false 8388608 (-24).
Definition f32_three : float32 := S754_finite false 12582912 (-22).
Definition f32_minus_one : float32 := S754_finite true 8388608 (-23).

Definition float32_text (f : float32) : string :=
  match f with
  | S754_finite false 8388608 (-24) => "0.5"
  | S754_finite false 8388608 (-23) => "1"
  | S754_finite false 8388608 (-22) => "2"
  | S754_finite false 12582912 (-22) => "3"
  | S754_finite true 8388608 (-23) => "-1"
  | _ => "0"
  end.

Definition user_message (text : string) : ChatMessage :=
  {| Role := RoleUser; Content := text |}.

Definition request (model : string) (msgs : list ChatMessage) : ChatRequest :=
  {| Model := model; Messages := Some msgs;
     Temperature := f32_zero; TopP := f32_zero; MaxTokens := 0;
     Stop := None; Stream := false |}.

Definition with_stream (r : ChatRequest) : ChatRequest :=
  {| Model := Model r; Messages := Messages r; Temperature := Temperature r;
     TopP := TopP r; MaxTokens := MaxTokens r; Stop := Stop r; Stream := true |}.

Definition with_max_tokens (n : Z) (r : ChatRequest) : ChatRequest :=
  {| Model := Model r; Messages := Messages r; Temperature := Temperature r;
     TopP := TopP r; MaxTokens := n; Stop := Stop r; Stream := Stream r |}.

Definition with_temperature (t : float32) (r : ChatRequest) : ChatRequest :=
  {| Model := Model r; Messages := Messages r; Temperature := t;
     TopP := TopP r; MaxTokens := MaxTokens r; Stop := Stop r; Stream := Stream r |}.

(** Scenario 1: [{"model":"gpt-4","messages":[{"role":"user","content":"hi"}]}]. *)
Definition hi_request : ChatRequest := request "gpt-4" [user_message "hi"].

(** Scenario 3: no model. *)
Definition no_model_request : ChatRequest :=
  {| Model := EmptyString; Messages := Some [user_message "x"];
     Temperature := f32_zero; TopP := f32_zero; MaxTokens := 0;
     Stop := None; Stream := false |}.

(** A model of one blank. *)
Definition blank_model_request : ChatRequest := request " " [user_message "x"].

Definition negative_max_tokens_request : ChatRequest :=
  with_max_tokens (-1) hi_request.

Definition bad_role_request : ChatRequest :=
  request "gpt-4" [{| Role := "tool"; Content := "x" |}].

Definition empty_content_request : ChatRequest :=
  request "gpt-4" [user_message EmptyString].

Definition hot_request : ChatRequest := with_temperature f32_three hi_request.

Definition inbound_bodies : list (string * ChatRequest) :=
  [ (json_text "{'model':'gpt-4','messages':[{'role':'user','content':'hi'}]}", hi_request);
    (json_text "{'messages':[{'role':'user','content':'x'}]}", no_model_request);
    (json_text "{'model':' ','messages':[{'role':'user','content':'x'}]}", blank_model_request);
    (json_text "{'model':'gpt-4','messages':[{'role':'tool','content':'x'}]}", bad_role_request);
    (json_text "{'model':'gpt-4','messages':[{'role':'user','content':''}]}", empty_content_request);
    (json_text "{'model':'gpt-4','messages':[{'role':'user','content':'hi'}],'temperature':3}",
     hot_request);
    (json_text "{'model':'gpt-4','messages':[{'role':'user','content':'hi'}],'max_tokens':-1}",
     negative_max_tokens_request);
    (json_text "{'model':'gpt-4','messages':[{'role':'user','content':'hi'}],'stream':true}",
     with_stream hi_request) ].

Definition stream_choice (content finish : string) : providerStreamChoice :=
  {| scIndex := 0; scDeltaRole := EmptyString;
     scDeltaContent := content; scFinishReason := finish |}.

(** Scenario 2: the two chunks the upstream emits, and a role-only one. *)
Definition stream_payloads : list (string * list providerStreamChoice) :=
  [ (json_text "{'choices':[{'index':0,'delta':{'content':'hel'}}]}",
     [stream_choice "hel" EmptyString]);
    (json_text "{'choices':[{'index':0,'delta':{'content':'lo'},'finish_reason':'stop'}]}",
     [stream_choice "lo" "stop"]);
    (json_text "{'choices':[{'index':0,'delta':{'role':'assistant'}}]}",
     [{| scIndex := 0; scDeltaRole := "assistant";
         scDeltaContent := EmptyString; scFinishReason := EmptyString |}]) ].

Definition hello_response : ChatResponse :=
  {| ID := EmptyString; Created := 0; RespModel := "gpt-4";
     Choices := Some [{| Index := 0;
                         Message := {| Role := RoleAssistant; Content := "hello!" |};
                         FinishReason := EmptyString |}];
     RespUsage := None |}.

Definition hello_text : string :=
  json_text "{'created':'0001-01-01T00:00:00Z','model':'gpt-4','choices':[{'index':0,'message':{'role':'assistant','content':'hello!'}}]}".

Definition result_of {A} (o : option A) (msg : string) : result A :=
  match o with Some a => Ok a | None => Err msg end.

#[export] Instance json : JSONLib :=
  {| json_quote := quote_plain;
     json_float32 := float32_text;
     unmarshal_stream_chunk := fun s => result_of (assoc stream_payloads s) "invalid character";
     decode_provider_response := fun _ => Err "unexpected end of JSON input";
     unmarshal_provider_error := fun _ => None;
     decode_chat_request := fun s => result_of (assoc inbound_bodies s) "invalid character";
     marshal_chat_response := fun _ => Ok hello_text;
     unmarshal_chat_response := fun b =>
       if String.eqb (string_of_list_byte b) hello_text then Ok hello_response
       else Err "invalid character" |}.

(** HTTP dates, with the clock counting from the Unix epoch. *)
Definition http_dates : list (string * Z) :=
  [ ("Thu, 01 Jan 1970 00:10:00 GMT", 600 * Second);
    ("Thu, 01 Jan 1970 00:00:30 GMT", 30 * Second);
    ("Fri, 01 Jan 2100 00:00:00 GMT", 4102444800 * Second) ].

#[export] Instance http_time : Retry.HTTPTime :=
  {| Retry.ParseTime := assoc http_dates |}.

Definition f64_half : spec_float := S754_finite false 4503599627370496 (-53).

(** The configuration the gateway binary passes to [NewClient]. *)
Definition gateway_config : Config.Config :=
  {| Config.BaseURL := "https://api.openai.com";
     Config.APIKey := "sk-example";
     Config.UpstreamTimeout := 0;
     Config.MaxRetries := 0;
     Config.BaseBackoff := 0;
     Config.MaxIdleConns := 0;
     Config.MaxIdleConnsPerHost := 0 |}.

Definition with_max_retries (n : Z) (c : Config.Config) : Config.Config :=
  {| Config.BaseURL := Config.BaseURL c;
     Config.APIKey := Config.APIKey c;
     Config.UpstreamTimeout := Config.UpstreamTimeout c;
     Config.MaxRetries := n;
     Config.BaseBackoff := Config.BaseBackoff c;
     Config.MaxIdleConns := Config.MaxIdleConns c;
     Config.MaxIdleConnsPerHost := Config.MaxIdleConnsPerHost c |}.

Definition response (status : Z) (retryAfter body : string) : Retry.Response :=
  {| Retry.StatusCode := status; Retry.RetryAfter := retryAfter; Retry.Body := body |}.

(** An attempt with this outcome, the context open, the clock at the
    epoch and [rand.Float64()] returning one half. *)
Definition attempt_with (o : Retry.doOutcome) : Retry.attemptEnv :=
  {| Retry.ctx_err := None;
     Retry.outcome := o;
     Retry.clock := 0;
     Retry.jitter := f64_half;
     Retry.cancelled_in_wait := None |}.

(** The same with the clock at [now]. *)
Definition attempt_at (now : Z) (o : Retry.doOutcome) : Retry.attemptEnv :=
  {| Retry.ctx_err := None;
     Retry.outcome := o;
     Retry.clock := now;
     Retry.jitter := f64_half;
     Retry.cancelled_in_wait := None |}.

Definition rate_limited (retryAfter : string) : Retry.doOutcome :=
  Retry.DoResp (response 429 retryAfter "slow down").

(** The upstream answers the attempts with [os] in turn, then with [last]
    for ever. *)
Definition script (os : list Retry.doOutcome) (last : Retry.doOutcome)
  : nat -> Retry.attemptEnv :=
  fun i => attempt_with (nth i os last).

Definition overloaded : Retry.doOutcome :=
  Retry.DoResp (response 503 EmptyString "overloaded").

Definition ok_response : Retry.doOutcome :=
  Retry.DoResp (response 200 EmptyString "{}").

(** One rate-limited first attempt, then success, read at clock [now]. *)
Definition limited_once (now : Z) (retryAfter : string) : nat -> Retry.attemptEnv :=
  fun i => attempt_at now (nth i [rate_limited retryAfter] ok_response).

Definition lines (ls : list string) : string :=
  String.concat EmptyString (map (fun l => l ++ Handlers.newline) ls).

(** Scenario 2: the event stream of the upstream, with a comment line. *)
Definition hello_stream : string :=
  lines [ ": keep-alive";
          json_text "data: {'choices':[{'index':0,'delta':{'role':'assistant'}}]}";
          EmptyString;
          json_text "data: {'choices':[{'index':0,'delta':{'content':'hel'}}]}";
          EmptyString;
          json_text "data: {'choices':[{'index':0,'delta':{'content':'lo'},'finish_reason':'stop'}]}";
          EmptyString;
          "data: [DONE]";
          EmptyString ].

Definition chunk (delta finish : string) : StreamResult :=
  ResChunk {| ChunkIndex := 0; Delta := delta; ChunkFinishReason := finish |}.

(** The handler of the gateway binary over the in-process cache, with the
    upstream client answering from a script. *)
Definition gateway_handler (env : nat -> Retry.attemptEnv) : Handlers.ChatHandler :=
  {| Handlers.CacheTTL := 5 * Minute;
     Handlers.HandlerVersionID := "v1";
     Handlers.LLM :=
       Handlers.real_client (H0 := Retry.amd64) (Config.WithDefaults gateway_config)
         env Client.Never None |}.

Definition no_model_body : string :=
  json_text "{'messages':[{'role':'user','content':'x'}]}".

End Samples.

(** ** Parsing a key back ([internal/cache/exact_logging.go]) *)

Module ExactLogging.
Import Go.

Record exactKeyParts := {
  userID : string;
  modelID : string;
  versionID : string;
  hash : string
}.

(** [parseExactKey]; [None] is the [false] result. *)
Definition parseExactKey (key : string) : option exactKeyParts :=
  match Split key ":" with
  | [p0; p1; p2; p3; p4] =>
      if String.eqb p0 "exact"
      then Some {| userID := p1; modelID := p2; versionID := p3; hash := p4 |}
      else None
  | _ => None
  end.

(** The parts a key was made from. *)
Definition parts_of (k : Cache.ExactCacheKey) : exactKeyParts :=
  {| userID := Cache.UserID k; modelID := Cache.ModelID k;
     versionID := Cache.VersionID k; hash := Cache.Hash k |}.

(** Number of colons inside the four parts of a key. *)
Definition colons (k : Cache.ExactCacheKey) : nat :=
  (count_char ":" (Cache.UserID k) + count_char ":" (Cache.ModelID k)
   + count_char ":" (Cache.VersionID k) + count_char ":" (Cache.Hash k))%nat.

End ExactLogging.

(** ** The Redis backend ([internal/cache/redis.go]) *)

Module Redis.
Import Go.

(** [RedisExactCache.key]. *)
Definition key (prefix k : string) : string :=
  if String.eqb prefix EmptyString then k else prefix ++ ":" ++ k.

End Redis.

(** ** Vocabulary for the traces of the retry engine *)

Module RetrySpec.
Import Go Retry.

(** Number of sleeps in a trace. *)
Definition waits (evs : list event) : nat :=
  length (List.filter (fun e => match e with
                                | EvWaitRetryAfter _ | EvWaitBackoff _ => true
                                | _ => false
                                end) evs).

(** The error the engine remembers for a retryable outcome. *)
Definition remembered_error (o : doOutcome) : string :=
  match o with
  | DoErr e => text e
  | DoResp r => "upstream status " ++ Itoa (StatusCode r)
  end.

(** A response that ends the loop: its status is not retried. *)
Definition final_response `{FloatConv} `{HTTPTime} (o : doOutcome) (resp : Response) : Prop :=
  o = DoResp resp /\ shouldRetryStatus (StatusCode resp) = false.

(** An error that ends the loop: a context error, or a network error
    that is not transient. *)
Definition final_error `{FloatConv} `{HTTPTime} (o : doOutcome) (e : NetError) : Prop :=
  o = DoErr e /\ (is_context_err e = true \/ isTransientNetError e = false).

(** Attempt [j] fails in a retryable way and the context stays open. *)
Definition retryable_attempt `{FloatConv} `{HTTPTime} (a : attemptEnv) : Prop :=
  ctx_err a = None /\ cancelled_in_wait a = None /\ Spec.retryable_outcome (outcome a).

(** Number of binary digits of a positive mantissa. *)
Definition dg (m : positive) : Z := Zpos (digits2_pos m).

(** The values [rand.Float64] returns: a float in the half-open interval
    [0, 1). *)
Definition unit_interval (r : spec_float) : bool :=
  match r with
  | S754_zero false => true
  | S754_finite false m e => Zpos m <? 2 ^ (- e)
  | _ => false
  end.

(** What a trace says about the pacing of the attempts: the calls of
    [do], numbered, and the sleeps, in the order they happen. *)
Inductive pace :=
| Tried (attempt : Z)
| Slept.

Definition pace_of (e : event) : option pace :=
  match e with
  | EvAttempt attempt => Some (Tried attempt)
  | EvWaitRetryAfter _ | EvWaitBackoff _ => Some Slept
  | EvBodyClose _ _ => None
  end.

Definition paces (evs : list event) : list pace := omap pace_of evs.

(** Attempts [i], [i+1], ..., [i+n] with exactly one sleep between two
    consecutive ones, and none after the last. *)
Fixpoint paced (i n : nat) : list pace :=
  match n with
  | O => [Tried (Z.of_nat i)]
  | S n' => Tried (Z.of_nat i) :: Slept :: paced (S i) n'
  end.

End RetrySpec.

(** ** Vocabulary for the further properties of the client *)

Module ClientSpec.
Import Go Llm Client.

(** A message within the per-message limit. *)
Definition fits (m : ChatMessage) : Prop := strlen (Content m) <= maxMessageSize.

(** What has been checked of a request by the time it is sent: it is
    there, [Validate] accepts it, every message is within the limit, and
    its provider-shaped body marshals to at most [maxRequestSize] bytes. *)
Definition checked `{JSONLib} (req : option ChatRequest) (stream : bool) : Prop :=
  exists r body,
    req = Some r
    /\ Validate r = None
    /\ Forall fits (elems (Messages r))
    /\ marshal_providerChatRequest
         {| pModel := Model r; pMessages := Messages r; pTemperature := Temperature r;
            pTopP := TopP r; pMaxTokens := MaxTokens r; pStop := Stop r;
            pStream := stream |} = Ok body
    /\ strlen body <= maxRequestSize.

(** A sequence of results a consumer can rely on: every chunk carries
    content or a finish reason, and an error is the last result. *)
Fixpoint well_formed (rs : list StreamResult) : bool :=
  match rs with
  | [] => true
  | ResErr _ :: rest => match rest with [] => true | _ => false end
  | ResChunk sc :: rest =>
      (negb (String.eqb (Delta sc) EmptyString)
       || negb (String.eqb (ChunkFinishReason sc) EmptyString))
      && well_formed rest
  end.

(** A chunk that carries content or a finish reason. *)
Definition chunk_ok (r : StreamResult) : Prop :=
  match r with
  | ResChunk sc => Delta sc <> EmptyString \/ ChunkFinishReason sc <> EmptyString
  | ResErr _ => False
  end.

Definition no_newline (s : string) : bool :=
  string_forallb (fun c => negb (Ascii.eqb c (ascii_of_nat 10))) s.

(** A line whose payload is the end-of-stream sentinel. *)
Definition is_done_line (l : string) : bool :=
  match CutPrefix (TrimSpace l) "data: " with
  | Some tail => String.eqb (TrimSpace tail) "[DONE]"
  | None => false
  end.

End ClientSpec.

(** ** Vocabulary for the further properties of the handler *)

Module HandlerSpec.
Import Go Llm Handlers.

Definition is_cache_call (c : call) : bool :=
  match c with
  | CallCacheGet _ | CallCacheSet _ _ _ => true
  | _ => false
  end.

(** The user and version the handler passes to the key builder. *)
Definition user_of (userHeader : string) : string :=
  if String.eqb userHeader EmptyString then "anon" else userHeader.

Definition version_of (h : ChatHandler) : string :=
  if String.eqb (HandlerVersionID h) EmptyString then "v1" else HandlerVersionID h.

(** The in-process backend when the clock reads [tget] at the lookup
    and [tset] at the write-back that follows the upstream call. *)
Definition memory_backend_at (tget tset : Z)
  : ExactCache (gmap string MemoryCache.memoryEntry) :=
  {| cache_Get := cache_Get (ExactCache := memory_backend tget);
     cache_Set := cache_Set (ExactCache := memory_backend tset) |}.

(** The frames the relay writes for a run of chunks. *)
Definition chunk_frames `{JSONLib} (chs : list StreamChunk) : string :=
  fold_right (fun ch acc => sse_frame (stream_frame_json ch) ++ acc) EmptyString chs.

End HandlerSpec.

(** ** Further data for the scenarios *)

Module MoreSamples.
Import Go Llm Samples.

Definition hello_provider_response : providerChatResponse :=
  {| prID := "chatcmpl-1"; prCreated := 1700000000; prModel := "gpt-4";
     prChoices := Some [{| pcIndex := 0;
                           pcMessage := {| Role := RoleAssistant; Content := "hello!" |};
                           pcFinishReason := "stop" |}];
     prUsage := None |}.

(** The stand-in of [Samples.json] with a provider whose answer decodes. *)
Definition json_ok : JSONLib :=
  {| json_quote := quote_plain;
     json_float32 := float32_text;
     unmarshal_stream_chunk := fun s => result_of (assoc stream_payloads s) "invalid character";
     decode_provider_response := fun _ => Ok hello_provider_response;
     unmarshal_provider_error := fun _ => None;
     decode_chat_request := fun s => result_of (assoc inbound_bodies s) "invalid character";
     marshal_chat_response := fun _ => Ok hello_text;
     unmarshal_chat_response := fun b =>
       if String.eqb (string_of_list_byte b) hello_text then Ok hello_response
       else Err "invalid character" |}.

(** The gateway's handler with an upstream that answers 200 at once. *)
Definition answering_handler : Handlers.ChatHandler :=
  {| Handlers.CacheTTL := 5 * Minute;
     Handlers.HandlerVersionID := "v1";
     Handlers.LLM :=
       Handlers.real_client (H := json_ok) (H0 := Retry.amd64)
         (Config.WithDefaults gateway_config) (script [] ok_response) Client.Never None |}.

Definition hi_body : string :=
  json_text "{'model':'gpt-4','messages':[{'role':'user','content':'hi'}]}".

Definition hi_stream_body : string :=
  json_text "{'model':'gpt-4','messages':[{'role':'user','content':'hi'}],'stream':true}".

(** An upstream that answers 200 with the event stream of scenario 2. *)
Definition streaming_upstream : nat -> Retry.attemptEnv :=
  script [] (Retry.DoResp (response 200 EmptyString hello_stream)).

End MoreSamples.

(** * Properties *)

(** ** The in-process cache *)

Section MemoryCacheFacts.
Import MemoryCache.

Lemma After_false_iff now t : After now t = false <-> now <= t.
Proof. unfold After. rewrite Z.ltb_ge. reflexivity. Qed.

Lemma After_true_iff now t : After now t = true <-> t < now.
Proof. unfold After. apply Z.ltb_lt. Qed.

(** The map after a [Get] differs from the one before at most at the key
    that was looked up. *)
Lemma Get_other (c : items) now k k' :
  k' <> k -> snd (Get c now k') !! k = c !! k.
Proof.
  intros Hne. unfold Get.
  destruct (c !! k') as [e|] eqn:Hk'; simpl; [|reflexivity].
  destruct (After now (expiresAt e)); simpl; [|reflexivity].
  by rewrite lookup_delete_ne.
Qed.

Lemma Get_live (c : items) now k e :
  c !! k = Some e -> now <= expiresAt e ->
  Get c now k = ((Some (value e), true), c).
Proof.
  intros Hk Hle. unfold Get. rewrite Hk.
  apply After_false_iff in Hle. by rewrite Hle.
Qed.

Lemma Get_expired (c : items) now k e :
  c !! k = Some e -> expiresAt e < now ->
  Get c now k = ((None, false), delete k c).
Proof.
  intros Hk Hlt. unfold Get. rewrite Hk.
  apply After_true_iff in Hlt. by rewrite Hlt.
Qed.

Lemma Get_absent (c : items) now k :
  c !! k = None -> Get c now k = ((None, false), c).
Proof. intros Hk. unfold Get. by rewrite Hk. Qed.

Lemma Set_lookup (c : items) now k v ttl :
  0 < ttl ->
  Set_ c now k v ttl !! k = Some {| value := v; expiresAt := now + ttl |}.
Proof.
  intros Httl. unfold Set_.
  destruct (ttl <=? 0) eqn:E; [apply Z.leb_le in E; lia|].
  by rewrite lookup_insert_eq.
Qed.

Lemma Set_other (c : items) now k k' v ttl :
  k' <> k -> Set_ c now k' v ttl !! k = c !! k.
Proof.
  intros Hne. unfold Set_.
  destruct (ttl <=? 0); [by rewrite lookup_delete_ne | by rewrite lookup_insert_ne].
Qed.

Lemma sweep_lookup (c : items) now k :
  sweep c now !! k =
  match c !! k with
  | Some e => if After now (expiresAt e) then None else Some e
  | None => None
  end.
Proof.
  unfold sweep. destruct (c !! k) as [e|] eqn:Hk.
  - destruct (After now (expiresAt e)) eqn:HA.
    + apply map_lookup_filter_None. right. intros x Hx. simpl.
      rewrite Hk in Hx. injection Hx as <-. by rewrite HA.
    + apply map_lookup_filter_Some. split; [done|]. simpl. done.
  - apply map_lookup_filter_None. by left.
Qed.

(** An entry that has not expired survives every operation that is not a
    [Set] of its key and reads the clock no later than its expiry. *)
Lemma run_op_live (c : items) k e o :
  c !! k = Some e -> foreign k o -> op_time o <= expiresAt e ->
  run_op c o !! k = Some e.
Proof.
  intros Hk Hf Ht. destruct o as [now k'|now k' v ttl|now]; simpl in *.
  - destruct (decide (k' = k)) as [->|Hne].
    + by rewrite (Get_live _ _ _ _ Hk Ht).
    + by rewrite Get_other.
  - by rewrite Set_other.
  - rewrite sweep_lookup, Hk.
    apply After_false_iff in Ht. by rewrite Ht.
Qed.

(** Whatever the clock, such operations leave the entry as it is or
    remove it. *)
Lemma run_op_same_or_gone (c : items) k e o :
  (c !! k = Some e \/ c !! k = None) -> foreign k o ->
  (run_op c o !! k = Some e \/ run_op c o !! k = None).
Proof.
  intros Hk Hf. destruct o as [now k'|now k' v ttl|now]; simpl in *.
  - destruct (decide (k' = k)) as [->|Hne].
    + destruct Hk as [Hk|Hk].
      * destruct (Z_le_gt_dec now (expiresAt e)) as [Hle|Hgt].
        -- rewrite (Get_live _ _ _ _ Hk Hle). by left.
        -- rewrite (Get_expired _ _ _ _ Hk); [|lia]. simpl.
           right. apply lookup_delete_eq.
      * rewrite (Get_absent _ _ _ Hk). by right.
    + by rewrite Get_other.
  - by rewrite Set_other.
  - rewrite sweep_lookup. destruct Hk as [-> | ->]; [|by right].
    destruct (After now (expiresAt e)); [by right | by left].
Qed.

Lemma run_ops_live (os : list op) (c : items) k e :
  c !! k = Some e -> Forall (foreign k) os ->
  Forall (fun o => op_time o <= expiresAt e) os ->
  run_ops c os !! k = Some e.
Proof.
  revert c. induction os as [|o os IH]; intros c Hk Hf Ht; simpl; [done|].
  inversion Hf; inversion Ht; subst.
  apply IH; try done. by apply run_op_live.
Qed.

Lemma run_ops_same_or_gone (os : list op) (c : items) k e :
  (c !! k = Some e \/ c !! k = None) -> Forall (foreign k) os ->
  (run_ops c os !! k = Some e \/ run_ops c os !! k = None).
Proof.
  revert c. induction os as [|o os IH]; intros c Hk Hf; simpl; [done|].
  inversion Hf; subst. apply IH; [|done]. by apply run_op_same_or_gone.
Qed.

(** C2. On the in-process backend, [Set(k, v, ttl)] with [ttl > 0] at
    clock [t0], followed (after any operations of other goroutines that
    do not set [k] again) by [Get(k)] at clock [t1]: while the ttl has not
    elapsed ([t1 <= t0 + ttl]) the [Get] returns the very bytes [v] with
    [hit = true]; once it has elapsed ([t0 + ttl < t1]) it returns
    [hit = false]. The error result of [Get] is always nil. *)
Theorem set_then_get_within_ttl (c : items) (k : string) (v : list Byte.byte)
    (ttl t0 t1 : Z) (os : list op) :
  0 < ttl ->
  Forall (foreign k) os ->
  let c1 := run_ops (Set_ c t0 k v ttl) os in
  (Forall (fun o => op_time o <= t1) os -> t1 <= t0 + ttl ->
   fst (Get c1 t1 k) = (Some v, true))
  /\ (t0 + ttl < t1 -> fst (Get c1 t1 k) = (None, false)).
Proof.
  intros Httl Hf c1.
  pose proof (Set_lookup c t0 k v ttl Httl) as Hset.
  set (e := {| value := v; expiresAt := t0 + ttl |}) in *.
  split.
  - intros Ht Hle.
    assert (Hlive : c1 !! k = Some e).
    { apply run_ops_live; try done.
      eapply Forall_impl; [exact Ht|]. simpl. intros o Ho. lia. }
    by rewrite (Get_live _ _ _ _ Hlive Hle).
  - intros Hlt.
    destruct (run_ops_same_or_gone os (Set_ c t0 k v ttl) k e (or_introl Hset) Hf)
      as [Hk|Hk]; fold c1 in Hk.
    + by rewrite (Get_expired _ _ _ _ Hk Hlt).
    + by rewrite (Get_absent _ _ _ Hk).
Qed.

(** The test of the repository: 20ms ttl, read at once and after 30ms,
    with a sweep in between. *)
Lemma set_then_get_within_ttl_witness :
  let hello := list_byte_of_string "hello" in
  let c1 := run_ops (Set_ (∅ : items) 0 "test:key" hello 20000000) [OpSweep 10000000] in
  fst (Get c1 10000000 "test:key") = (Some hello, true)
  /\ fst (Get c1 30000000 "test:key") = (None, false).
Proof.
  intros hello c1.
  assert (Hf : Forall (foreign "test:key") [OpSweep 10000000]).
  { repeat constructor. }
  pose proof (set_then_get_within_ttl ∅ "test:key" hello 20000000 0 10000000
                [OpSweep 10000000] ltac:(lia) Hf) as [Hhit _].
  pose proof (set_then_get_within_ttl ∅ "test:key" hello 20000000 0 30000000
                [OpSweep 10000000] ltac:(lia) Hf) as [_ Hmiss].
  split.
  - apply Hhit; [repeat constructor; simpl; lia | lia].
  - apply Hmiss. lia.
Defined.

End MemoryCacheFacts.

(** ** Request validation *)

Section ValidateFacts.
Import Go Llm Spec.

Lemma SFcompare_antisym (x y : spec_float) :
  SFcompare y x = option_map CompOpp (SFcompare x y).
Proof.
  destruct x as [sx|sx| |sx mx ex], y as [sy|sy| |sy my ey]; simpl;
    try reflexivity;
    try (destruct sx; reflexivity);
    try (destruct sy; reflexivity);
    try (destruct sx, sy; reflexivity).
  pose proof (Pos.compare_cont_antisym mx my Eq) as Hm. simpl in Hm.
  change (PosDef.Pos.compare_cont Eq my mx) with (Pos.compare_cont Eq my mx).
  change (PosDef.Pos.compare_cont Eq mx my) with (Pos.compare_cont Eq mx my).
  rewrite <- Hm.
  destruct sx, sy; simpl; try reflexivity;
    rewrite (Z.compare_antisym ex ey);
    destruct (ex ?= ey); simpl; try reflexivity;
    destruct (Pos.compare_cont Eq mx my); reflexivity.
Qed.

(** Against a number, "not below" is "at least" unless the value is NaN. *)
Lemma not_ltb_leb (t c : spec_float) :
  c <> S754_nan ->
  negb (SFltb t c) = IsNaN t || SFleb c t.
Proof.
  intros Hc. unfold SFltb, SFleb. rewrite (SFcompare_antisym t c).
  destruct (SFcompare t c) as [[]|] eqn:E; simpl; destruct t; simpl in *; try done.
  all: destruct c; simpl in *; try done.
Qed.

Lemma not_gtb_leb (t c : spec_float) :
  c <> S754_nan ->
  negb (SFltb c t) = IsNaN t || SFleb t c.
Proof.
  intros Hc. unfold SFltb, SFleb. rewrite (SFcompare_antisym t c).
  destruct (SFcompare t c) as [[]|] eqn:E; simpl; destruct t; simpl in *; try done.
  all: destruct c; simpl in *; try done.
Qed.

(** The two comparisons of [Validate] on a float field. *)
Lemma float_check (t lo hi : float32) :
  lo <> S754_nan -> hi <> S754_nan ->
  SFltb t lo || SFltb hi t = false <->
  (t = S754_nan \/ in_interval t lo hi).
Proof.
  intros Hlo Hhi. unfold in_interval.
  pose proof (not_ltb_leb t lo Hlo) as H1.
  pose proof (not_gtb_leb t hi Hhi) as H2.
  rewrite orb_false_iff.
  destruct (SFltb t lo), (SFltb hi t); simpl in *;
    destruct t; simpl in *; try (symmetry in H1); try (symmetry in H2);
    intuition (try discriminate; try congruence; auto).
Qed.

Lemma role_check (m : ChatMessage) :
  negb (String.eqb (Role m) RoleSystem) && negb (String.eqb (Role m) RoleUser)
    && negb (String.eqb (Role m) RoleAssistant) = false
  <-> role_in_range m.
Proof.
  unfold role_in_range.
  destruct (String.eqb_spec (Role m) RoleSystem),
           (String.eqb_spec (Role m) RoleUser),
           (String.eqb_spec (Role m) RoleAssistant); simpl; intuition congruence.
Qed.

Lemma content_check (m : ChatMessage) :
  String.eqb (Content m) EmptyString && negb (String.eqb (Role m) RoleSystem) = false
  <-> content_in_range m.
Proof.
  unfold content_in_range.
  destruct (String.eqb_spec (Content m) EmptyString),
           (String.eqb_spec (Role m) RoleSystem); simpl; intuition congruence.
Qed.

Lemma validate_messages_ok (ms : list ChatMessage) (i : nat) :
  validate_messages i ms = None
  <-> Forall (fun m => role_in_range m /\ content_in_range m) ms.
Proof.
  revert i. induction ms as [|m ms IH]; intros i; simpl.
  - split; [constructor | reflexivity].
  - pose proof (role_check m) as Hr. pose proof (content_check m) as Hc.
    destruct (negb (String.eqb (Role m) RoleSystem) && negb (String.eqb (Role m) RoleUser)
              && negb (String.eqb (Role m) RoleAssistant)).
    + split; [discriminate|]. intros HF. inversion HF; subst.
      destruct Hr as [_ Hr]. by specialize (Hr (proj1 H1)).
    + destruct (String.eqb (Content m) EmptyString && negb (String.eqb (Role m) RoleSystem)).
      * split; [discriminate|]. intros HF. inversion HF; subst.
        destruct Hc as [_ Hc]. by specialize (Hc (proj2 H1)).
      * rewrite IH. split.
        -- intros HF. constructor; [split; [by apply Hr | by apply Hc] | done].
        -- intros HF. by inversion HF.
Qed.

Lemma len_zero {A} (s : slice A) : (len s =? 0) = true <-> elems s = [].
Proof.
  unfold len. rewrite Z.eqb_eq. destruct (elems s); simpl; split; try done; lia.
Qed.

(** C8 (amended). [Validate] returns nil exactly when: the model string
    as given is non-empty (it is not trimmed), there is at least one
    message, every role is system, user or assistant, every content is
    non-empty unless the role is system, and temperature and top_p are
    each NaN or within [0,2] and [0,1]. [max_tokens] is not examined. *)
Theorem Validate_accepts_iff (r : ChatRequest) :
  Validate r = None <-> fields_accepted r.
Proof.
  unfold Validate, fields_accepted.
  destruct (String.eqb_spec (Model r) EmptyString) as [Hm|Hm].
  { split; [discriminate | tauto]. }
  pose proof (len_zero (Messages r)) as Hlen.
  destruct (len (Messages r) =? 0).
  { split; [discriminate|]. intros (_ & Hne & _). destruct Hlen as [Hlen _]. by specialize (Hlen eq_refl). }
  assert (Hne : elems (Messages r) <> []).
  { intros E. destruct Hlen as [_ Hlen]. by specialize (Hlen E). }
  pose proof (validate_messages_ok (elems (Messages r)) 0) as Hms.
  destruct (validate_messages 0 (elems (Messages r))) as [e|].
  { split; [discriminate|]. intros (_ & _ & HF & _).
    destruct Hms as [_ Hms]. by specialize (Hms HF). }
  assert (HF : Forall (fun m => role_in_range m /\ content_in_range m) (elems (Messages r))).
  { by apply Hms. }
  pose proof (float_check (Temperature r) f32_zero f32_two ltac:(done) ltac:(done)) as Ht.
  pose proof (float_check (TopP r) f32_zero f32_one ltac:(done) ltac:(done)) as Hp.
  destruct (SFltb (Temperature r) f32_zero || SFltb f32_two (Temperature r)).
  { split; [discriminate|]. intros (_ & _ & _ & Ht' & _).
    destruct Ht as [_ Ht]. by specialize (Ht Ht'). }
  destruct (SFltb (TopP r) f32_zero || SFltb f32_one (TopP r)).
  { split; [discriminate|]. intros (_ & _ & _ & _ & Hp').
    destruct Hp as [_ Hp]. by specialize (Hp Hp'). }
  split; [|done]. intros _. repeat split; try done; [by apply Ht | by apply Hp].
Qed.

(** C8, as stated, fails: a model that is blank after trimming and a
    negative [max_tokens] are both accepted. *)
Lemma Validate_accepts_out_of_range :
  (Validate Samples.blank_model_request = None
   /\ ~ fields_in_range Samples.blank_model_request)
  /\ (Validate Samples.negative_max_tokens_request = None
      /\ ~ fields_in_range Samples.negative_max_tokens_request).
Proof.
  split; split; try reflexivity.
  - intros (Hm & _). apply Hm. reflexivity.
  - intros (_ & _ & _ & _ & _ & Hn). simpl in Hn. lia.
Qed.

End ValidateFacts.

(** ** The cache key *)

Section KeyFacts.
Import Go Llm Cache.

Lemma split_on_length (sep : ascii) (s cur : string) :
  length (split_on sep cur s) = S (count_char sep s).
Proof.
  revert cur. induction s as [|c s IH]; intros cur; simpl; [reflexivity|].
  destruct (Ascii.eqb c sep); simpl; by rewrite IH.
Qed.

Lemma Split_length (s : string) (sep : ascii) :
  length (Split s sep) = S (count_char sep s).
Proof. apply split_on_length. Qed.

Lemma count_char_app (c : ascii) (s t : string) :
  count_char c (s ++ t) = (count_char c s + count_char c t)%nat.
Proof. induction s as [|d s IH]; simpl; [reflexivity|]. rewrite IH. lia. Qed.

Lemma string_length_app (s t : string) :
  String.length (s ++ t) = (String.length s + String.length t)%nat.
Proof. induction s as [|d s IH]; simpl; [reflexivity|]. by rewrite IH. Qed.

Lemma forallb_app (p : ascii -> bool) (s t : string) :
  string_forallb p (s ++ t) = string_forallb p s && string_forallb p t.
Proof. induction s as [|d s IH]; simpl; [reflexivity|]. by rewrite IH, andb_assoc. Qed.

(** A string of hexadecimal digits holds no colon. *)
Lemma hex_no_colon (s : string) :
  string_forallb is_lower_hex s = true -> count_char ":" s = 0%nat.
Proof.
  induction s as [|c s IH]; simpl; [reflexivity|].
  intros Hc. apply andb_true_iff in Hc as [Hc Hs]. rewrite (IH Hs).
  destruct (Ascii.eqb_spec c ":") as [->|_]; [discriminate Hc | reflexivity].
Qed.

Lemma hex_digit_lower (d : Z) : 0 <= d < 16 -> is_lower_hex (hex_digit d) = true.
Proof.
  intros Hd.
  assert (Hcases : d = 0 \/ d = 1 \/ d = 2 \/ d = 3 \/ d = 4 \/ d = 5 \/ d = 6 \/ d = 7
                   \/ d = 8 \/ d = 9 \/ d = 10 \/ d = 11 \/ d = 12 \/ d = 13
                   \/ d = 14 \/ d = 15) by lia.
  repeat (destruct Hcases as [-> | Hcases]; [reflexivity|]). by subst.
Qed.

Lemma hex_encode_length (bs : list Z) :
  String.length (hex_encode bs) = (2 * length bs)%nat.
Proof. induction bs as [|b bs IH]; simpl; [reflexivity|]. rewrite IH. lia. Qed.

Lemma hex_encode_lower (bs : list Z) :
  Forall (fun b => 0 <= b < 256) bs ->
  string_forallb is_lower_hex (hex_encode bs) = true.
Proof.
  induction 1 as [|b bs Hb _ IH]; simpl; [reflexivity|].
  rewrite IH, !hex_digit_lower; [reflexivity| |].
  - apply Z.mod_pos_bound. lia.
  - split; [apply Z.div_pos; lia | apply Z.div_lt_upper_bound; lia].
Qed.

Lemma be_bytes_range (n : nat) (x : Z) : Forall (fun b => 0 <= b < 256) (Sha256.be_bytes n x).
Proof.
  unfold Sha256.be_bytes. apply Forall_forall. intros b Hb.
  apply list_elem_of_In, in_map_iff in Hb as (i & <- & _).
  apply Z.mod_pos_bound. lia.
Qed.

Lemma be_bytes_length (n : nat) (x : Z) : length (Sha256.be_bytes n x) = n.
Proof. unfold Sha256.be_bytes. by rewrite length_map, length_rev, length_seq. Qed.

(** [Sum256] returns 32 bytes. *)
Lemma Sum256_length (msg : list Z) : length (Sha256.Sum256 msg) = 32%nat.
Proof.
  unfold Sha256.Sum256.
  destruct (fold_left _ _ _) as [[[[[[[a b] c] d] e] f] g] h].
  unfold Sha256.digest_bytes. rewrite !length_app, !be_bytes_length. reflexivity.
Qed.

Lemma Sum256_range (msg : list Z) : Forall (fun b => 0 <= b < 256) (Sha256.Sum256 msg).
Proof.
  unfold Sha256.Sum256.
  destruct (fold_left _ _ _) as [[[[[[[a b] c] d] e] f] g] h].
  unfold Sha256.digest_bytes. repeat apply Forall_app_2; apply be_bytes_range.
Qed.

Context `{JSONLib}.

(** C7 (amended). Whenever the key is built (that is, whenever the
    request marshals), its string form is [exact:], the trimmed user id,
    the trimmed model, the trimmed version id and the hash, joined by
    colons; the hash is the lower-case hexadecimal SHA-256 of ["model:"],
    the trimmed model, ["|body:"] and the JSON of the request, and has
    exactly 64 characters, all in [0-9a-f]; and splitting the string on
    [':'] yields five fields plus one for every colon that occurs in the
    trimmed user id, model or version id. *)
Theorem cache_key_string_form (req : ChatRequest) (userID versionID : string)
    (k : ExactCacheKey) :
  BuildExactCacheKeyFromChatRequest req userID versionID = Ok k ->
  String_ k = "exact:" ++ TrimSpace userID ++ ":" ++ TrimSpace (Model req) ++ ":"
                ++ TrimSpace versionID ++ ":" ++ Hash k
  /\ (exists body,
        marshal_ChatRequest req = Ok body
        /\ Hash k = hex_encode (Sha256.Sum256 (Sha256.bytes_of_string
                      ("model:" ++ TrimSpace (Model req) ++ "|body:" ++ body))))
  /\ String.length (Hash k) = 64%nat
  /\ string_forallb is_lower_hex (Hash k) = true
  /\ length (Split (String_ k) ":")
     = (5 + count_char ":" (TrimSpace userID) + count_char ":" (TrimSpace (Model req))
        + count_char ":" (TrimSpace versionID))%nat.
Proof.
  unfold BuildExactCacheKeyFromChatRequest.
  destruct (marshal_ChatRequest req) as [body|e] eqn:Hbody; [|discriminate].
  intros [= <-]. unfold String_. cbn [UserID ModelID VersionID Hash].
  set (h := hex_encode (Sha256.Sum256 (Sha256.bytes_of_string
              (normalized (TrimSpace (Model req)) body)))).
  assert (Hlen : String.length h = 64%nat).
  { unfold h. by rewrite hex_encode_length, Sum256_length. }
  assert (Hhex : string_forallb is_lower_hex h = true).
  { apply hex_encode_lower, Sum256_range. }
  split; [reflexivity|]. split; [by exists body|].
  split; [exact Hlen|]. split; [exact Hhex|].
  rewrite Split_length, !count_char_app.
  rewrite (hex_no_colon _ Hhex). simpl. lia.
Qed.

End KeyFacts.

Section KeyScenarios.
Import Samples.

(** Scenario 1 of the specification: the key of the [hi] request of user
    [user-42] under version [vtest]. *)
Lemma cache_key_string_form_witness :
  exists k,
    Cache.BuildExactCacheKeyFromChatRequest Samples.hi_request "user-42" "vtest" = Go.Ok k
    /\ Cache.String_ k
       = "exact:user-42:gpt-4:vtest:47622aa807bc7604c31e8b0a7da3c45adb5ecf0a332289cd5d82f4f28ec11a35"
    /\ String.length (Cache.Hash k) = 64%nat
    /\ length (Go.Split (Cache.String_ k) ":") = 5%nat.
Proof.
  assert (Hb : Cache.BuildExactCacheKeyFromChatRequest Samples.hi_request "user-42" "vtest"
               = Go.Ok {| Cache.UserID := "user-42"; Cache.ModelID := "gpt-4";
                          Cache.VersionID := "vtest";
                          Cache.Hash := "47622aa807bc7604c31e8b0a7da3c45adb5ecf0a332289cd5d82f4f28ec11a35" |})
    by (vm_compute; reflexivity).
  eexists. split; [exact Hb|].
  destruct (cache_key_string_form _ _ _ _ Hb) as (Hs & _ & Hl & _ & Hn).
  split; [reflexivity|]. split; [exact Hl|].
  rewrite Hn. reflexivity.
Defined.

(** C7, as stated, fails: a user id with a colon gives six fields (and
    so does a fine-tuned model name such as [ft:gpt-4]). *)
Lemma cache_key_six_fields :
  exists k,
    Cache.BuildExactCacheKeyFromChatRequest Samples.hi_request "team:alice" "v1" = Go.Ok k
    /\ Go.Split (Cache.String_ k) ":"
       = ["exact"; "team"; "alice"; "gpt-4"; "v1";
          "47622aa807bc7604c31e8b0a7da3c45adb5ecf0a332289cd5d82f4f28ec11a35"]
    /\ length (Go.Split (Cache.String_ k) ":") <> 5%nat.
Proof.
  exists {| Cache.UserID := "team:alice"; Cache.ModelID := "gpt-4"; Cache.VersionID := "v1";
            Cache.Hash := "47622aa807bc7604c31e8b0a7da3c45adb5ecf0a332289cd5d82f4f28ec11a35" |}.
  split; [vm_compute; reflexivity|].
  split; [vm_compute; reflexivity | vm_compute; discriminate].
Qed.

End KeyScenarios.

(** ** Zero values and [omitempty] *)

Section OmitemptyFacts.
Import Go Llm Cache Client Spec.
Context `{JSONLib}.

(** A zero float (of either sign), the integer zero and [false] produce
    no member. *)
Lemma float_member_zero (key : string) : float_member key f32_zero = Ok [].
Proof. reflexivity. Qed.

Lemma has_member_request_members (key : string) (model : string)
    (msgs : slice ChatMessage) (temp topp : float32) (maxTokens : Z)
    (stop : slice string) (stream : bool) :
  has_member key (request_members model msgs temp topp maxTokens stop stream)
  = match request_members model msgs temp topp maxTokens stop stream with
    | Err _ => false
    | Ok _ =>
        String.eqb key "model" || String.eqb key "messages"
        || (String.eqb key "temperature" && negb (float_is_empty temp))
        || (String.eqb key "top_p" && negb (float_is_empty topp))
        || (String.eqb key "max_tokens" && negb (maxTokens =? 0))
        || (String.eqb key "stop" && negb (len stop =? 0))
        || (String.eqb key "stream" && stream)
    end.
Proof.
  unfold request_members, float_member, int_member, strings_member, bool_member.
  destruct (float_is_empty temp); [|destruct (IsNaN temp || IsInf temp); [reflexivity|]];
  (destruct (float_is_empty topp); [|destruct (IsNaN topp || IsInf topp); [reflexivity|]]);
  destruct (maxTokens =? 0), (len stop =? 0), stream; simpl;
  destruct (String.eqb key "model"), (String.eqb key "messages"),
    (String.eqb key "temperature"), (String.eqb key "top_p"),
    (String.eqb key "max_tokens"), (String.eqb key "stop"),
    (String.eqb key "stream"); reflexivity.
Qed.

(** C9. A body that says [temperature: 0] decodes to the same request
    as a body without the member, and likewise for [top_p: 0],
    [max_tokens: 0] and [stream: false]; so the body sent upstream (for
    either operation) and the cache key (hence the hashed bytes) are the
    same for both, and the objects marshalled for the provider and for the
    hash carry no [temperature], [top_p] or [max_tokens] member, and the
    unary provider body no [stream] member: the zero is never sent. *)
Theorem omitempty_drops_zero (j : InboundFields) (userID versionID : string)
    (stream : bool) :
  let sent := fun j => request_body "request" (from_fields j) stream in
  let key := fun j => BuildExactCacheKeyFromChatRequest (from_fields j) userID versionID in
  let upstream := fun j => providerChatRequest_members (provider_request (from_fields j) stream) in
  let hashed := fun j => ChatRequest_members (from_fields j) in
  (sent (set_temperature (Some f32_zero) j) = sent (set_temperature None j)
   /\ key (set_temperature (Some f32_zero) j) = key (set_temperature None j)
   /\ has_member "temperature" (upstream (set_temperature (Some f32_zero) j)) = false
   /\ has_member "temperature" (hashed (set_temperature (Some f32_zero) j)) = false)
  /\ (sent (set_top_p (Some f32_zero) j) = sent (set_top_p None j)
      /\ key (set_top_p (Some f32_zero) j) = key (set_top_p None j)
      /\ has_member "top_p" (upstream (set_top_p (Some f32_zero) j)) = false
      /\ has_member "top_p" (hashed (set_top_p (Some f32_zero) j)) = false)
  /\ (sent (set_max_tokens (Some 0) j) = sent (set_max_tokens None j)
      /\ key (set_max_tokens (Some 0) j) = key (set_max_tokens None j)
      /\ has_member "max_tokens" (upstream (set_max_tokens (Some 0) j)) = false
      /\ has_member "max_tokens" (hashed (set_max_tokens (Some 0) j)) = false)
  /\ (sent (set_stream (Some false) j) = sent (set_stream None j)
      /\ key (set_stream (Some false) j) = key (set_stream None j)
      /\ has_member "stream"
           (providerChatRequest_members
              (provider_request (from_fields (set_stream (Some false) j)) false)) = false
      /\ has_member "stream" (hashed (set_stream (Some false) j)) = false).
Proof.
  intros sent key upstream hashed.
  unfold sent, key, upstream, hashed, providerChatRequest_members, ChatRequest_members,
    provider_request, from_fields.
  repeat split; try reflexivity;
    rewrite has_member_request_members; simpl;
    match goal with
    | |- match ?m with _ => _ end = false => destruct m; reflexivity
    end.
Qed.

End OmitemptyFacts.

(** ** The retry engine *)

Section RetryFacts.
Import Go Retry Spec.
Context `{FloatConv} `{HTTPTime}.

Lemma attempts_app (xs ys : list event) :
  attempts (xs ++ ys) = (attempts xs + attempts ys)%nat.
Proof. unfold attempts. by rewrite List.filter_app, length_app. Qed.

Lemma attempts_cons_wait_backoff d (xs : list event) :
  attempts (EvWaitBackoff d :: xs) = attempts xs.
Proof. reflexivity. Qed.

Lemma attempts_cons_wait_retry_after d (xs : list event) :
  attempts (EvWaitRetryAfter d :: xs) = attempts xs.
Proof. reflexivity. Qed.

(** One iteration on a retryable response while attempts remain and the
    context stays open: the body is closed, then the engine waits — for
    the [Retry-After] delay when it is positive, for the computed backoff
    when it is zero — and goes on with the next attempt. *)
Lemma retry_step_response (fuel : nat) (base maxAttempts : Z)
    (env : nat -> attemptEnv) (i : nat) (lastErr : option string) (resp : Response) :
  ctx_err (env i) = None ->
  cancelled_in_wait (env i) = None ->
  outcome (env i) = DoResp resp ->
  shouldRetryStatus (StatusCode resp) = true ->
  Z.of_nat i < maxAttempts - 1 ->
  let attempt := Z.of_nat i in
  let wait := parseRetryAfter (Some resp) (clock (env i)) in
  let next := retry_loop fuel base maxAttempts env (S i)
                (Some ("upstream status " ++ Itoa (StatusCode resp))) in
  retry_loop (S fuel) base maxAttempts env i lastErr
  = (fst next,
     ([EvAttempt attempt; EvBodyClose attempt (Body resp);
       if wait >? 0 then EvWaitRetryAfter wait
       else EvWaitBackoff (computeBackoff base attempt (jitter (env i)))]
      ++ snd next)%list).
Proof.
  intros Hctx Hwait Hout Hretry Hlt attempt wait next.
  cbn [retry_loop]. rewrite Hctx, Hout, Hretry, Hwait. cbn [negb].
  fold attempt. fold wait.
  assert (Hlt' : (attempt <? maxAttempts - 1) = true) by (apply Z.ltb_lt; exact Hlt).
  assert (Hne : (attempt =? maxAttempts - 1) = false) by (apply Z.eqb_neq; unfold attempt; lia).
  rewrite Hlt', Hne, andb_true_r.
  fold next. destruct next as [res rest]. destruct (wait >? 0); reflexivity.
Qed.

(** The same for a transient network error: there is no body and the wait
    is the computed backoff. *)
Lemma retry_step_transient (fuel : nat) (base maxAttempts : Z)
    (env : nat -> attemptEnv) (i : nat) (lastErr : option string) (e : NetError) :
  ctx_err (env i) = None ->
  cancelled_in_wait (env i) = None ->
  outcome (env i) = DoErr e ->
  is_context_err e = false ->
  isTransientNetError e = true ->
  Z.of_nat i < maxAttempts - 1 ->
  let attempt := Z.of_nat i in
  let next := retry_loop fuel base maxAttempts env (S i) (Some (text e)) in
  retry_loop (S fuel) base maxAttempts env i lastErr
  = (fst next,
     ([EvAttempt attempt; EvWaitBackoff (computeBackoff base attempt (jitter (env i)))]
      ++ snd next)%list).
Proof.
  intros Hctx Hwait Hout Hc Ht Hlt attempt next.
  cbn [retry_loop]. rewrite Hctx, Hout, Hc, Ht, Hwait. cbn [negb].
  fold attempt.
  assert (Hne : (attempt =? maxAttempts - 1) = false) by (apply Z.eqb_neq; unfold attempt; lia).
  rewrite Hne. fold next. destruct next as [res rest]. reflexivity.
Qed.

(** On the last attempt a retryable failure ends the loop. *)
Lemma retry_step_last (fuel : nat) (base maxAttempts : Z)
    (env : nat -> attemptEnv) (i : nat) (lastErr : option string) :
  ctx_err (env i) = None ->
  retryable_outcome (outcome (env i)) ->
  Z.of_nat i = maxAttempts - 1 ->
  attempts (snd (retry_loop (S fuel) base maxAttempts env i lastErr)) = 1%nat.
Proof.
  intros Hctx Hout Heq. cbn [retry_loop]. rewrite Hctx.
  assert (Hlast : (Z.of_nat i =? maxAttempts - 1) = true) by (apply Z.eqb_eq; exact Heq).
  assert (Hnlt : (Z.of_nat i <? maxAttempts - 1) = false) by (apply Z.ltb_ge; lia).
  destruct (outcome (env i)) as [e|resp]; simpl in Hout.
  - destruct Hout as [Hc Ht]. rewrite Hc, Ht. cbn [negb]. rewrite Hlast. reflexivity.
  - rewrite Hout. cbn [negb]. rewrite Hnlt, andb_false_r, Hlast. reflexivity.
Qed.

(** Against failures that stay retryable the loop uses every iteration
    it has. *)
Lemma retry_loop_attempts (fuel : nat) (base maxAttempts : Z)
    (env : nat -> attemptEnv) (i : nat) (lastErr : option string) :
  persistently_retryable env ->
  Z.of_nat i + Z.of_nat fuel = maxAttempts ->
  attempts (snd (retry_loop fuel base maxAttempts env i lastErr)) = fuel.
Proof.
  intros Henv. revert i lastErr.
  induction fuel as [|fuel IH]; intros i lastErr Hsum; [reflexivity|].
  destruct (Henv i) as (Hctx & Hwait & Hout).
  destruct fuel as [|fuel'].
  { apply retry_step_last; [done | done | lia]. }
  assert (Hlt : Z.of_nat i < maxAttempts - 1) by lia.
  destruct (outcome (env i)) as [e|resp] eqn:Ho; simpl in Hout.
  - destruct Hout as [Hc Ht].
    rewrite (retry_step_transient _ _ _ _ _ _ e Hctx Hwait Ho Hc Ht Hlt).
    cbn [snd]. rewrite attempts_app, IH by lia. reflexivity.
  - rewrite (retry_step_response _ _ _ _ _ _ resp Hctx Hwait Ho Hout Hlt).
    cbn [snd]. rewrite attempts_app, IH by lia.
    destruct (parseRetryAfter _ _ >? 0); reflexivity.
Qed.

Lemma maxAttempts_of_pos (n : Z) : 1 <= maxAttempts_of n.
Proof. unfold maxAttempts_of. destruct (wrap64 (n + 1) <? 1) eqn:E; [lia|]. apply Z.ltb_ge in E. lia. Qed.

Lemma maxAttempts_of_small (n : Z) :
  minInt64 <= n < maxInt64 -> maxAttempts_of n = Z.max 1 (n + 1).
Proof.
  unfold maxAttempts_of, wrap64, minInt64, maxInt64. intros Hn.
  rewrite Z.mod_small by lia.
  destruct (n + 1 + 2 ^ 63 - 2 ^ 63 <? 1) eqn:E.
  - apply Z.ltb_lt in E. lia.
  - apply Z.ltb_ge in E. lia.
Qed.

Lemma doWithRetry_attempts (cfg : Config.Config) (env : nat -> attemptEnv) :
  persistently_retryable env ->
  Z.of_nat (attempts (snd (doWithRetry cfg env))) = maxAttempts_of (Config.MaxRetries cfg).
Proof.
  intros Henv. unfold doWithRetry.
  pose proof (maxAttempts_of_pos (Config.MaxRetries cfg)) as Hpos.
  rewrite retry_loop_attempts; [lia | done | lia].
Qed.

(** The retry budget below the largest [int]. For every [Config] with
    [MaxRetries <= 0], [WithDefaults] sets [MaxRetries] to 2 and the
    client [NewClient] returns makes exactly three attempts against
    failures that stay retryable; for every [MaxRetries] below the
    largest [int] the client makes [MaxRetries + 1 >= 2] attempts, as the
    comment of [doWithRetry] says. *)
Theorem NewClient_retry_budget (cfg cfg' : Config.Config) (env : nat -> attemptEnv) :
  in_int64 (Config.MaxRetries cfg) ->
  Config.NewClient cfg = Ok cfg' ->
  persistently_retryable env ->
  let n := Z.of_nat (attempts (snd (doWithRetry cfg' env))) in
  (Config.MaxRetries cfg <= 0 ->
   Config.MaxRetries (Config.WithDefaults cfg) = 2 /\ n = 3)
  /\ (Config.MaxRetries cfg < maxInt64 ->
      2 <= n /\ n = Config.MaxRetries cfg' + 1).
Proof.
  intros Hint Hnew Henv n. unfold n. clear n.
  rewrite (doWithRetry_attempts _ _ Henv).
  unfold Config.NewClient in Hnew.
  destruct (Config.Validate (Config.WithDefaults cfg)); [discriminate|].
  injection Hnew as <-.
  unfold in_int64, minInt64, maxInt64 in *. cbn [Config.MaxRetries Config.WithDefaults].
  split.
  - intros Hle. assert (E : (Config.MaxRetries cfg <=? 0) = true) by (apply Z.leb_le; lia).
    rewrite E. split; [reflexivity|]. reflexivity.
  - intros Hlt. destruct (Config.MaxRetries cfg <=? 0) eqn:E.
    + split; [|reflexivity]. vm_compute. discriminate.
    + apply Z.leb_gt in E.
      rewrite maxAttempts_of_small by (unfold minInt64, maxInt64; lia). lia.
Qed.

Lemma gtb_false_iff (x y : Z) : (x >? y) = false <-> x <= y.
Proof. rewrite Z.gtb_ltb. apply Z.ltb_ge. Qed.

Lemma gtb_true_iff (x y : Z) : (x >? y) = true <-> y < x.
Proof. rewrite Z.gtb_ltb. apply Z.ltb_lt. Qed.

(** The branch of [parseRetryAfter] for an HTTP date. *)
Lemma retry_after_by_date (resp : Response) (now n : Z) :
  RetryAfter resp <> EmptyString ->
  (Atoi (TrimSpace (RetryAfter resp)) = None
   \/ (Atoi (TrimSpace (RetryAfter resp)) = Some n /\ n <= 0)) ->
  parseRetryAfter (Some resp) now
  = match ParseTime (RetryAfter resp) with
    | Some t => if t - now >? 0 then Z.min (t - now) (5 * Minute) else 0
    | None => 0
    end.
Proof.
  intros Hne Hint. unfold parseRetryAfter.
  destruct (String.eqb_spec (RetryAfter resp) EmptyString) as [E|_]; [done|].
  assert (Hdate :
    match ParseTime (RetryAfter resp) with
    | Some t =>
        let duration := Sub t now in
        if duration >? 0 then
          (if duration >? 5 * Minute then 5 * Minute else duration)
        else 0
    | None => 0
    end
    = match ParseTime (RetryAfter resp) with
      | Some t => if t - now >? 0 then Z.min (t - now) (5 * Minute) else 0
      | None => 0
      end).
  { destruct (ParseTime (RetryAfter resp)) as [t|]; [|reflexivity]. cbv zeta.
    unfold Sub, minInt64, maxInt64, Minute, Second.
    destruct (t - now >? 0) eqn:E1.
    - apply gtb_true_iff in E1.
      assert (E2 : (Z.max (- 2 ^ 63) (Z.min (2 ^ 63 - 1) (t - now)) >? 0) = true)
        by (apply gtb_true_iff; lia).
      rewrite E2.
      destruct (Z.max (- 2 ^ 63) (Z.min (2 ^ 63 - 1) (t - now)) >? 5 * (60 * 1000000000)) eqn:E3.
      + apply gtb_true_iff in E3. lia.
      + apply gtb_false_iff in E3. lia.
    - apply gtb_false_iff in E1.
      assert (E2 : (Z.max (- 2 ^ 63) (Z.min (2 ^ 63 - 1) (t - now)) >? 0) = false)
        by (apply gtb_false_iff; lia).
      by rewrite E2. }
  destruct Hint as [-> | [-> Hn]]; [exact Hdate|].
  assert (E : (n >? 0) = false) by (apply gtb_false_iff; lia).
  rewrite E. exact Hdate.
Qed.

(** X30. For a retryable response whose [Retry-After] header is not
    empty: when the trimmed value is an integer [n > 0] that
    [strconv.Atoi] accepts (an [int]), the wait is
    [min(n, 300)] seconds; when it is not an integer but an HTTP date in
    the future, the wait is the time until that date, at most 5 minutes;
    when it is an integer [<= 0] (which is no HTTP date), a date that is
    not in the future, or parses as neither, the wait is 0. With a wait of
    0 and attempts left, the engine sleeps for the computed backoff; with
    a positive wait it sleeps for exactly that wait. *)
Theorem retry_after_wait (fuel : nat) (base maxAttempts : Z)
    (env : nat -> attemptEnv) (i : nat) (lastErr : option string) (resp : Response) :
  ctx_err (env i) = None ->
  cancelled_in_wait (env i) = None ->
  outcome (env i) = DoResp resp ->
  shouldRetryStatus (StatusCode resp) = true ->
  Z.of_nat i < maxAttempts - 1 ->
  RetryAfter resp <> EmptyString ->
  let h := RetryAfter resp in
  let now := clock (env i) in
  let wait := parseRetryAfter (Some resp) now in
  let attempt := Z.of_nat i in
  let next := retry_loop fuel base maxAttempts env (S i)
                (Some ("upstream status " ++ Itoa (StatusCode resp))) in
  (forall n, Atoi (TrimSpace h) = Some n -> 0 < n -> wait = Z.min n 300 * Second)
  /\ (forall t, Atoi (TrimSpace h) = None -> ParseTime h = Some t -> now < t ->
       wait = Z.min (t - now) (5 * Minute))
  /\ (forall n, Atoi (TrimSpace h) = Some n -> n <= 0 -> ParseTime h = None -> wait = 0)
  /\ (forall t, Atoi (TrimSpace h) = None -> ParseTime h = Some t -> t <= now -> wait = 0)
  /\ (Atoi (TrimSpace h) = None -> ParseTime h = None -> wait = 0)
  /\ (wait = 0 ->
      retry_loop (S fuel) base maxAttempts env i lastErr
      = (fst next,
         ([EvAttempt attempt; EvBodyClose attempt (Body resp);
           EvWaitBackoff (computeBackoff base attempt (jitter (env i)))] ++ snd next)%list))
  /\ (0 < wait ->
      retry_loop (S fuel) base maxAttempts env i lastErr
      = (fst next,
         ([EvAttempt attempt; EvBodyClose attempt (Body resp); EvWaitRetryAfter wait]
          ++ snd next)%list)).
Proof.
  intros Hctx Hcw Hout Hretry Hlt Hne h now wait attempt next.
  repeat split.
  - intros n Hn Hpos. unfold wait, parseRetryAfter. fold h.
    destruct (String.eqb_spec h EmptyString) as [E|_]; [done|].
    rewrite Hn.
    assert (E : (n >? 0) = true) by (apply gtb_true_iff; lia). rewrite E.
    cbv zeta. destruct (n >? 5 * 60) eqn:E2.
    + apply gtb_true_iff in E2. rewrite Z.min_r by lia. reflexivity.
    + apply gtb_false_iff in E2. rewrite Z.min_l by lia. reflexivity.
  - intros t Hn Ht Hfut. unfold wait.
    rewrite (retry_after_by_date resp now 0 Hne (or_introl Hn)). fold h. rewrite Ht.
    assert (E : (t - now >? 0) = true) by (apply gtb_true_iff; lia). by rewrite E.
  - intros n Hn Hle Ht. unfold wait.
    rewrite (retry_after_by_date resp now n Hne (or_intror (conj Hn Hle))). fold h.
    by rewrite Ht.
  - intros t Hn Ht Hpast. unfold wait.
    rewrite (retry_after_by_date resp now 0 Hne (or_introl Hn)). fold h. rewrite Ht.
    assert (E : (t - now >? 0) = false) by (apply gtb_false_iff; lia). by rewrite E.
  - intros Hn Ht. unfold wait.
    rewrite (retry_after_by_date resp now 0 Hne (or_introl Hn)). fold h. by rewrite Ht.
  - intros Hw.
    rewrite (retry_step_response fuel base maxAttempts env i lastErr resp
               Hctx Hcw Hout Hretry Hlt).
    fold now. fold wait. rewrite Hw. reflexivity.
  - intros Hw.
    rewrite (retry_step_response fuel base maxAttempts env i lastErr resp
               Hctx Hcw Hout Hretry Hlt).
    fold now. fold wait.
    assert (E : (wait >? 0) = true) by (apply gtb_true_iff; lia). by rewrite E.
Qed.

(** Every body the engine closes is closed with all of its bytes unread:
    the loop has no read of [resp.Body]. *)
Lemma closed_bodies_are_unread (fuel : nat) (base maxAttempts : Z)
    (env : nat -> attemptEnv) (i : nat) (lastErr : option string)
    (a : Z) (unread : string) :
  In (EvBodyClose a unread) (snd (retry_loop fuel base maxAttempts env i lastErr)) ->
  exists j resp, a = Z.of_nat j /\ outcome (env j) = DoResp resp /\ unread = Body resp.
Proof.
  revert i lastErr. induction fuel as [|fuel IH]; intros i lastErr; [intros []|].
  cbn [retry_loop].
  destruct (ctx_err (env i)); [intros []|].
  destruct (outcome (env i)) as [e|resp] eqn:Ho;
    repeat match goal with
    | |- context [if ?b then _ else _] => destruct b
    | |- context [match cancelled_in_wait ?x with _ => _ end] =>
        destruct (cancelled_in_wait x)
    | |- context [retry_loop fuel ?b ?m ?e ?j ?l] =>
        let Hn := fresh "Hn" in
        destruct (retry_loop fuel b m e j l) as [res rest] eqn:Hn
    end;
    cbn [snd]; intros Hin; rewrite ?in_app_iff in Hin; simpl in Hin;
    repeat match type of Hin with _ \/ _ => destruct Hin as [Hin|Hin] end;
    try discriminate; try contradiction;
    first [ injection Hin as <- <-; exists i, resp; auto
          | eapply IH; rewrite Hn; exact Hin ].
Qed.

End RetryFacts.

(** ** Scenarios of the retry engine *)

Section RetryScenarios.
Import Go Retry Spec Samples.
Local Existing Instance amd64.

Lemma script_persistently_retryable :
  persistently_retryable (script [] overloaded).
Proof. intros i. unfold script. destruct i; repeat split. Qed.

Ltac retry_after_at now header :=
  pose proof (retry_after_wait 2 (100 * Millisecond) 3 (limited_once now header) 0 None
                (response 429 header "slow down")
                eq_refl eq_refl eq_refl eq_refl ltac:(vm_compute; reflexivity)
                ltac:(discriminate)).

(** Scenario 5 and the boundary cases of [Retry-After]: 120 seconds,
    600 seconds (capped), a date ten minutes ahead (capped) and thirty
    seconds ahead, zero, a negative value, a date in the past, and text
    that is neither; and the sleeps the engine takes for [1] and for [0]. *)
Lemma retry_after_wait_witness :
  let wait := fun now h => parseRetryAfter (Some (response 429 h "slow down")) now in
  wait 0 "120" = 120 * Second
  /\ wait 0 "600" = 300 * Second
  /\ wait 0 "Thu, 01 Jan 1970 00:10:00 GMT" = 5 * Minute
  /\ wait 0 "Thu, 01 Jan 1970 00:00:30 GMT" = 30 * Second
  /\ wait 0 "0" = 0
  /\ wait 0 "-5" = 0
  /\ wait (700 * Second) "Thu, 01 Jan 1970 00:10:00 GMT" = 0
  /\ wait 0 "soon" = 0
  /\ snd (retry_loop 3 (100 * Millisecond) 3 (limited_once 0 "1") 0 None)
     = [EvAttempt 0; EvBodyClose 0 "slow down"; EvWaitRetryAfter Second; EvAttempt 1]
  /\ snd (retry_loop 3 (100 * Millisecond) 3 (limited_once 0 "0") 0 None)
     = [EvAttempt 0; EvBodyClose 0 "slow down"; EvWaitBackoff (50 * Millisecond); EvAttempt 1].
Proof.
  intros wait. unfold wait.
  split.
  { retry_after_at 0 "120". destruct H as (H & _). exact (H 120 eq_refl ltac:(lia)). }
  split.
  { retry_after_at 0 "600". destruct H as (H & _). exact (H 600 eq_refl ltac:(lia)). }
  split.
  { retry_after_at 0 "Thu, 01 Jan 1970 00:10:00 GMT". destruct H as (_ & H & _).
    exact (H (600 * Second) eq_refl eq_refl ltac:(vm_compute; reflexivity)). }
  split.
  { retry_after_at 0 "Thu, 01 Jan 1970 00:00:30 GMT". destruct H as (_ & H & _).
    exact (H (30 * Second) eq_refl eq_refl ltac:(vm_compute; reflexivity)). }
  split.
  { retry_after_at 0 "0". destruct H as (_ & _ & H & _).
    exact (H 0 eq_refl ltac:(lia) eq_refl). }
  split.
  { retry_after_at 0 "-5". destruct H as (_ & _ & H & _).
    exact (H (-5) eq_refl ltac:(lia) eq_refl). }
  split.
  { retry_after_at (700 * Second) "Thu, 01 Jan 1970 00:10:00 GMT".
    destruct H as (_ & _ & _ & H & _).
    exact (H (600 * Second) eq_refl eq_refl ltac:(vm_compute; discriminate)). }
  split.
  { retry_after_at 0 "soon". destruct H as (_ & _ & _ & _ & H & _).
    exact (H eq_refl eq_refl). }
  split.
  { retry_after_at 0 "1". destruct H as (_ & _ & _ & _ & _ & _ & H).
    rewrite (H ltac:(vm_compute; reflexivity)). vm_compute. reflexivity. }
  retry_after_at 0 "0". destruct H as (_ & _ & _ & _ & _ & H & _).
  rewrite (H ltac:(vm_compute; reflexivity)). vm_compute. reflexivity.
Defined.

(** C4. The code breaks the claim for a [Retry-After] of
    9223372036854775808 seconds, one more than the largest [int]:
    [strconv.Atoi] reports a range error, the value is no HTTP date, and
    [parseRetryAfter] returns 0 where the claim (and the cap in the code)
    gives five minutes; the engine then sleeps for the computed backoff,
    50 ms, and calls the provider again. *)
Lemma retry_after_beyond_int_range :
  let h := "9223372036854775808" in
  let wait := parseRetryAfter (Some (response 429 h "slow down")) 0 in
  Atoi (TrimSpace h) = None
  /\ wait = 0
  /\ wait <> Z.min 9223372036854775808 300 * Second
  /\ snd (retry_loop 3 (100 * Millisecond) 3 (limited_once 0 h) 0 None)
     = [EvAttempt 0; EvBodyClose 0 "slow down"; EvWaitBackoff (50 * Millisecond); EvAttempt 1].
Proof. vm_compute. repeat split; try reflexivity. discriminate. Qed.

(** The gateway's own configuration: three attempts. *)
Lemma NewClient_retry_budget_witness :
  Config.MaxRetries (Config.WithDefaults gateway_config) = 2
  /\ Z.of_nat (attempts (snd (doWithRetry (Config.WithDefaults gateway_config)
                                         (script [] overloaded)))) = 3.
Proof.
  apply (NewClient_retry_budget gateway_config (Config.WithDefaults gateway_config)
           (script [] overloaded)).
  - vm_compute. split; discriminate.
  - reflexivity.
  - exact script_persistently_retryable.
  - simpl. lia.
Defined.


(** C6 fails on the code: a 503 whose body is ["overloaded"], then a
    200. The engine closes the body of the 503 with all ten bytes unread
    (it never reads it), sleeps and makes the second attempt. *)
Theorem retry_closes_body_without_draining :
  doWithRetry (Config.WithDefaults gateway_config) (script [overloaded] ok_response)
  = (Ok (response 200 EmptyString "{}"),
     [EvAttempt 0; EvBodyClose 0 "overloaded"; EvWaitBackoff (50 * Millisecond);
      EvAttempt 1]).
Proof. vm_compute. reflexivity. Qed.

(** C5 fails on the code (amd64): with a base of [2^53] nanoseconds and
    attempt 10 the product is [2^63], its conversion to [Duration]
    overflows, the cap is skipped and the wait is negative. With the
    default base the waits are as documented. *)
Theorem computeBackoff_overflow :
  computeBackoff (2 ^ 53) 10 f64_half = - 2 ^ 62
  /\ computeBackoff (2 ^ 53) 10 f64_half < 0
  /\ map (fun a => computeBackoff 0 a f64_half) [0; 1; 2; 3; 10; 11]
     = map (fun ms => ms * Millisecond) [50; 100; 200; 400; 30000; 30000].
Proof. vm_compute. repeat split; reflexivity. Qed.

End RetryScenarios.

(** ** The stream decoder *)

Section StreamFacts.
Import Go Llm Client Spec.
Context `{JSONLib}.

(** With the context open, the inner loop sends exactly the choices that
    carry content or a finish reason, in order. *)
Lemma emit_choices_open (choices : list providerStreamChoice) :
  emit_choices Never choices = (emitted choices, Some Never).
Proof.
  unfold emitted. induction choices as [|choice rest IH]; [reflexivity|].
  cbn [emit_choices List.filter]. unfold emits at 1.
  destruct (String.eqb (scDeltaContent choice) EmptyString);
    destruct (String.eqb (scFinishReason choice) EmptyString); cbn [negb orb andb tick];
    rewrite IH; reflexivity.
Qed.


(** C3. With the context open, the decoder, on the lines read after a
    2xx response: skips a line that (trimmed) does not start with
    ["data: "]; ends the sequence without a result on a ["[DONE]"] payload
    and on EOF; for a payload that parses, sends one [StreamChunk] with the
    index, content and finish reason of each choice that has content or a
    finish reason, skips the other choices, and reads on; and on a read
    error other than EOF sends exactly one error result and ends. *)
Theorem sse_decoder_behaviour (line : string) (rest : list string)
    (read_err : option string) :
  let run := sse_loop Never in
  (CutPrefix (TrimSpace line) "data: " = None ->
   run (line :: rest) read_err = run rest read_err)
  /\ (forall tail, CutPrefix (TrimSpace line) "data: " = Some tail ->
      TrimSpace tail = "[DONE]" -> run (line :: rest) read_err = [])
  /\ run [] None = []
  /\ (forall tail choices, CutPrefix (TrimSpace line) "data: " = Some tail ->
      TrimSpace tail <> "[DONE]" ->
      unmarshal_stream_chunk (TrimSpace tail) = Ok choices ->
      run (line :: rest) read_err = (emitted choices ++ run rest read_err)%list)
  /\ (forall e, run [] (Some e) = [ResErr ("llmclient: read stream line: " ++ e)]).
Proof.
  intros run. unfold run. repeat split.
  - intros Hcut. cbn [sse_loop tick]. rewrite Hcut.
    by destruct (String.length (TrimSpace line) =? 0)%nat.
  - intros tail Hcut Hdone. cbn [sse_loop tick]. rewrite Hcut, Hdone.
    destruct (String.length (TrimSpace line) =? 0)%nat eqn:E; [|reflexivity].
    apply Nat.eqb_eq in E. destruct (TrimSpace line); [discriminate Hcut | discriminate E].
  - intros tail choices Hcut Hdone Hparse. cbn [sse_loop tick]. rewrite Hcut, Hparse.
    destruct (String.length (TrimSpace line) =? 0)%nat eqn:E.
    { apply Nat.eqb_eq in E. destruct (TrimSpace line); [discriminate Hcut | discriminate E]. }
    destruct (String.eqb_spec (TrimSpace tail) "[DONE]") as [E'|_]; [done|].
    by rewrite emit_choices_open.
Qed.

End StreamFacts.

Section StreamScenarios.
Import Go Llm Client Spec Samples.

(** Scenario 2 of the specification, preceded by a comment line and a
    role-only chunk: two chunks come out, then the sequence ends. *)
Lemma sse_decoder_behaviour_witness :
  decode_stream Never hello_stream None = [chunk "hel" EmptyString; chunk "lo" "stop"]
  /\ sse_loop Never [": keep-alive" ++ Handlers.newline; "data: [DONE]" ++ Handlers.newline] None
     = sse_loop Never ["data: [DONE]" ++ Handlers.newline] None
  /\ sse_loop Never ["data: [DONE]" ++ Handlers.newline; "data: x"] (Some "reset") = []
  /\ sse_loop Never [] (Some "connection reset")
     = [ResErr "llmclient: read stream line: connection reset"].
Proof.
  split; [vm_compute; reflexivity|].
  split.
  - pose proof (sse_decoder_behaviour (": keep-alive" ++ Handlers.newline)
                  ["data: [DONE]" ++ Handlers.newline] None) as (Hskip & _).
    apply Hskip. vm_compute. reflexivity.
  - split.
    + pose proof (sse_decoder_behaviour ("data: [DONE]" ++ Handlers.newline)
                    ["data: x"] (Some "reset")) as (_ & Hdone & _).
      apply (Hdone "[DONE]"); vm_compute; reflexivity.
    + pose proof (sse_decoder_behaviour EmptyString [] None) as (_ & _ & _ & _ & Herr).
      apply Herr.
Defined.

End StreamScenarios.

(** ** The chat handler *)

Section HandlerFacts.
Import Go Llm Cache Client Handlers.
Context `{JSONLib} `{Retry.FloatConv} `{Retry.HTTPTime} {S : Type} `{ExactCache S}.

(** The upstream client turns an invalid request away before the retry
    engine runs: nothing goes on the wire. *)
Lemma client_rejects_invalid (cfg : Config.Config) (env : nat -> Retry.attemptEnv)
    (req : ChatRequest) :
  Validate req <> None ->
  exists msg, Client.ChatCompletion cfg env (Some req) = (Err msg, []).
Proof.
  intros Hinv. unfold Client.ChatCompletion, preflight.
  destruct (Validate req) as [e|]; [|done]. eexists. reflexivity.
Qed.

(** C1 (amended). For a non-streaming request that decodes but that
    [Validate] refuses, the handler does not answer 400. It builds the
    cache key and, when that succeeds, looks the key up in the cache
    first. When the lookup does not hit (or no key could be built) it
    calls the upstream client, which refuses the request before anything
    is sent to the provider, and the handler answers 502 with
    [{"error":"upstream_error"}]; nothing is written to the cache. *)
Theorem invalid_request_not_rejected_by_handler (h : ChatHandler)
    (cfg : Config.Config) (env : nat -> Retry.attemptEnv) (cx c : ctx)
    (read_err : option string) (can_flush : bool) (st : S)
    (body userHeader : string) (req : ChatRequest) :
  LLM h = real_client cfg env cx read_err ->
  decode_chat_request body = Ok req ->
  Stream req = false ->
  Validate req <> None ->
  let out := Handlers.ChatCompletion h c can_flush st body userHeader in
  let userID := if String.eqb userHeader EmptyString then "anon" else userHeader in
  let versionID :=
    if String.eqb (HandlerVersionID h) EmptyString then "v1" else HandlerVersionID h in
  let built := BuildExactCacheKeyFromChatRequest req userID versionID in
  Status (fst (fst out)) <> StatusBadRequest
  /\ (forall key, built = Ok key ->
      exists more, snd (fst out) = CallCacheGet (String_ key) :: more)
  /\ (forall key, built = Ok key ->
      hit (fst (cache_Get st (String_ key))) = false ->
      out = (writeErrorJSON StatusBadGateway "upstream_error",
             [CallCacheGet (String_ key); CallChatCompletion req []],
             snd (cache_Get st (String_ key))))
  /\ (forall e, built = Err e ->
      out = (writeErrorJSON StatusBadGateway "upstream_error",
             [CallChatCompletion req []], st)).
Proof.
  intros HLLM Hdec Hstream Hinv out userID versionID built.
  destruct (client_rejects_invalid cfg env req Hinv) as [msg Hmsg].
  assert (Hup : forall st' key before,
             call_upstream h st' req key before
             = (writeErrorJSON StatusBadGateway "upstream_error",
                (before ++ [CallChatCompletion req []])%list, st')).
  { intros st' key before. unfold call_upstream. rewrite HLLM. cbn [llm_ChatCompletion real_client].
    by rewrite Hmsg. }
  unfold out, Handlers.ChatCompletion. rewrite Hdec, Hstream.
  fold userID. fold versionID. fold built.
  destruct built as [key|e].
  - destruct (cache_Get st (String_ key)) as [res st1] eqn:Hget. cbn [fst snd].
    destruct (hit res) eqn:Hhit.
    + destruct (unmarshal_chat_response (got res)) as [cached|e'].
      * cbn [fst snd]. repeat split; try done.
        -- intros key' [= <-]. by eexists.
        -- intros key' [= <-]. rewrite Hget. cbn [fst]. by rewrite Hhit.
      * rewrite Hup. cbn [fst snd]. repeat split; try done.
        -- intros key' [= <-]. by eexists.
        -- intros key' [= <-]. rewrite Hget. cbn [fst]. by rewrite Hhit.
    + rewrite Hup. cbn [fst snd]. repeat split; try done.
      * intros key' [= <-]. by eexists.
      * intros key' [= <-]. rewrite Hget. cbn [fst snd]. reflexivity.
  - rewrite Hup. cbn [fst snd]. repeat split; try done.
Qed.

End HandlerFacts.

Section HandlerScenarios.
Import Go Llm Cache Client Handlers Samples.
Local Existing Instance Retry.amd64.
Local Existing Instance memory_backend.

(** Scenario 3 of the specification on the code: the request without a
    model, an empty in-process cache, the gateway's handler. The cache is
    consulted under the key of the empty model, the upstream client is
    called and refuses, and the reply is 502 [upstream_error]; C1, as
    stated, fails. *)
Lemma no_model_request_gets_502 :
  let h := gateway_handler (script [] ok_response) in
  let out := Handlers.ChatCompletion (H0 := memory_backend 0) h Never true ∅ no_model_body EmptyString in
  decode_chat_request no_model_body = Ok no_model_request
  /\ Validate no_model_request = Some ErrModelRequired
  /\ fst (fst out) = writeErrorJSON StatusBadGateway "upstream_error"
  /\ Status (fst (fst out)) <> StatusBadRequest
  /\ snd (fst out)
     = [CallCacheGet
          "exact:anon::v1:eab4826d8f801cc662d2168c561c7501b91888424f7d49f332cea79749d273cf";
        CallChatCompletion no_model_request []].
Proof. vm_compute. repeat split; try reflexivity. discriminate. Qed.

(** The same request through the amended statement. *)
Lemma invalid_request_not_rejected_by_handler_witness :
  let h := gateway_handler (script [] ok_response) in
  let key := {| UserID := "anon"; ModelID := EmptyString; VersionID := "v1";
                Hash := "eab4826d8f801cc662d2168c561c7501b91888424f7d49f332cea79749d273cf" |} in
  Handlers.ChatCompletion (H0 := memory_backend 0) h Never true ∅ no_model_body EmptyString
  = (writeErrorJSON StatusBadGateway "upstream_error",
     [CallCacheGet (String_ key); CallChatCompletion no_model_request []],
     snd (cache_Get (ExactCache := memory_backend 0) ∅ (String_ key))).
Proof.
  intros h key.
  pose proof (invalid_request_not_rejected_by_handler (H2 := memory_backend 0) h
                (Config.WithDefaults gateway_config) (script [] ok_response)
                Never Never None true ∅ no_model_body EmptyString no_model_request
                eq_refl eq_refl eq_refl ltac:(discriminate)) as (_ & _ & Hmiss & _).
  refine (Hmiss key _ _); vm_compute; reflexivity.
Defined.

End HandlerScenarios.

(** * Further properties of the code *)

(** ** More on the in-process cache *)

Section MemoryCacheMore.
Import MemoryCache.

Lemma run_op_absent (c : items) k o :
  c !! k = None -> foreign k o -> run_op c o !! k = None.
Proof.
  intros Hk Hf. destruct o as [now k'|now k' v ttl|now]; simpl in *.
  - destruct (decide (k' = k)) as [->|Hne].
    + by rewrite (Get_absent _ _ _ Hk).
    + by rewrite Get_other.
  - by rewrite Set_other.
  - by rewrite sweep_lookup, Hk.
Qed.

Lemma run_ops_absent (os : list op) (c : items) k :
  c !! k = None -> Forall (foreign k) os -> run_ops c os !! k = None.
Proof.
  revert c. induction os as [|o os IH]; intros c Hk Hf; simpl; [done|].
  inversion Hf; subst. apply IH; [|done]. by apply run_op_absent.
Qed.

(** X1. Nothing but a [Set] of the key changes what a later [Get] of it
    returns: reads, writes of other keys and sweeps that happen no later
    than the [Get] are invisible to it. *)
Theorem get_unaffected_by_foreign_ops (c : items) (k : string) (os : list op) (t : Z) :
  Forall (foreign k) os ->
  Forall (fun o => op_time o <= t) os ->
  fst (Get (run_ops c os) t k) = fst (Get c t k).
Proof.
  intros Hf Ht. destruct (c !! k) as [e|] eqn:Hk.
  - destruct (Z_le_gt_dec t (expiresAt e)) as [Hle|Hgt].
    + assert (Hlive : run_ops c os !! k = Some e).
      { apply run_ops_live; try done.
        eapply Forall_impl; [exact Ht|]. simpl. intros o Ho. lia. }
      by rewrite (Get_live _ _ _ _ Hlive Hle), (Get_live _ _ _ _ Hk Hle).
    + rewrite (Get_expired _ _ _ _ Hk) by lia.
      destruct (run_ops_same_or_gone os c k e (or_introl Hk) Hf) as [Hk'|Hk'].
      * rewrite (Get_expired _ _ _ _ Hk') by lia. reflexivity.
      * by rewrite (Get_absent _ _ _ Hk').
  - by rewrite (Get_absent _ _ _ (run_ops_absent os c k Hk Hf)), (Get_absent _ _ _ Hk).
Qed.

Lemma get_unaffected_by_foreign_ops_witness :
  let v := list_byte_of_string "a" in
  let c := Set_ (Set_ (∅ : items) 0 "k" v 50) 0 "old" v 5 in
  let os := [OpSweep 10; OpGet 10 "old"; OpSet 11 "other" v 100; OpGet 12 "k"] in
  fst (Get (run_ops c os) 20 "k") = fst (Get c 20 "k").
Proof.
  intros v c os.
  apply get_unaffected_by_foreign_ops.
  - repeat constructor; discriminate.
  - repeat constructor; simpl; lia.
Defined.

(** X2. [Get] serves a value exactly when the key is stored and not yet
    expired, and then returns the stored bytes and leaves the map as it
    is; it never serves an entry past its expiry. *)
Theorem get_hits_only_live_entries (c : items) (now : Z) (k : string) (v : list Byte.byte) :
  fst (Get c now k) = (Some v, true)
  <-> exists e, c !! k = Some e /\ value e = v /\ now <= expiresAt e.
Proof.
  split.
  - unfold Get. destruct (c !! k) as [e|] eqn:Hk; [|discriminate].
    destruct (After now (expiresAt e)) eqn:HA; [discriminate|].
    simpl. intros [= <-]. exists e. repeat split. by apply After_false_iff.
  - intros (e & Hk & <- & Hle). by rewrite (Get_live _ _ _ _ Hk Hle).
Qed.

(** X3. A [Get] that finds an expired entry reports a miss and removes
    that entry and nothing else: the map shrinks by one. *)
Theorem get_reclaims_expired_entry (c : items) (now : Z) (k : string) (e : memoryEntry) :
  c !! k = Some e -> expiresAt e < now ->
  let '(res, c') := Get c now k in
  res = (None, false)
  /\ c' !! k = None
  /\ (forall k', k' <> k -> c' !! k' = c !! k')
  /\ S (Len c') = Len c.
Proof.
  intros Hk Hlt. rewrite (Get_expired _ _ _ _ Hk Hlt).
  split; [reflexivity|]. split; [apply lookup_delete_eq|].
  split; [intros k' Hne; by apply lookup_delete_ne|].
  unfold Len. rewrite map_size_delete, Hk.
  assert (size c <> 0%nat) by (intros E; apply map_size_empty_iff in E; by subst).
  lia.
Qed.

Lemma get_reclaims_expired_entry_witness :
  let c := Set_ (∅ : items) 0 "k" (list_byte_of_string "a") 50 in
  fst (Get c 60 "k") = (None, false) /\ Len (snd (Get c 60 "k")) = 0%nat.
Proof.
  intros c.
  pose proof (get_reclaims_expired_entry c 60 "k" {| value := list_byte_of_string "a"; expiresAt := 50 |}
                ltac:(vm_compute; reflexivity) ltac:(simpl; lia)) as H.
  destruct (Get c 60 "k") as [res c'] eqn:E. destruct H as (H1 & _ & _ & H4).
  split; [exact H1|]. simpl. assert (Len c = 1%nat) by (vm_compute; reflexivity). lia.
Defined.

(** X4. [Set] with [ttl <= 0] stores nothing and removes what was stored
    under the key: every later [Get] of the key misses, and the other keys
    are untouched. *)
Theorem set_nonpositive_ttl_deletes (c : items) (now : Z) (k : string)
    (v : list Byte.byte) (ttl : Z) :
  ttl <= 0 ->
  let c' := Set_ c now k v ttl in
  (forall t, Get c' t k = ((None, false), c'))
  /\ (forall k', k' <> k -> c' !! k' = c !! k')
  /\ (Len c' <= Len c)%nat.
Proof.
  intros Httl c'. unfold c', Set_.
  assert (E : (ttl <=? 0) = true) by (apply Z.leb_le; lia). rewrite E.
  split; [intros t; apply Get_absent, lookup_delete_eq|].
  split; [intros k' Hne; by apply lookup_delete_ne|].
  unfold Len. rewrite map_size_delete. destruct (c !! k); simpl; lia.
Qed.

Lemma set_nonpositive_ttl_deletes_witness :
  let v := list_byte_of_string "a" in
  let c := Set_ (∅ : items) 0 "k" v 50 in
  Get (Set_ c 1 "k" v 0) 2 "k" = ((None, false), Set_ c 1 "k" v 0).
Proof.
  intros v c.
  exact (proj1 (set_nonpositive_ttl_deletes c 1 "k" v 0 ltac:(lia)) 2).
Defined.

(** X5. A tick of the sweeper keeps exactly the entries that have not
    expired: afterwards no stored entry is past its expiry, no unexpired
    entry is lost, and the map has not grown. *)
Theorem sweep_keeps_exactly_the_live_entries (c : items) (now : Z) :
  (forall k e, sweep c now !! k = Some e <-> c !! k = Some e /\ now <= expiresAt e)
  /\ (Len (sweep c now) <= Len c)%nat.
Proof.
  split.
  - intros k e. rewrite sweep_lookup. destruct (c !! k) as [e'|]; [|split; [done | by intros []]].
    destruct (After now (expiresAt e')) eqn:HA.
    + apply After_true_iff in HA. split; [done|]. intros [[= ->] Hle]. lia.
    + apply After_false_iff in HA. split.
      * by intros [= ->].
      * by intros [[= ->] _].
  - unfold Len, sweep. apply map_size_filter.
Qed.

End MemoryCacheMore.

(** ** Keys: parsing back, and the Redis prefix *)

Section KeyParsing.
Import Go Cache ExactLogging.

Lemma append_cons (c : ascii) (s t : string) : String c s ++ t = String c (s ++ t).
Proof. reflexivity. Qed.

Lemma append_nil_r (s : string) : s ++ EmptyString = s.
Proof. induction s as [|c s IH]; [reflexivity|]. by rewrite append_cons, IH. Qed.

Lemma append_assoc (s t u : string) : (s ++ t) ++ u = s ++ (t ++ u).
Proof. induction s as [|c s IH]; [reflexivity|]. by rewrite !append_cons, IH. Qed.

Lemma string_of_list_ascii_app (l l' : list ascii) :
  string_of_list_ascii (l ++ l') = string_of_list_ascii l ++ string_of_list_ascii l'.
Proof.
  induction l as [|c l IH]; [reflexivity|].
  cbn [app string_of_list_ascii]. by rewrite append_cons, IH.
Qed.

Lemma rev_string_cons (c : ascii) (s : string) :
  rev_string (String c s) = rev_string s ++ String c EmptyString.
Proof. unfold rev_string. simpl. by rewrite string_of_list_ascii_app. Qed.

(** The accumulator of [split_on] is a prefix of the first field. *)
Lemma split_on_acc (sep : ascii) (s cur : string) :
  split_on sep cur s
  = match split_on sep EmptyString s with
    | x :: xs => (rev_string cur ++ x) :: xs
    | [] => []
    end.
Proof.
  revert cur. induction s as [|c s IH]; intros cur; simpl.
  - change (rev_string EmptyString) with EmptyString. by rewrite append_nil_r.
  - destruct (Ascii.eqb c sep).
    + change (rev_string EmptyString) with EmptyString. by rewrite append_nil_r.
    + rewrite (IH (String c cur)), (IH (String c EmptyString)).
      destruct (split_on sep EmptyString s) as [|x xs]; [reflexivity|].
      by rewrite rev_string_cons, append_assoc.
Qed.

Lemma Split_no_sep (sep : ascii) (a : string) :
  count_char sep a = 0%nat -> Split a sep = [a].
Proof.
  unfold Split. induction a as [|c a IH]; simpl; [reflexivity|].
  destruct (Ascii.eqb c sep); [discriminate|]. simpl. intros Ha.
  rewrite split_on_acc, (IH Ha). reflexivity.
Qed.

Lemma Split_first_field (sep : ascii) (a b : string) :
  count_char sep a = 0%nat ->
  Split (a ++ String sep b) sep = a :: Split b sep.
Proof.
  unfold Split. induction a as [|c a IH].
  - intros _. change (EmptyString ++ String sep b) with (String sep b).
    cbn [split_on]. by rewrite Ascii.eqb_refl.
  - rewrite append_cons. cbn [split_on count_char].
    destruct (Ascii.eqb c sep); [discriminate|]. simpl. intros Ha.
    rewrite split_on_acc, (IH Ha). reflexivity.
Qed.

Lemma String_colons (k : ExactCacheKey) :
  length (Split (String_ k) ":") = (5 + colons k)%nat.
Proof.
  unfold String_, colons. rewrite Split_length, !count_char_app. simpl. lia.
Qed.

Lemma parseExactKey_of_String (k : ExactCacheKey) :
  parseExactKey (String_ k)
  = if (colons k =? 0)%nat then Some (parts_of k) else None.
Proof.
  destruct (colons k =? 0)%nat eqn:E.
  - apply Nat.eqb_eq in E. unfold colons in E.
    assert (HU : count_char ":" (UserID k) = 0%nat) by lia.
    assert (HM : count_char ":" (ModelID k) = 0%nat) by lia.
    assert (HV : count_char ":" (VersionID k) = 0%nat) by lia.
    assert (HH : count_char ":" (Hash k) = 0%nat) by lia.
    unfold parseExactKey, String_.
    change ("exact:" ++ UserID k ++ ":" ++ ModelID k ++ ":" ++ VersionID k ++ ":" ++ Hash k)
      with ("exact" ++ String ":" (UserID k ++ String ":" (ModelID k ++ String ":"
              (VersionID k ++ String ":" (Hash k))))).
    rewrite (Split_first_field ":" "exact") by reflexivity.
    rewrite (Split_first_field ":" (UserID k)) by exact HU.
    rewrite (Split_first_field ":" (ModelID k)) by exact HM.
    rewrite (Split_first_field ":" (VersionID k)) by exact HV.
    rewrite (Split_no_sep ":" (Hash k)) by exact HH.
    reflexivity.
  - apply Nat.eqb_neq in E. unfold parseExactKey.
    pose proof (String_colons k) as Hlen.
    destruct (Split (String_ k) ":") as [|p0 [|p1 [|p2 [|p3 [|p4 [|p5 ps]]]]]];
      simpl in Hlen; try reflexivity. lia.
Qed.

(** X6. [parseExactKey] undoes [ExactCacheKey.String] exactly when no
    part of the key contains a colon; when one does, the string has more
    than five fields and the parse fails, so the logging decorator leaves
    the user, model and version out of its records. *)
Theorem parseExactKey_String (k : ExactCacheKey) :
  parseExactKey (String_ k)
  = if (colons k =? 0)%nat then Some (parts_of k) else None.
Proof. apply parseExactKey_of_String. Qed.

(** X7. Keys whose parts hold no colon have distinct string forms unless
    all four parts agree: the string under which a response is cached
    determines the user, the model, the version and the hash. *)
Theorem String_injective (k1 k2 : ExactCacheKey) :
  colons k1 = 0%nat -> colons k2 = 0%nat ->
  String_ k1 = String_ k2 -> k1 = k2.
Proof.
  intros H1 H2 Heq.
  pose proof (parseExactKey_of_String k1) as P1.
  pose proof (parseExactKey_of_String k2) as P2.
  rewrite H1 in P1. rewrite H2 in P2. rewrite Heq in P1. rewrite P1 in P2.
  simpl in P2. injection P2 as HU HM HV HH.
  destruct k1, k2; simpl in *; congruence.
Qed.

Lemma String_injective_witness :
  {| UserID := "user-42"; ModelID := "gpt-4"; VersionID := "vtest"; Hash := "ab" |}
  = {| UserID := TrimSpace " user-42"; ModelID := "gpt-4"; VersionID := "vtest"; Hash := "ab" |}.
Proof. apply String_injective; reflexivity. Defined.

Lemma append_cancel_l (p s t : string) : p ++ s = p ++ t -> s = t.
Proof.
  induction p as [|c p IH]; [done|]. rewrite !append_cons. intros [= H]. by apply IH.
Qed.

(** X8. Under one prefix, the Redis key is the logical key itself or
    the prefix, a colon and the logical key, and distinct logical keys
    never share a Redis key. *)
Theorem redis_key_injective (prefix k1 k2 : string) :
  Redis.key prefix k1 = Redis.key prefix k2 -> k1 = k2.
Proof.
  unfold Redis.key. destruct (String.eqb prefix EmptyString); [done|].
  intros H. apply append_cancel_l in H. by injection H.
Qed.

Lemma redis_key_injective_witness :
  "exact:a:m:v:h" = TrimSpace "exact:a:m:v:h ".
Proof. apply (redis_key_injective "prod"). reflexivity. Defined.

End KeyParsing.

(** ** Client configuration *)

Section ConfigFacts.
Import Go Config.

Lemma rev_string_involutive (s : string) : rev_string (rev_string s) = s.
Proof.
  unfold rev_string.
  by rewrite list_ascii_of_string_of_list_ascii, rev_involutive,
    string_of_list_ascii_of_string.
Qed.

Lemma rev_string_app (s t : string) :
  rev_string (s ++ t) = rev_string t ++ rev_string s.
Proof.
  induction s as [|c s IH].
  - change (rev_string EmptyString) with EmptyString. by rewrite append_nil_r.
  - rewrite append_cons, !rev_string_cons, IH. by rewrite append_assoc.
Qed.

Lemma drop_slashes_idempotent (r : string) : drop_slashes (drop_slashes r) = drop_slashes r.
Proof.
  induction r as [|c r IH]; [reflexivity|]. simpl.
  destruct (Ascii.eqb_spec c "/") as [->|Hne]; [exact IH|].
  destruct c as [[] [] [] [] [] [] [] []]; try reflexivity. by destruct Hne.
Qed.

Lemma drop_slashes_head (r x : string) : drop_slashes r <> String "/" x.
Proof.
  induction r as [|c r IH]; [discriminate|]. simpl.
  destruct (Ascii.eqb_spec c "/") as [->|Hne]; [exact IH|].
  destruct c as [[] [] [] [] [] [] [] []]; intros [= E]; congruence.
Qed.

Lemma TrimRightSlash_idempotent (s : string) :
  TrimRightSlash (TrimRightSlash s) = TrimRightSlash s.
Proof.
  unfold TrimRightSlash. by rewrite rev_string_involutive, drop_slashes_idempotent.
Qed.

Lemma TrimRightSlash_no_trailing_slash (s p : string) :
  TrimRightSlash s <> p ++ "/".
Proof.
  unfold TrimRightSlash. intros E.
  apply (f_equal rev_string) in E. rewrite rev_string_involutive, rev_string_app in E.
  by apply drop_slashes_head in E.
Qed.

(** X9. [WithDefaults] is idempotent; its result has a base URL without
    trailing slash and strictly positive timeout, retry count, backoff
    and pool sizes; and it keeps every numeric setting that was already
    positive. *)
Theorem WithDefaults_normalizes (c : Config) :
  let d := WithDefaults c in
  WithDefaults d = d
  /\ (forall p, BaseURL d <> p ++ "/")
  /\ 0 < UpstreamTimeout d /\ 0 < MaxRetries d /\ 0 < BaseBackoff d
  /\ 0 < MaxIdleConns d /\ 0 < MaxIdleConnsPerHost d
  /\ (0 < UpstreamTimeout c -> UpstreamTimeout d = UpstreamTimeout c)
  /\ (0 < MaxRetries c -> MaxRetries d = MaxRetries c)
  /\ (0 < BaseBackoff c -> BaseBackoff d = BaseBackoff c).
Proof.
  intros d. unfold d, WithDefaults. cbn [BaseURL APIKey UpstreamTimeout MaxRetries BaseBackoff
    MaxIdleConns MaxIdleConnsPerHost].
  rewrite TrimRightSlash_idempotent.
  unfold Second, Millisecond.
  destruct (Z.leb_spec (UpstreamTimeout c) 0), (Z.leb_spec (MaxRetries c) 0),
    (Z.leb_spec (BaseBackoff c) 0), (Z.leb_spec (MaxIdleConns c) 0),
    (Z.leb_spec (MaxIdleConnsPerHost c) 0);
    repeat match goal with
    | |- context [?x <=? 0] =>
        let E := fresh in
        destruct (Z.leb_spec x 0) as [E|E]; [try lia|]
    end;
    (split; [reflexivity|]);
    (split; [intros p; apply TrimRightSlash_no_trailing_slash|]);
    repeat split; intros; lia.
Qed.

(** X10. [NewClient] succeeds exactly when the base URL is not empty
    once its trailing slashes are removed and the API key is not empty;
    the client then holds the configuration with the defaults applied. A
    base URL made only of slashes is refused like a missing one. *)
Theorem NewClient_succeeds_iff (cfg cfg' : Config) :
  NewClient cfg = Ok cfg'
  <-> (TrimRightSlash (BaseURL cfg) <> EmptyString /\ APIKey cfg <> EmptyString
       /\ cfg' = WithDefaults cfg).
Proof.
  unfold NewClient, Validate. cbn [BaseURL APIKey WithDefaults].
  destruct (String.eqb_spec (TrimRightSlash (BaseURL cfg)) EmptyString) as [E|E].
  { split; [discriminate | tauto]. }
  destruct (String.eqb_spec (APIKey cfg) EmptyString) as [E'|E'].
  { split; [discriminate | tauto]. }
  split.
  - intros [= <-]. by repeat split.
  - intros (_ & _ & ->). reflexivity.
Qed.

End ConfigFacts.

(** ** More on the retry engine *)

Section RetryMore.
Import Go Retry Spec RetrySpec.
Context `{FloatConv} `{HTTPTime}.

(** Case analysis of one iteration of the loop. *)
Ltac retry_cases fuel :=
  cbn [retry_loop];
  repeat match goal with
  | |- context [match ctx_err ?x with _ => _ end] => destruct (ctx_err x) eqn:?
  | |- context [match outcome ?x with _ => _ end] => destruct (outcome x) eqn:?
  | |- context [if ?b then _ else _] => destruct b eqn:?
  | |- context [match cancelled_in_wait ?x with _ => _ end] =>
      destruct (cancelled_in_wait x) eqn:?
  | |- context [retry_loop fuel ?b ?m ?e ?j ?l] =>
      destruct (retry_loop fuel b m e j l) as [? ?] eqn:?
  end.

Ltac use_IH IH :=
  match goal with
  | Hn : retry_loop _ _ _ _ ?j ?l = (_, _) |- _ =>
      let IHr := fresh "IHr" in
      pose proof (IH j l) as IHr; rewrite Hn in IHr; cbn [snd fst] in IHr
  | _ => idtac
  end.

Lemma retry_loop_attempts_le (fuel : nat) (base maxAttempts : Z)
    (env : nat -> attemptEnv) (i : nat) (lastErr : option string) :
  (attempts (snd (retry_loop fuel base maxAttempts env i lastErr)) <= fuel)%nat.
Proof.
  revert i lastErr. induction fuel as [|fuel IH]; intros i lastErr;
    [unfold attempts; simpl; lia|].
  retry_cases fuel; use_IH IH; cbn [snd]; unfold attempts in *;
    rewrite ?List.filter_app, ?length_app; simpl; lia.
Qed.

(** X11. Whatever the upstream and the context do, the engine calls
    [do] at most [maxAttempts] times: at most [MaxRetries + 1] times for
    a retry count from 0 up to the largest [int] but one. *)
Theorem doWithRetry_attempts_bounded (cfg : Config.Config) (env : nat -> attemptEnv) :
  Z.of_nat (attempts (snd (doWithRetry cfg env))) <= maxAttempts_of (Config.MaxRetries cfg)
  /\ (0 <= Config.MaxRetries cfg < maxInt64 ->
      Z.of_nat (attempts (snd (doWithRetry cfg env))) <= Config.MaxRetries cfg + 1).
Proof.
  assert (Hle : Z.of_nat (attempts (snd (doWithRetry cfg env)))
                <= maxAttempts_of (Config.MaxRetries cfg)).
  { unfold doWithRetry.
    pose proof (retry_loop_attempts_le (Z.to_nat (maxAttempts_of (Config.MaxRetries cfg)))
                  (Config.BaseBackoff cfg) (maxAttempts_of (Config.MaxRetries cfg)) env 0 None).
    pose proof (maxAttempts_of_pos (Config.MaxRetries cfg)). lia. }
  split; [exact Hle|]. intros Hr.
  rewrite maxAttempts_of_small in Hle by (unfold minInt64, maxInt64 in *; lia). lia.
Qed.

Lemma retry_loop_first_final (n : nat) :
  forall (fuel : nat) (base maxAttempts : Z) (env : nat -> attemptEnv)
         (i : nat) (lastErr : option string),
  (forall j, (i <= j < i + n)%nat -> retryable_attempt (env j)) ->
  ctx_err (env (i + n)%nat) = None ->
  Z.of_nat (i + n) < maxAttempts ->
  (n < fuel)%nat ->
  (forall resp, final_response (outcome (env (i + n)%nat)) resp ->
     fst (retry_loop fuel base maxAttempts env i lastErr) = Ok resp)
  /\ (forall e, final_error (outcome (env (i + n)%nat)) e ->
     fst (retry_loop fuel base maxAttempts env i lastErr) = Err (text e))
  /\ ((exists resp, final_response (outcome (env (i + n)%nat)) resp)
      \/ (exists e, final_error (outcome (env (i + n)%nat)) e) ->
      attempts (snd (retry_loop fuel base maxAttempts env i lastErr)) = S n).
Proof.
  induction n as [|n IH]; intros fuel base maxAttempts env i lastErr Hretry Hctx Hlt Hfuel.
  - destruct fuel as [|fuel]; [lia|]. rewrite Nat.add_0_r in *.
    cbn [retry_loop]. rewrite Hctx.
    split; [|split].
    + intros resp [-> Hs]. by rewrite Hs.
    + intros e [-> [Hc|Ht]].
      * by rewrite Hc.
      * rewrite Ht. by destruct (is_context_err e).
    + intros [[resp [-> Hs]]|[e [-> [Hc|Ht]]]].
      * by rewrite Hs.
      * by rewrite Hc.
      * rewrite Ht. by destruct (is_context_err e).
  - destruct fuel as [|fuel]; [lia|].
    destruct (Hretry i ltac:(lia)) as (Hc & Hw & Ho).
    assert (Hlt' : Z.of_nat i < maxAttempts - 1) by lia.
    replace (i + S n)%nat with (S i + n)%nat in * by lia.
    assert (Hretry' : forall j, (S i <= j < S i + n)%nat -> retryable_attempt (env j)).
    { intros j Hj. apply Hretry. lia. }
    destruct (outcome (env i)) as [e|resp] eqn:Hout; simpl in Ho.
    + destruct Ho as [Hce Hte].
      rewrite (retry_step_transient fuel base maxAttempts env i lastErr e Hc Hw Hout Hce Hte Hlt').
      cbn [fst snd].
      destruct (IH fuel base maxAttempts env (S i) (Some (text e)) Hretry' Hctx Hlt
                  ltac:(lia)) as (IH1 & IH2 & IH3).
      split; [exact IH1|]. split; [exact IH2|].
      intros Hfin. rewrite attempts_app, (IH3 Hfin). reflexivity.
    + rewrite (retry_step_response fuel base maxAttempts env i lastErr resp Hc Hw Hout Ho Hlt').
      cbn [fst snd].
      destruct (IH fuel base maxAttempts env (S i)
                  (Some ("upstream status " ++ Itoa (StatusCode resp))) Hretry' Hctx Hlt
                  ltac:(lia)) as (IH1 & IH2 & IH3).
      split; [exact IH1|]. split; [exact IH2|].
      intros Hfin. rewrite attempts_app, (IH3 Hfin).
      destruct (parseRetryAfter _ _ >? 0); reflexivity.
Qed.

(** X12. When the first [n] attempts fail in a retryable way with the
    context open and attempt [n] (still within the budget) returns a
    response whose status is not retried, the engine returns that very
    response after exactly [n + 1] attempts; when attempt [n] fails with a
    context error or with a network error that is not transient, the
    engine returns that error, again after [n + 1] attempts, and does not
    retry. *)
Theorem doWithRetry_stops_at_first_final_outcome (cfg : Config.Config)
    (env : nat -> attemptEnv) (n : nat) :
  (forall j, (j < n)%nat -> retryable_attempt (env j)) ->
  ctx_err (env n) = None ->
  Z.of_nat n < maxAttempts_of (Config.MaxRetries cfg) ->
  (forall resp, final_response (outcome (env n)) resp ->
     fst (doWithRetry cfg env) = Ok resp
     /\ attempts (snd (doWithRetry cfg env)) = S n)
  /\ (forall e, final_error (outcome (env n)) e ->
     fst (doWithRetry cfg env) = Err (text e)
     /\ attempts (snd (doWithRetry cfg env)) = S n).
Proof.
  intros Hretry Hctx Hlt. unfold doWithRetry.
  destruct (retry_loop_first_final n (Z.to_nat (maxAttempts_of (Config.MaxRetries cfg)))
              (Config.BaseBackoff cfg) (maxAttempts_of (Config.MaxRetries cfg)) env 0 None
              ltac:(intros j Hj; apply Hretry; lia) Hctx ltac:(simpl; lia) ltac:(lia))
    as (H1 & H2 & H3).
  simpl in H1, H2, H3.
  split.
  - intros resp Hf. split; [by apply H1|]. apply H3. left. by exists resp.
  - intros e Hf. split; [by apply H2|]. apply H3. right. by exists e.
Qed.

(** X13. Whatever the header, the clock and the date parser, the wait
    taken from [Retry-After] is between zero and five minutes. *)
Theorem parseRetryAfter_range (resp : option Response) (now : Z) :
  0 <= parseRetryAfter resp now <= 5 * Minute.
Proof.
  unfold parseRetryAfter, Minute, Second.
  destruct resp as [resp|]; [|lia].
  destruct (String.eqb (RetryAfter resp) EmptyString); [lia|].
  assert (Hdate :
    0 <= match ParseTime (RetryAfter resp) with
         | Some t =>
             let duration := Sub t now in
             if duration >? 0
             then (let maxRetryAfter := 5 * (60 * 1000000000) in
                   if duration >? maxRetryAfter then maxRetryAfter else duration)
             else 0
         | None => 0
         end <= 5 * (60 * 1000000000)).
  { destruct (ParseTime (RetryAfter resp)) as [t|]; [|lia]. cbv zeta.
    destruct (Sub t now >? 0) eqn:E1; [|lia]. apply gtb_true_iff in E1.
    destruct (Sub t now >? 5 * (60 * 1000000000)) eqn:E2; [lia|].
    apply gtb_false_iff in E2. lia. }
  destruct (Atoi (TrimSpace (RetryAfter resp))) as [seconds|]; [|exact Hdate].
  destruct (seconds >? 0) eqn:E1; [|exact Hdate]. apply gtb_true_iff in E1.
  cbv zeta. destruct (seconds >? 5 * 60) eqn:E2; [lia|].
  apply gtb_false_iff in E2. lia.
Qed.

Lemma waits_app (xs ys : list event) : waits (xs ++ ys) = (waits xs + waits ys)%nat.
Proof. unfold waits. by rewrite List.filter_app, length_app. Qed.

Ltac arith_facts :=
  repeat match goal with
  | H : (_ =? _) = false |- _ => apply Z.eqb_neq in H
  | H : (_ =? _) = true |- _ => apply Z.eqb_eq in H
  | H : (_ <? _) = true |- _ => apply Z.ltb_lt in H
  | H : (_ <? _) = false |- _ => apply Z.ltb_ge in H
  | H : (_ && _) = true |- _ => apply andb_true_iff in H as [? ?]
  end.

Lemma retry_loop_waits_le (fuel : nat) (base maxAttempts : Z)
    (env : nat -> attemptEnv) (i : nat) (lastErr : option string) :
  (waits (snd (retry_loop fuel base maxAttempts env i lastErr))
   <= attempts (snd (retry_loop fuel base maxAttempts env i lastErr)))%nat.
Proof.
  revert i lastErr. induction fuel as [|fuel IH]; intros i lastErr;
    [unfold waits, attempts; simpl; lia|].
  retry_cases fuel; use_IH IH; cbn [snd]; unfold waits, attempts in *;
    rewrite ?List.filter_app, ?length_app; simpl; lia.
Qed.

Lemma retry_loop_waits_between (fuel : nat) (base maxAttempts : Z)
    (env : nat -> attemptEnv) (i : nat) (lastErr : option string) :
  (forall j, ctx_err (env j) = None) ->
  (forall j, cancelled_in_wait (env j) = None) ->
  Z.of_nat i + Z.of_nat fuel = maxAttempts ->
  fuel <> 0%nat ->
  S (waits (snd (retry_loop fuel base maxAttempts env i lastErr)))
  = attempts (snd (retry_loop fuel base maxAttempts env i lastErr)).
Proof.
  intros Hctx Hnc. revert i lastErr.
  induction fuel as [|fuel IH]; intros i lastErr Hsum Hne; [done|].
  cbn [retry_loop]. rewrite (Hctx i), (Hnc i).
  repeat match goal with
  | |- context [match outcome ?x with _ => _ end] => destruct (outcome x) eqn:?
  | |- context [if ?b then _ else _] => destruct b eqn:?
  | |- context [retry_loop fuel ?b ?m ?e ?j ?l] =>
      destruct (retry_loop fuel b m e j l) as [? ?] eqn:?
  end;
  arith_facts;
  try match goal with
  | Hn : retry_loop _ _ _ _ ?j ?l = (_, _) |- _ =>
      let IHr := fresh "IHr" in
      pose proof (IH j l ltac:(lia) ltac:(lia)) as IHr; rewrite Hn in IHr;
      cbn [snd fst] in IHr
  end;
  cbn [snd]; unfold waits, attempts in *;
  rewrite ?List.filter_app, ?length_app; simpl; lia.
Qed.

Lemma retry_loop_paced_prefix (fuel : nat) (base maxAttempts : Z)
    (env : nat -> attemptEnv) (i : nat) (lastErr : option string) :
  exists n more,
    paced i n = (paces (snd (retry_loop fuel base maxAttempts env i lastErr)) ++ more)%list.
Proof.
  revert i lastErr. induction fuel as [|fuel IH]; intros i lastErr.
  { exists 0%nat, (paced i 0). reflexivity. }
  retry_cases fuel; use_IH IH; cbn [snd];
    first
      [ destruct IHr as (n & more & Hn); exists (S n), more; cbn [paced]; rewrite Hn;
        reflexivity
      | exists 0%nat; eexists; reflexivity
      | exists 1%nat; eexists; reflexivity ].
Qed.

Lemma retry_loop_paced (fuel : nat) (base maxAttempts : Z)
    (env : nat -> attemptEnv) (i : nat) (lastErr : option string) :
  (forall j, ctx_err (env j) = None) ->
  (forall j, cancelled_in_wait (env j) = None) ->
  Z.of_nat i + Z.of_nat fuel = maxAttempts ->
  fuel <> 0%nat ->
  paces (snd (retry_loop fuel base maxAttempts env i lastErr))
  = paced i (waits (snd (retry_loop fuel base maxAttempts env i lastErr))).
Proof.
  intros Hctx Hnc. revert i lastErr.
  induction fuel as [|fuel IH]; intros i lastErr Hsum Hne; [done|].
  cbn [retry_loop]. rewrite (Hctx i), (Hnc i).
  repeat match goal with
  | |- context [match outcome ?x with _ => _ end] => destruct (outcome x) eqn:?
  | |- context [if ?b then _ else _] => destruct b eqn:?
  | |- context [retry_loop fuel ?b ?m ?e ?j ?l] =>
      destruct (retry_loop fuel b m e j l) as [? ?] eqn:?
  end;
  arith_facts;
  try match goal with
  | Hn : retry_loop _ _ _ _ ?j ?l = (_, _) |- _ =>
      let IHr := fresh "IHr" in
      pose proof (IH j l ltac:(lia) ltac:(lia)) as IHr; rewrite Hn in IHr;
      cbn [snd fst] in IHr
  end;
  cbn [snd];
  first
    [ reflexivity
    | match goal with
      | IHr : paces ?l = paced (S ?i) (waits ?l) |- _ =>
          change (Tried (Z.of_nat i) :: Slept :: paces l = paced i (S (waits l)));
          cbn [paced]; rewrite <- IHr; reflexivity
      end
    | exfalso; lia ].
Qed.

(** X14. The trace of the engine is paced. In every run the calls of
    [do] are numbered 0, 1, 2, ... in that order, exactly one sleep
    separates two consecutive calls and none precedes the first, so the
    engine never sleeps more often than it calls [do]. While the context
    stays open the trace also ends with a call: there is no sleep after
    the last attempt. *)
Theorem doWithRetry_waits_between_attempts (cfg : Config.Config)
    (env : nat -> attemptEnv) :
  let evs := snd (doWithRetry cfg env) in
  (exists n more, paced 0 n = (paces evs ++ more)%list)
  /\ (waits evs <= attempts evs)%nat
  /\ ((forall j, ctx_err (env j) = None /\ cancelled_in_wait (env j) = None) ->
      paces evs = paced 0 (waits evs) /\ S (waits evs) = attempts evs).
Proof.
  cbv zeta. unfold doWithRetry.
  split; [apply retry_loop_paced_prefix|]. split; [apply retry_loop_waits_le|].
  intros Hopen. pose proof (maxAttempts_of_pos (Config.MaxRetries cfg)).
  split; [apply retry_loop_paced | apply retry_loop_waits_between];
    try lia; intros j; by destruct (Hopen j).
Qed.

Lemma retry_loop_exhausted (fuel : nat) (base maxAttempts : Z)
    (env : nat -> attemptEnv) (i : nat) (lastErr : option string) :
  persistently_retryable env ->
  Z.of_nat i + Z.of_nat fuel = maxAttempts ->
  fuel <> 0%nat ->
  fst (retry_loop fuel base maxAttempts env i lastErr)
  = exhausted maxAttempts
      (Some (remembered_error (outcome (env (Z.to_nat (maxAttempts - 1)))))).
Proof.
  intros Henv. revert i lastErr.
  induction fuel as [|fuel IH]; intros i lastErr Hsum Hne; [done|].
  destruct (Henv i) as (Hctx & Hwait & Hout).
  destruct fuel as [|fuel'].
  - replace (Z.to_nat (maxAttempts - 1)) with i by lia.
    cbn [retry_loop]. rewrite Hctx.
    assert (Hlast : (Z.of_nat i =? maxAttempts - 1) = true) by (apply Z.eqb_eq; lia).
    assert (Hnlt : (Z.of_nat i <? maxAttempts - 1) = false) by (apply Z.ltb_ge; lia).
    destruct (outcome (env i)) as [e|resp]; simpl in Hout.
    + destruct Hout as [Hc Ht]. rewrite Hc, Ht. cbn [negb]. by rewrite Hlast.
    + rewrite Hout. cbn [negb]. by rewrite Hnlt, andb_false_r, Hlast.
  - assert (Hlt : Z.of_nat i < maxAttempts - 1) by lia.
    destruct (outcome (env i)) as [e|resp] eqn:Ho; simpl in Hout.
    + destruct Hout as [Hc Ht].
      rewrite (retry_step_transient _ _ _ _ _ _ e Hctx Hwait Ho Hc Ht Hlt).
      cbn [fst]. apply IH; lia.
    + rewrite (retry_step_response _ _ _ _ _ _ resp Hctx Hwait Ho Hout Hlt).
      cbn [fst]. apply IH; lia.
Qed.

(** X15. Against failures that stay retryable the engine gives up with
    the error ["llmclient: max retries (N) exceeded: "] followed by the
    error of the last attempt, [N] being the number of attempts made. *)
Theorem doWithRetry_exhaustion_error (cfg : Config.Config) (env : nat -> attemptEnv) :
  persistently_retryable env ->
  let n := maxAttempts_of (Config.MaxRetries cfg) in
  fst (doWithRetry cfg env)
  = Err ("llmclient: max retries (" ++ Itoa n ++ ") exceeded: "
         ++ remembered_error (outcome (env (Z.to_nat (n - 1)))))
  /\ Z.of_nat (attempts (snd (doWithRetry cfg env))) = n.
Proof.
  intros Henv n. split; [|by apply doWithRetry_attempts].
  unfold doWithRetry. fold n. pose proof (maxAttempts_of_pos (Config.MaxRetries cfg)).
  rewrite retry_loop_exhausted; [reflexivity | done | lia | lia].
Qed.

End RetryMore.

(** ** The range of the backoff delay *)

Section FloatFacts.
Import Go Retry RetrySpec.

Ltac hide_pows :=
  repeat match goal with
  | |- context [2 ^ ?e] =>
      let x := fresh "pw" in set (x := 2 ^ e) in *; clearbody x
  | H : context [2 ^ ?e] |- _ =>
      let x := fresh "pw" in set (x := 2 ^ e) in *; clearbody x
  end.

Lemma digits2_pos_bounds (m : positive) :
  2 ^ (dg m - 1) <= Zpos m < 2 ^ dg m.
Proof.
  unfold dg. induction m as [m IH|m IH|]; cbn [digits2_pos].
  - rewrite Pos2Z.inj_succ, Pos2Z.inj_xI.
    replace (Z.succ (Z.pos (digits2_pos m)) - 1) with (Z.succ (Z.pos (digits2_pos m) - 1)) by lia.
    rewrite !Z.pow_succ_r by lia. hide_pows. lia.
  - rewrite Pos2Z.inj_succ. change (Z.pos m~0) with (2 * Z.pos m).
    replace (Z.succ (Z.pos (digits2_pos m)) - 1) with (Z.succ (Z.pos (digits2_pos m) - 1)) by lia.
    rewrite !Z.pow_succ_r by lia. hide_pows. lia.
  - simpl. lia.
Qed.

Lemma dg_pos (m : positive) : 1 <= dg m.
Proof. unfold dg. lia. Qed.

Lemma dg_unique (m : positive) (d : Z) :
  2 ^ (d - 1) <= Zpos m < 2 ^ d -> dg m = d.
Proof.
  intros [Hlo Hhi]. pose proof (digits2_pos_bounds m) as [Hlo' Hhi']. pose proof (dg_pos m).
  assert (Hd : 1 <= d).
  { destruct (Z_lt_le_dec d 1) as [Hlt|]; [|lia].
    assert (2 ^ d <= 2 ^ 0) by (destruct (Z_lt_le_dec d 0); [rewrite Z.pow_neg_r by lia; simpl; lia | apply Z.pow_le_mono_r; lia]).
    simpl in *. lia. }
  destruct (Z.lt_trichotomy (dg m) d) as [Hlt|[Heq|Hgt]]; [|exact Heq|].
  - assert (2 ^ dg m <= 2 ^ (d - 1)) by (apply Z.pow_le_mono_r; lia). lia.
  - assert (2 ^ d <= 2 ^ (dg m - 1)) by (apply Z.pow_le_mono_r; lia). lia.
Qed.

Lemma shr_1_m (mrs : shr_record) :
  0 <= shr_m mrs -> shr_m (shr_1 mrs) = shr_m mrs / 2 /\ 0 <= shr_m (shr_1 mrs).
Proof.
  destruct mrs as [m r s]. cbn [shr_m]. intros Hm.
  destruct m as [|[p|p|]|p]; cbn [shr_1 shr_m]; try lia.
  - split; [reflexivity | lia].
  - split; [|lia]. apply Z.div_unique with (r := 1); lia.
  - split; [|lia]. apply Z.div_unique with (r := 0); lia.
  - split; [reflexivity | lia].
Qed.

Lemma iter_shr_1_m (p : positive) :
  forall mrs, 0 <= shr_m mrs ->
  shr_m (@SpecFloat.iter_pos shr_record shr_1 p mrs) = shr_m mrs / 2 ^ Zpos p
  /\ 0 <= shr_m (@SpecFloat.iter_pos shr_record shr_1 p mrs).
Proof.
  induction p as [p IH|p IH|]; intros mrs Hm; cbn [SpecFloat.iter_pos].
  - destruct (shr_1_m mrs Hm) as [E1 P1].
    destruct (IH _ P1) as [E2 P2]. destruct (IH _ P2) as [E3 P3].
    split; [|exact P3]. rewrite E3, E2, E1.
    assert (0 < 2 ^ Z.pos p) by (apply Z.pow_pos_nonneg; lia).
    rewrite !Z.div_div by lia. f_equal.
    replace (Z.pos p~1) with (Z.pos p + Z.pos p + 1) by lia.
    rewrite !Z.pow_add_r by lia. change (2 ^ 1) with 2. ring.
  - destruct (IH _ Hm) as [E2 P2]. destruct (IH _ P2) as [E3 P3].
    split; [|exact P3]. rewrite E3, E2.
    assert (0 < 2 ^ Z.pos p) by (apply Z.pow_pos_nonneg; lia).
    rewrite !Z.div_div by lia. f_equal.
    replace (Z.pos p~0) with (Z.pos p + Z.pos p) by lia.
    rewrite !Z.pow_add_r by lia. ring.
  - destruct (shr_1_m mrs Hm) as [E1 P1]. split; [|exact P1]. rewrite E1. reflexivity.
Qed.

Lemma divide_pow2_split (m a b : Z) :
  0 <= a -> 0 <= b -> (2 ^ (a + b) | m) -> (2 ^ a | m) /\ (2 ^ b | m / 2 ^ a).
Proof.
  intros Ha Hb [k Hk]. rewrite Z.pow_add_r in Hk by lia.
  assert (0 < 2 ^ a) by (apply Z.pow_pos_nonneg; lia).
  split.
  - exists (k * 2 ^ b). lia.
  - exists k. subst m. replace (k * (2 ^ a * 2 ^ b)) with (k * 2 ^ b * 2 ^ a) by ring.
    rewrite Z.div_mul by lia. reflexivity.
Qed.

Lemma shr_1_exact (m : Z) :
  0 <= m -> (2 | m) ->
  shr_1 {| shr_m := m; shr_r := false; shr_s := false |}
  = {| shr_m := m / 2; shr_r := false; shr_s := false |}.
Proof.
  intros Hm [k Hk].
  destruct m as [|[p|p|]|p]; cbn [shr_1 orb]; try lia; try reflexivity.
  change (Z.pos p~0) with (2 * Z.pos p). f_equal.
  apply Z.div_unique with (r := 0); lia.
Qed.

Lemma iter_shr_1_exact (p : positive) :
  forall m, 0 <= m -> (2 ^ Zpos p | m) ->
  @SpecFloat.iter_pos shr_record shr_1 p {| shr_m := m; shr_r := false; shr_s := false |}
  = {| shr_m := m / 2 ^ Zpos p; shr_r := false; shr_s := false |}.
Proof.
  induction p as [p IH|p IH|]; intros m Hm Hdiv; cbn [SpecFloat.iter_pos].
  - replace (Z.pos p~1) with (1 + (Z.pos p + Z.pos p)) in * by lia.
    assert (0 < 2 ^ Z.pos p) by (apply Z.pow_pos_nonneg; lia).
    destruct (divide_pow2_split m 1 (Z.pos p + Z.pos p) ltac:(lia) ltac:(lia) Hdiv) as [H1 H2].
    change (2 ^ 1) with 2 in *.
    destruct (divide_pow2_split (m / 2) (Z.pos p) (Z.pos p) ltac:(lia) ltac:(lia) H2) as [H3 H4].
    rewrite shr_1_exact by assumption.
    rewrite IH; [|apply Z.div_pos; lia|exact H3].
    rewrite IH; [|apply Z.div_pos; [apply Z.div_pos|]; lia|exact H4].
    f_equal. rewrite !Z.div_div by lia. f_equal.
    rewrite !Z.pow_add_r by lia. change (2 ^ 1) with 2. ring.
  - replace (Z.pos p~0) with (Z.pos p + Z.pos p) in * by lia.
    assert (0 < 2 ^ Z.pos p) by (apply Z.pow_pos_nonneg; lia).
    destruct (divide_pow2_split m (Z.pos p) (Z.pos p) ltac:(lia) ltac:(lia) Hdiv) as [H3 H4].
    rewrite IH; [|lia|exact H3].
    rewrite IH; [|apply Z.div_pos; lia|exact H4].
    f_equal. rewrite !Z.div_div by lia. f_equal.
    rewrite !Z.pow_add_r by lia. ring.
  - apply shr_1_exact; assumption.
Qed.

Lemma round_nearest_even_bounds (m : Z) (l : location) :
  m <= round_nearest_even m l <= m + 1.
Proof. destruct l as [|[]]; cbn [round_nearest_even]; try lia. destruct (Z.even m); lia. Qed.

(** The two shifts and the rounding in between that [binary_round_aux]
    performs on an exact positive mantissa. *)
Lemma binary_round_aux_shape (s : bool) (mx : positive) (ex : Z) :
  let n1 := Z.max 0 (fexp prec64 emax64 (dg mx + ex) - ex) in
  let m1 := Zpos mx / 2 ^ n1 in
  let e1 := ex + n1 in
  exists mr,
    m1 <= mr <= m1 + 1
    /\ ((2 ^ n1 | Zpos mx) -> mr = m1)
    /\ let n2 := Z.max 0 (fexp prec64 emax64 (Zdigits2 mr + e1) - e1) in
       let m2 := mr / 2 ^ n2 in
       let e2 := e1 + n2 in
       binary_round_aux prec64 emax64 s (Zpos mx) ex loc_Exact
       = match m2 with
         | Z0 => S754_zero s
         | Zpos m => if e2 <=? emax64 - prec64 then S754_finite s m e2 else S754_infinity s
         | Zneg _ => S754_nan
         end.
Proof.
  cbv zeta. unfold binary_round_aux.
  set (n := fexp prec64 emax64 (dg mx + ex) - ex).
  assert (Hfirst : exists mrs,
             shr_fexp prec64 emax64 (Zpos mx) ex loc_Exact = (mrs, ex + Z.max 0 n)
             /\ shr_m mrs = Zpos mx / 2 ^ Z.max 0 n
             /\ ((2 ^ Z.max 0 n | Zpos mx) ->
                 mrs = {| shr_m := Zpos mx / 2 ^ Z.max 0 n; shr_r := false; shr_s := false |})).
  { unfold shr_fexp. cbn [Zdigits2 shr_record_of_loc]. fold (dg mx). fold n.
    destruct n as [|p|p]; cbn [shr].
    - exists {| shr_m := Zpos mx; shr_r := false; shr_s := false |}.
      change (Z.max 0 0) with 0. rewrite Z.add_0_r. change (2 ^ 0) with 1. rewrite Z.div_1_r.
      repeat split; reflexivity.
    - eexists. replace (Z.max 0 (Z.pos p)) with (Z.pos p) by lia.
      split; [reflexivity|]. split.
      + apply (iter_shr_1_m p {| shr_m := Zpos mx; shr_r := false; shr_s := false |}).
        cbn [shr_m]. lia.
      + intros Hdiv. apply iter_shr_1_exact; [lia | exact Hdiv].
    - exists {| shr_m := Zpos mx; shr_r := false; shr_s := false |}.
      replace (Z.max 0 (Z.neg p)) with 0 by lia.
      rewrite Z.add_0_r. change (2 ^ 0) with 1. rewrite Z.div_1_r.
      repeat split; reflexivity. }
  destruct Hfirst as (mrs & -> & Hm & Hexact).
  set (mr := round_nearest_even (shr_m mrs) (loc_of_shr_record mrs)).
  exists mr. split; [rewrite <- Hm; apply round_nearest_even_bounds|].
  split.
  { intros Hdiv. unfold mr. rewrite (Hexact Hdiv). reflexivity. }
  assert (Hmr : 0 <= mr).
  { pose proof (round_nearest_even_bounds (shr_m mrs) (loc_of_shr_record mrs)) as Hb.
    fold mr in Hb. rewrite Hm in Hb.
    assert (0 <= Zpos mx / 2 ^ Z.max 0 n) by (apply Z.div_pos; [lia | apply Z.pow_pos_nonneg; lia]).
    lia. }
  set (e1 := ex + Z.max 0 n).
  set (n2 := fexp prec64 emax64 (Zdigits2 mr + e1) - e1).
  unfold shr_fexp. cbn [shr_record_of_loc]. fold n2.
  destruct n2 as [|p|p] eqn:E2; cbn [shr].
  - change (Z.max 0 0) with 0. rewrite Z.add_0_r. change (2 ^ 0) with 1. rewrite Z.div_1_r.
    reflexivity.
  - replace (Z.max 0 (Z.pos p)) with (Z.pos p) by lia.
    destruct (iter_shr_1_m p {| shr_m := mr; shr_r := false; shr_s := false |} Hmr) as [-> _].
    reflexivity.
  - replace (Z.max 0 (Z.neg p)) with 0 by lia.
    rewrite Z.add_0_r. change (2 ^ 0) with 1. rewrite Z.div_1_r. reflexivity.
Qed.

Lemma fexp64 (e : Z) : fexp prec64 emax64 e = Z.max (e - 53) (-1074).
Proof. reflexivity. Qed.

Lemma iter_xO (d mx : positive) : Zpos (Pos.iter xO mx d) = Zpos mx * 2 ^ Zpos d.
Proof.
  induction d as [|d IH] using Pos.peano_ind.
  - cbn [Pos.iter]. change (2 ^ 1) with 2. lia.
  - rewrite Pos.iter_succ, Pos2Z.inj_succ, Z.pow_succ_r by lia.
    change (Z.pos (Pos.iter xO mx d)~0) with (2 * Z.pos (Pos.iter xO mx d)).
    rewrite IH. ring.
Qed.

Lemma pow2_lt_inv (a b : Z) : 0 <= b -> 2 ^ a < 2 ^ b -> a < b.
Proof. intros Hb Hl. apply (Z.pow_lt_mono_r_iff 2); lia. Qed.

(** A mantissa with [k] spare low zero bits rounds exactly. *)
Lemma binary_round_aux_exact (s : bool) (mx : positive) (ex k : Z) :
  0 <= k -> dg mx = 53 + k -> (2 ^ k | Zpos mx) -> -1074 <= ex + k <= 971 ->
  exists q, Zpos q = Zpos mx / 2 ^ k /\
    binary_round_aux prec64 emax64 s (Zpos mx) ex loc_Exact = S754_finite s q (ex + k).
Proof.
  intros Hk Hd Hdiv He.
  destruct (binary_round_aux_shape s mx ex) as (mr & _ & Hexact & Hres).
  cbv zeta in *. rewrite !fexp64 in *. rewrite Hd in *.
  replace (Z.max 0 (Z.max (53 + k + ex - 53) (-1074) - ex)) with k in * by lia.
  specialize (Hexact Hdiv). subst mr.
  pose proof (digits2_pos_bounds mx) as Hb. rewrite Hd in Hb.
  assert (Hp : 0 < 2 ^ k) by (apply Z.pow_pos_nonneg; lia).
  assert (Hq : 2 ^ 52 <= Zpos mx / 2 ^ k < 2 ^ 53).
  { replace (53 + k - 1) with (52 + k) in Hb by lia.
    rewrite !Z.pow_add_r in Hb by lia. split.
    - apply Z.div_le_lower_bound; lia.
    - apply Z.div_lt_upper_bound; lia. }
  destruct (Zpos mx / 2 ^ k) as [|q|q] eqn:Eq; try lia.
  exists q. split; [reflexivity|].
  assert (Hdq : dg q = 53) by (apply dg_unique; exact Hq).
  cbn [Zdigits2] in Hres. fold (dg q) in Hres. rewrite Hdq in Hres.
  replace (Z.max 0 (Z.max (53 + (ex + k) - 53) (-1074) - (ex + k))) with 0 in Hres by lia.
  change (2 ^ 0) with 1 in Hres. rewrite Z.div_1_r, Z.add_0_r in Hres.
  rewrite Hres. unfold emax64, prec64.
  destruct (Z.leb_spec (ex + k) (1024 - 53)); [reflexivity | lia].
Qed.

(** [float64(b)] is exact for a positive integer below 2^53. *)
Lemma float64_of_int_exact (b : Z) :
  0 < b < 2 ^ 53 ->
  exists K e, float64_of_int b = S754_finite false K e
              /\ -52 <= e <= 0 /\ Zpos K = b * 2 ^ (- e) /\ dg K = 53.
Proof.
  intros Hb. destruct b as [|p|p]; try lia.
  unfold float64_of_int, binary_normalize, binary_round, shl_align.
  fold (dg p). rewrite fexp64. rewrite Z.add_0_r, Z.sub_0_r.
  pose proof (digits2_pos_bounds p) as Hd. pose proof (dg_pos p) as Hd1.
  assert (Hle : dg p <= 53).
  { assert (dg p - 1 < 53); [|lia]. apply pow2_lt_inv; lia. }
  replace (Z.max (dg p - 53) (-1074)) with (dg p - 53) by lia.
  destruct (dg p - 53) as [|d|d] eqn:Ed; try lia.
  - destruct (binary_round_aux_exact false p 0 0) as (q & Hq & ->); try lia.
    { exists (Zpos p). change (2 ^ 0) with 1. lia. }
    change (2 ^ 0) with 1 in Hq. rewrite Z.div_1_r in Hq. injection Hq as ->.
    exists p, 0. repeat split; lia.
  - assert (Hm : Zpos (Pos.iter xO p d) = Zpos p * 2 ^ Zpos d) by apply iter_xO.
    assert (Hp : 0 < 2 ^ Zpos d) by (apply Z.pow_pos_nonneg; lia).
    assert (Hdg : dg (Pos.iter xO p d) = 53).
    { apply dg_unique. rewrite Hm.
      replace (53 - 1) with (dg p - 1 + Zpos d) by lia.
      replace 53 with (dg p + Zpos d) by lia.
      rewrite !Z.pow_add_r by lia. hide_pows. nia. }
    destruct (binary_round_aux_exact false (Pos.iter xO p d) (Z.neg d) 0) as (q & Hq & ->);
      try lia.
    { exists (Zpos (Pos.iter xO p d)). change (2 ^ 0) with 1. lia. }
    change (2 ^ 0) with 1 in Hq. rewrite Z.div_1_r in Hq. injection Hq as ->.
    exists (Pos.iter xO p d), (Z.neg d). rewrite Z.add_0_r.
    repeat split; try lia. rewrite Hm. reflexivity.
Qed.

Lemma Pow2_small (a : Z) :
  0 <= a <= 10 -> Pow2 a = S754_finite false 4503599627370496 (a - 52).
Proof.
  intros Ha.
  assert (Hc : a = 0 \/ a = 1 \/ a = 2 \/ a = 3 \/ a = 4 \/ a = 5 \/ a = 6 \/ a = 7
               \/ a = 8 \/ a = 9 \/ a = 10) by lia.
  repeat (destruct Hc as [->|Hc]; [vm_compute; reflexivity|]).
  subst a. vm_compute. reflexivity.
Qed.

(** The product [float64(b) * math.Pow(2, a)] is the exact value. *)
Lemma exponential_exact (b a : Z) :
  0 < b < 2 ^ 53 -> 0 <= a <= 10 ->
  float64_trunc (fmul (float64_of_int b) (Pow2 a)) = Some (b * 2 ^ a).
Proof.
  intros Hb Ha.
  destruct (float64_of_int_exact b Hb) as (K & e & -> & He & HK & HdK).
  rewrite (Pow2_small a Ha). unfold fmul, SFmul. cbn [xorb].
  assert (Hmul : Zpos (K * 4503599627370496) = Zpos K * 2 ^ 52) by reflexivity.
  pose proof (digits2_pos_bounds K) as HbK. rewrite HdK in HbK.
  destruct (binary_round_aux_exact false (K * 4503599627370496) (e + (a - 52)) 52)
    as (q & Hq & ->); try lia.
  { apply dg_unique. rewrite Hmul. change (53 + 52 - 1) with (52 + 52).
    rewrite !Z.pow_add_r by lia. change (53 - 1) with 52 in HbK. nia. }
  { exists (Zpos K). exact Hmul. }
  rewrite Hmul, Z.div_mul in Hq by lia. injection Hq as ->.
  replace (e + (a - 52) + 52) with (e + a) by lia.
  cbn [float64_trunc cond_Zopp]. f_equal. rewrite HK.
  assert (0 < 2 ^ (- e)) by (apply Z.pow_pos_nonneg; lia).
  destruct (Z.leb_spec 0 (e + a)).
  - rewrite <- Z.mul_assoc, <- Z.pow_add_r by lia. do 2 f_equal. lia.
  - replace (- e) with (a + - (e + a)) by lia.
    rewrite Z.pow_add_r by lia. rewrite Z.mul_assoc.
    apply Z.div_mul. apply Z.neq_sym, Z.lt_neq, Z.pow_pos_nonneg; lia.
Qed.

(** Scaling an integer below 2^53 by a fraction of the unit interval and
    truncating stays within the integer. *)
Lemma jitter_bound (mr K : positive) (er eM M : Z) :
  0 < M < 2 ^ 53 -> eM <= 0 -> Zpos K = M * 2 ^ (- eM) -> Zpos mr < 2 ^ (- er) ->
  exists z, float64_trunc (fmul (S754_finite false mr er) (S754_finite false K eM)) = Some z
            /\ 0 <= z <= M.
Proof.
  intros HM HeM HK Hr.
  assert (Her : er < 0).
  { destruct (Z.ltb_spec er 0) as [|Hge]; [assumption|].
    destruct (Z.eq_dec er 0) as [->|]; [change (2 ^ (- 0)) with 1 in Hr; lia|].
    rewrite Z.pow_neg_r in Hr by lia. lia. }
  unfold fmul, SFmul. cbn [xorb].
  set (mx := (mr * K)%positive). set (ex := er + eM).
  assert (Hmx : Zpos mx < M * 2 ^ (- ex)).
  { unfold mx, ex. rewrite Pos2Z.inj_mul, HK.
    replace (- (er + eM)) with (- er + - eM) by lia. rewrite Z.pow_add_r by lia.
    assert (0 < 2 ^ (- eM)) by (apply Z.pow_pos_nonneg; lia).
    hide_pows. nia. }
  assert (Hdx : dg mx + ex <= 53).
  { pose proof (digits2_pos_bounds mx) as Hb.
    assert (dg mx - 1 < 53 - ex); [|lia]. apply pow2_lt_inv; [lia|].
    replace (53 - ex) with (53 + - ex) by lia. rewrite Z.pow_add_r by lia.
    assert (0 < 2 ^ (- ex)) by (apply Z.pow_pos_nonneg; lia).
    hide_pows. nia. }
  destruct (binary_round_aux_shape false mx ex) as (m & Hm & _ & Hres).
  cbv zeta in *. rewrite !fexp64 in *.
  set (n1 := Z.max 0 (Z.max (dg mx + ex - 53) (-1074) - ex)) in *.
  set (e1 := ex + n1) in *.
  assert (Hn1 : 0 <= n1) by lia.
  assert (He1 : e1 <= 0) by lia.
  assert (Hm1 : Zpos mx / 2 ^ n1 < M * 2 ^ (- e1)).
  { apply Z.div_lt_upper_bound; [apply Z.pow_pos_nonneg; lia|].
    replace (- ex) with (n1 + - e1) in Hmx by lia.
    rewrite Z.pow_add_r in Hmx by lia. lia. }
  assert (Hm0 : 0 <= Zpos mx / 2 ^ n1)
    by (apply Z.div_pos; [lia | apply Z.pow_pos_nonneg; lia]).
  assert (Hmle : 0 <= m <= M * 2 ^ (- e1)) by lia.
  assert (Hdm : Zdigits2 m + e1 <= 53).
  { destruct m as [|q|q]; cbn [Zdigits2]; try lia. fold (dg q).
    pose proof (digits2_pos_bounds q) as Hb.
    assert (dg q - 1 < 53 - e1); [|lia]. apply pow2_lt_inv; [lia|].
    replace (53 - e1) with (53 + - e1) by lia. rewrite Z.pow_add_r by lia.
    assert (0 < 2 ^ (- e1)) by (apply Z.pow_pos_nonneg; lia).
    hide_pows. nia. }
  set (n2 := Z.max 0 (Z.max (Zdigits2 m + e1 - 53) (-1074) - e1)) in *.
  set (e2 := e1 + n2) in *.
  assert (Hn2 : 0 <= n2) by lia.
  assert (He2 : e2 <= 0) by lia.
  assert (Hz : 0 <= m / 2 ^ n2 / 2 ^ (- e2) <= M).
  { assert (0 < 2 ^ n2) by (apply Z.pow_pos_nonneg; lia).
    assert (0 < 2 ^ (- e2)) by (apply Z.pow_pos_nonneg; lia).
    rewrite Z.div_div by lia. rewrite <- Z.pow_add_r by lia.
    replace (n2 + - e2) with (- e1) by lia.
    assert (0 < 2 ^ (- e1)) by (apply Z.pow_pos_nonneg; lia).
    split; [apply Z.div_pos; lia|].
    apply Z.div_le_upper_bound; lia. }
  assert (Hm2 : 0 <= m / 2 ^ n2)
    by (apply Z.div_pos; [lia | apply Z.pow_pos_nonneg; lia]).
  rewrite Hres.
  destruct (m / 2 ^ n2) as [|q|q] eqn:Eq; try lia.
  - exists 0. split; [reflexivity | lia].
  - unfold emax64, prec64. destruct (Z.leb_spec e2 (1024 - 53)); [|lia].
    cbn [float64_trunc cond_Zopp].
    destruct (Z.leb_spec 0 e2).
    + replace e2 with 0 in * by lia. change (2 ^ (- 0)) with 1 in Hz.
      rewrite Z.div_1_r in Hz. change (2 ^ 0) with 1. rewrite Z.mul_1_r.
      eexists; split; [reflexivity | exact Hz].
    + eexists; split; [reflexivity | exact Hz].
Qed.

Section Backoff.
Context `{FloatConv} `{HTTPTime}.

Lemma int64_of_float64_in_range (f : spec_float) (z : Z) :
  float64_trunc f = Some z -> minInt64 <= z <= maxInt64 -> int64_of_float64 f = z.
Proof.
  intros Hf Hz. unfold int64_of_float64. rewrite Hf.
  destruct (Z.leb_spec minInt64 z); [|lia].
  destruct (Z.leb_spec z maxInt64); [reflexivity | lia].
Qed.

(** X16 ([computeBackoff]).  For a base below 2^53 ns (a non-positive base
    counts as 100 ms), a non-negative attempt number and a random factor in
    [0, 1), the delay lies between zero and the smaller of
    base * 2^min(attempt, 10) and 60 s, on every target: no float-to-integer
    conversion overflows. *)
Theorem computeBackoff_in_range (base attempt : Z) (r : spec_float) :
  base < 2 ^ 53 -> 0 <= attempt -> unit_interval r = true ->
  let b := if base <=? 0 then 100 * Millisecond else base in
  0 <= computeBackoff base attempt r <= Z.min (b * 2 ^ Z.min attempt 10) (60 * Second).
Proof.
  intros Hbase Hatt Hr. cbv zeta. unfold computeBackoff.
  set (b := if base <=? 0 then 100 * Millisecond else base).
  assert (Hb : 0 < b < 2 ^ 53).
  { unfold b, Millisecond. destruct (Z.leb_spec base 0); [|lia].
    split; [lia|]. vm_compute. reflexivity. }
  replace (if attempt >? 10 then 10 else attempt) with (Z.min attempt 10)
    by (destruct (Z.gtb_spec attempt 10); lia).
  set (a := Z.min attempt 10).
  assert (Ha : 0 <= a <= 10) by lia.
  assert (Hpa : 1 <= 2 ^ a <= 2 ^ 10).
  { split; [apply Z.lt_pred_le; apply Z.pow_pos_nonneg; lia|].
    apply Z.pow_le_mono_r; lia. }
  assert (H63 : 2 ^ 53 * 2 ^ 10 = maxInt64 + 1) by (vm_compute; reflexivity).
  assert (Hmin : minInt64 < 0) by (vm_compute; reflexivity).
  rewrite (int64_of_float64_in_range _ _ (exponential_exact b a Hb Ha)) by nia.
  set (M := if b * 2 ^ a >? 60 * Second then 60 * Second else b * 2 ^ a).
  assert (HMmin : M = Z.min (b * 2 ^ a) (60 * Second))
    by (unfold M; destruct (Z.gtb_spec (b * 2 ^ a) (60 * Second)); lia).
  rewrite <- HMmin.
  assert (HM : 0 < M < 2 ^ 53).
  { assert (60 * Second < 2 ^ 53) by (vm_compute; reflexivity).
    assert (0 < 60 * Second) by (vm_compute; reflexivity). nia. }
  destruct (float64_of_int_exact M HM) as (K & eM & -> & HeM & HK & _).
  destruct r as [[|]|[|]| |[|] mr er]; try discriminate Hr.
  - change (fmul (S754_zero false) (S754_finite false K eM)) with (S754_zero false).
    rewrite int64_of_float64_in_range with (z := 0); [lia|reflexivity|lia].
  - cbn [unit_interval] in Hr. apply Z.ltb_lt in Hr.
    destruct (jitter_bound mr K er eM M HM ltac:(lia) HK Hr) as (z & Hz & Hzr).
    assert (2 ^ 53 <= maxInt64) by (vm_compute; discriminate).
    rewrite (int64_of_float64_in_range _ _ Hz) by lia. exact Hzr.
Qed.

End Backoff.
End FloatFacts.

(** ** More on the upstream client *)

Section ClientMore.
Import Go Llm Retry Client Spec ClientSpec.
Context `{JSONLib} `{FloatConv} `{HTTPTime}.

Lemma oversized_message_None (ms : list ChatMessage) :
  forall i, oversized_message i ms = None <-> Forall fits ms.
Proof.
  induction ms as [|m ms IH]; intros i; cbn [oversized_message].
  - split; [constructor | reflexivity].
  - unfold fits at 1. destruct (Z.gtb_spec (strlen (Content m)) maxMessageSize) as [Hgt|Hle].
    + split; [discriminate|]. intros Hf. inversion Hf; subst. unfold fits in *. lia.
    + rewrite IH. split.
      * intros Hf. constructor; [exact Hle | exact Hf].
      * intros Hf. by inversion Hf.
Qed.

Lemma preflight_Ok (req : option ChatRequest) (r : ChatRequest) :
  preflight req = Ok r <->
  req = Some r /\ Validate r = None /\ Forall fits (elems (Messages r)).
Proof.
  unfold preflight. destruct req as [r'|]; [|split; [discriminate | intros ([=] & _)]].
  destruct (Validate r') as [e|] eqn:Ev.
  { split; [discriminate|]. intros ([= ->] & Hv & _). congruence. }
  destruct (oversized_message 0 (elems (Messages r'))) as [i|] eqn:Eo.
  { split; [discriminate|]. intros ([= ->] & _ & Hf).
    apply (oversized_message_None _ 0%nat) in Hf. congruence. }
  apply (oversized_message_None _ 0%nat) in Eo.
  split.
  - intros [= <-]. by repeat split.
  - by intros ([= ->] & _ & _).
Qed.

Lemma request_body_Ok (what : string) (r : ChatRequest) (stream : bool) (body : string) :
  request_body what r stream = Ok body ->
  marshal_providerChatRequest (provider_request r stream) = Ok body
  /\ strlen body <= maxRequestSize.
Proof.
  unfold request_body.
  destruct (marshal_providerChatRequest (provider_request r stream)) as [b|e]; [|discriminate].
  destruct (Z.gtb_spec (strlen b) maxRequestSize); [discriminate|].
  intros [= <-]. by split.
Qed.

(** X17. Neither operation calls the provider with a request it has not
    checked: when the retry engine made any move, the request was there,
    [Validate] accepted it, no message exceeded 512 KiB and the marshalled
    body, with the stream flag of the operation, was at most 2 MiB. *)
Theorem client_sends_only_checked_requests (cfg : Config.Config)
    (env : nat -> attemptEnv) (c : ctx) (read_err : option string)
    (req : option ChatRequest) :
  (snd (ChatCompletion cfg env req) <> [] -> checked req false)
  /\ (snd (ChatCompletionStream cfg env c read_err req) <> [] -> checked req true).
Proof.
  unfold ChatCompletion, ChatCompletionStream, checked.
  destruct (preflight req) as [r|e] eqn:Ep; [|split; intros Hn; by destruct Hn].
  apply preflight_Ok in Ep. destruct Ep as (-> & Hv & Hf).
  split.
  - destruct (request_body "request" r false) as [body|e] eqn:Eb; [|intros Hn; by destruct Hn].
    apply request_body_Ok in Eb. destruct Eb as [Hm Hs]. intros _. by exists r, body.
  - destruct (request_body "stream request" r true) as [body|e] eqn:Eb;
      [|intros Hn; by destruct Hn].
    apply request_body_Ok in Eb. destruct Eb as [Hm Hs]. intros _. by exists r, body.
Qed.

(** X18. A response [ChatCompletion] returns comes from a 2xx answer of
    the provider that decoded with at least one choice; it has as many
    choices as the provider sent, in the same order, and always carries
    a usage record (zero when the provider sent none). *)
Theorem ChatCompletion_success_shape (cfg : Config.Config) (env : nat -> attemptEnv)
    (req : option ChatRequest) (resp : ChatResponse) :
  fst (ChatCompletion cfg env req) = Ok resp ->
  exists up p,
    fst (doWithRetry cfg env) = Ok up
    /\ 200 <= StatusCode up < 300
    /\ decode_provider_response (Body up) = Ok p
    /\ (1 <= length (elems (prChoices p)))%nat
    /\ map Index (elems (Choices resp)) = map pcIndex (elems (prChoices p))
    /\ map Message (elems (Choices resp)) = map pcMessage (elems (prChoices p))
    /\ map FinishReason (elems (Choices resp)) = map pcFinishReason (elems (prChoices p))
    /\ RespUsage resp
       = Some (default {| PromptTokens := 0; CompletionTokens := 0; TotalTokens := 0 |}
                 (prUsage p)).
Proof.
  unfold ChatCompletion.
  destruct (preflight req) as [r|e]; [|discriminate].
  destruct (request_body "request" r false) as [body|e]; [|discriminate].
  destruct (doWithRetry cfg env) as [[up|e] tr]; [|discriminate]. cbn [fst].
  destruct (Z.ltb_spec (StatusCode up) 200) as [|Hlo]; [discriminate|].
  destruct (Z.geb_spec (StatusCode up) 300) as [|Hhi]; [discriminate|]. cbn [orb].
  destruct (decode_provider_response (Body up)) as [p|e] eqn:Ed; [|discriminate].
  destruct (Z.eqb_spec (len (prChoices p)) 0) as [|Hn]; [discriminate|].
  intros [= <-]. exists up, p.
  split; [reflexivity|]. split; [lia|]. split; [exact Ed|].
  split. { unfold len in Hn. lia. }
  unfold map_response. cbn [Choices RespUsage elems].
  rewrite !map_map. cbn [map_choice Index Message FinishReason].
  repeat split.
Qed.

(** *** The stream decoder *)

Lemma well_formed_app (xs ys : list StreamResult) :
  Forall chunk_ok xs -> well_formed ys = true -> well_formed (xs ++ ys) = true.
Proof.
  induction 1 as [|x xs Hx _ IH]; intros Hys; [exact Hys|].
  destruct x as [sc|e]; [|destruct Hx]. cbn [app well_formed].
  rewrite (IH Hys), andb_true_r.
  destruct Hx as [Hd|Hf].
  - destruct (String.eqb_spec (Delta sc) EmptyString); [contradiction | reflexivity].
  - destruct (String.eqb_spec (ChunkFinishReason sc) EmptyString); [contradiction|].
    apply orb_true_r.
Qed.

Lemma emit_choices_chunks (choices : list providerStreamChoice) :
  forall c, Forall chunk_ok (fst (emit_choices c choices)).
Proof.
  induction choices as [|choice rest IH]; intros c; cbn [emit_choices]; [constructor|].
  destruct (String.eqb_spec (scDeltaContent choice) EmptyString) as [Ed|Ed];
    destruct (String.eqb_spec (scFinishReason choice) EmptyString) as [Ef|Ef];
    cbn [andb]; try apply IH;
    (destruct (tick c) as [c'|]; [|constructor]);
    specialize (IH c'); destruct (emit_choices c' rest) as [out c'']; cbn [fst] in *;
    (constructor; [cbn; tauto | exact IH]).
Qed.

Lemma sse_loop_well_formed (lines : list string) (read_err : option string) :
  forall c, well_formed (sse_loop c lines read_err) = true.
Proof.
  induction lines as [|line rest IH]; intros c; cbn [sse_loop];
    (destruct (tick c) as [c1|]; [|reflexivity]).
  - by destruct read_err.
  - destruct (String.length (TrimSpace line) =? 0)%nat; [apply IH|].
    destruct (CutPrefix (TrimSpace line) "data: ") as [tail|]; [|apply IH].
    destruct (String.eqb (TrimSpace tail) "[DONE]"); [reflexivity|].
    destruct (unmarshal_stream_chunk (TrimSpace tail)) as [choices|e]; [|reflexivity].
    pose proof (emit_choices_chunks choices c1) as Hc.
    destruct (emit_choices c1 choices) as [out [c2|]]; cbn [fst] in Hc.
    + apply well_formed_app; [exact Hc | apply IH].
    + rewrite <- (app_nil_r out). by apply well_formed_app.
Qed.

(** X19. Whatever the provider sends and whenever the context is
    cancelled, the results of [ChatCompletionStream] are well formed:
    every chunk carries content or a finish reason, there is at most one
    error, and nothing follows it. *)
Theorem stream_results_well_formed (cfg : Config.Config) (env : nat -> attemptEnv)
    (c : ctx) (read_err : option string) (req : option ChatRequest)
    (results : list StreamResult) :
  fst (ChatCompletionStream cfg env c read_err req) = Ok results ->
  well_formed results = true.
Proof.
  unfold ChatCompletionStream.
  destruct (preflight req) as [r|e]; [|discriminate].
  destruct (request_body "stream request" r true) as [body|e]; [|by intros [= <-]].
  destruct (doWithRetry cfg env) as [[up|e] tr]; [|by intros [= <-]]. cbn [fst].
  destruct ((StatusCode up <? 200) || (StatusCode up >=? 300)); [by intros [= <-]|].
  intros [= <-]. apply sse_loop_well_formed.
Qed.




Lemma split_lines_tail (tail : string) :
  forall cur, no_newline tail = true -> fst (split_lines cur tail) = [].
Proof.
  induction tail as [|ch tail IH]; intros cur; [reflexivity|].
  unfold no_newline. cbn [string_forallb split_lines].
  destruct (Ascii.eqb ch (ascii_of_nat 10)); [discriminate|]. apply IH.
Qed.

Lemma split_lines_app_tail (body tail : string) :
  no_newline tail = true ->
  forall cur, fst (split_lines cur (body ++ tail)) = fst (split_lines cur body).
Proof.
  intros Ht. induction body as [|ch body IH]; intros cur.
  - change (EmptyString ++ tail) with tail. by rewrite split_lines_tail.
  - change (String ch body ++ tail) with (String ch (body ++ tail)).
    cbn [split_lines]. destruct (Ascii.eqb ch (ascii_of_nat 10)).
    + specialize (IH EmptyString).
      destruct (split_lines EmptyString (body ++ tail)) as [ls r].
      destruct (split_lines EmptyString body) as [ls' r']. cbn [fst] in *. by f_equal.
    + apply IH.
Qed.

(** X21. The decoder never delivers what follows the last newline of
    the body: text without a newline appended to a body changes nothing,
    even when it is a complete [data:] payload. *)
Theorem unterminated_line_is_dropped (c : ctx) (body tail : string)
    (read_err : option string) :
  no_newline tail = true ->
  decode_stream c (body ++ tail) read_err = decode_stream c body read_err.
Proof. intros Ht. unfold decode_stream. by rewrite split_lines_app_tail. Qed.

(** X22. The decoder stops at the first [data: [DONE]] line: neither
    the lines after it nor the way the read ends changes the results. *)
Theorem nothing_after_done (c : ctx) (pre : list string) (l : string)
    (rest : list string) (read_err read_err' : option string) :
  is_done_line l = true ->
  sse_loop c (pre ++ l :: rest) read_err = sse_loop c (pre ++ [l]) read_err'.
Proof.
  unfold is_done_line. intros Hd. revert c.
  induction pre as [|line pre IH]; intros c.
  - cbn [app sse_loop]. destruct (tick c) as [c1|]; [|reflexivity].
    destruct (CutPrefix (TrimSpace l) "data: ") as [tail|] eqn:Ec; [|discriminate].
    rewrite Hd.
    by destruct (String.length (TrimSpace l) =? 0)%nat eqn:E;
      [apply Nat.eqb_eq in E; destruct (TrimSpace l); [discriminate Ec | discriminate E]|].
  - cbn [app sse_loop]. destruct (tick c) as [c1|]; [|reflexivity].
    destruct (String.length (TrimSpace line) =? 0)%nat; [apply IH|].
    destruct (CutPrefix (TrimSpace line) "data: ") as [tail|]; [|apply IH].
    destruct (String.eqb (TrimSpace tail) "[DONE]"); [reflexivity|].
    destruct (unmarshal_stream_chunk (TrimSpace tail)) as [choices|e]; [|reflexivity].
    destruct (emit_choices c1 choices) as [out [c2|]]; [|reflexivity].
    by rewrite IH.
Qed.

(** X28. [truncate] returns the text itself when it is at most
    [maxLen] bytes long, and otherwise its first [maxLen] bytes followed
    by three dots: the result is never longer than [maxLen + 3]. *)
Theorem truncate_bound (s : string) (maxLen : nat) :
  (String.length (truncate s maxLen) <= maxLen + 3)%nat
  /\ ((String.length s <= maxLen)%nat -> truncate s maxLen = s).
Proof.
  unfold truncate. destruct (Nat.leb_spec (String.length s) maxLen) as [Hle|Hgt].
  - split; [lia | reflexivity].
  - split; [|lia].
    assert (Happ : forall a b, String.length (a ++ b) = (String.length a + String.length b)%nat).
    { induction a as [|ch a IH]; intros b; [reflexivity|].
      change (String ch a ++ b) with (String ch (a ++ b)). cbn [String.length]. by rewrite IH. }
    assert (Hsub : forall n t, (String.length (String.substring 0 n t) <= n)%nat).
    { induction n as [|n IH]; intros t; destruct t as [|ch t]; cbn; try lia.
      specialize (IH t). lia. }
    rewrite Happ. specialize (Hsub maxLen s). cbn [String.length]. lia.
Qed.

End ClientMore.

(** ** More on the chat handler *)

Section HandlerMore.
Import Go Llm Cache Client Handlers HandlerSpec.
Context `{JSONLib} {S : Type} `{ExactCache S}.

Lemma String_nonempty (k : ExactCacheKey) : String.eqb (String_ k) EmptyString = false.
Proof. unfold String_. by rewrite append_cons. Qed.

Lemma call_upstream_status (h : ChatHandler) (st : S) (req : ChatRequest)
    (cacheKey : string) (before : list call) :
  let r := fst (fst (call_upstream h st req cacheKey before)) in
  Status r = StatusOK \/ Status r = StatusBadGateway.
Proof.
  cbv zeta. unfold call_upstream.
  destruct (llm_ChatCompletion (LLM h) req) as [[resp|e] wire]; [|by right].
  destruct (negb (String.eqb cacheKey EmptyString)); [|by left].
  destruct (marshal_chat_response resp) as [text|e]; [|by left].
  destruct (cache_Set st cacheKey (list_byte_of_string text) (CacheTTL h)). by left.
Qed.

(** X23. The handler answers 400 exactly when the body does not decode
    as a [ChatRequest], and 500 exactly for a streaming request on a
    writer that cannot flush; every other reply is 200 or 502. No field
    value makes it answer 400. *)
Theorem handler_status_codes (h : ChatHandler) (c : ctx) (can_flush : bool)
    (st : S) (body userHeader : string) :
  let r := fst (fst (Handlers.ChatCompletion h c can_flush st body userHeader)) in
  (Status r = StatusBadRequest <-> exists e, decode_chat_request body = Err e)
  /\ (Status r = StatusInternalServerError
      <-> exists req, decode_chat_request body = Ok req
                      /\ Stream req = true /\ can_flush = false)
  /\ (Status r = StatusOK \/ Status r = StatusBadRequest
      \/ Status r = StatusInternalServerError \/ Status r = StatusBadGateway).
Proof.
  cbv zeta.
  destruct (decode_chat_request body) as [req|e] eqn:Hd.
  - assert (Hcases :
      let r := fst (fst (Handlers.ChatCompletion h c can_flush st body userHeader)) in
      (Stream req = true /\ can_flush = false /\ Status r = StatusInternalServerError)
      \/ ((Stream req = false \/ can_flush = true)
          /\ (Status r = StatusOK \/ Status r = StatusBadGateway))).
    { cbv zeta. unfold Handlers.ChatCompletion. rewrite Hd.
      destruct (Stream req) eqn:Es.
      - unfold streamChatCompletion. destruct can_flush; cbn [negb].
        + right. split; [by right|].
          destruct (llm_ChatCompletionStream (LLM h) req) as [[results|e] wire]; cbn; tauto.
        + left. by repeat split.
      - right. split; [by left|].
        destruct (BuildExactCacheKeyFromChatRequest req _ _) as [key|e];
          [|apply call_upstream_status].
        destruct (cache_Get st (String_ key)) as [res st1].
        destruct (hit res); [|apply call_upstream_status].
        destruct (unmarshal_chat_response (got res)) as [cached|e];
          [|apply call_upstream_status].
        by left. }
    cbv zeta in Hcases.
    set (r := fst (fst (Handlers.ChatCompletion h c can_flush st body userHeader))) in *.
    unfold StatusOK, StatusBadRequest, StatusInternalServerError, StatusBadGateway in *.
    split; [|split].
    + split; [|by intros [? [=]]]. intros E. exfalso. lia.
    + split.
      * intros E. exists req. split; [reflexivity|].
        destruct Hcases as [(Hs & Hf & _)|[_ Hst]]; [by split | exfalso; lia].
      * intros (req' & [= <-] & Hs & Hf).
        destruct Hcases as [(_ & _ & E)|[[Hs'|Hf'] _]]; [exact E | congruence | congruence].
    + lia.
  - unfold Handlers.ChatCompletion. rewrite Hd. cbn.
    unfold StatusOK, StatusBadRequest, StatusInternalServerError, StatusBadGateway.
    split; [split; [by exists e | done]|].
    split; [|lia]. split; [discriminate | by intros (? & [=] & _)].
Qed.

Lemma call_upstream_sets (h : ChatHandler) (st : S) (req : ChatRequest)
    (cacheKey : string) (before : list call) (k : string) (v : list Byte.byte) (ttl : Z) :
  In (CallCacheSet k v ttl) (snd (fst (call_upstream h st req cacheKey before))) ->
  In (CallCacheSet k v ttl) before
  \/ exists resp wire text,
       llm_ChatCompletion (LLM h) req = (Ok resp, wire)
       /\ marshal_chat_response resp = Ok text
       /\ cacheKey <> EmptyString
       /\ k = cacheKey /\ v = list_byte_of_string text /\ ttl = CacheTTL h
       /\ fst (fst (call_upstream h st req cacheKey before)) = writeJSON resp.
Proof.
  unfold call_upstream.
  destruct (llm_ChatCompletion (LLM h) req) as [[resp|e] wire]; cbn [fst snd].
  2:{ rewrite in_app_iff. cbn. intros [Hin|[[=]|[]]]. by left. }
  destruct (String.eqb_spec cacheKey EmptyString) as [He|Hne]; cbn [negb].
  { cbn [fst snd]. rewrite in_app_iff. cbn. intros [Hin|[[=]|[]]]. by left. }
  destruct (marshal_chat_response resp) as [text|e] eqn:Em.
  2:{ cbn [fst snd]. rewrite in_app_iff. cbn. intros [Hin|[[=]|[]]]. by left. }
  destruct (cache_Set st cacheKey (list_byte_of_string text) (CacheTTL h)) as [err st'].
  cbn [fst snd]. rewrite !in_app_iff. cbn.
  intros [[Hin|[[=]|[]]]|[[= <- <- <-]|[]]]; [by left|].
  right. by exists resp, wire, text.
Qed.

(** X24. The handler writes to the cache only what the upstream client
    returned: a [Set] is made only for a non-streaming request whose key
    could be built, after a successful [ChatCompletion] call, under that
    key, with the marshalled response that is also sent to the caller,
    and with the configured TTL. *)
Theorem cache_written_only_after_success (h : ChatHandler) (c : ctx) (can_flush : bool)
    (st : S) (body userHeader : string) (k : string) (v : list Byte.byte) (ttl : Z) :
  let out := Handlers.ChatCompletion h c can_flush st body userHeader in
  In (CallCacheSet k v ttl) (snd (fst out)) ->
  exists req key resp wire text,
    decode_chat_request body = Ok req
    /\ Stream req = false
    /\ BuildExactCacheKeyFromChatRequest req (user_of userHeader) (version_of h) = Ok key
    /\ k = String_ key
    /\ llm_ChatCompletion (LLM h) req = (Ok resp, wire)
    /\ marshal_chat_response resp = Ok text
    /\ v = list_byte_of_string text
    /\ ttl = CacheTTL h
    /\ fst (fst out) = writeJSON resp.
Proof.
  cbv zeta. unfold Handlers.ChatCompletion, user_of, version_of.
  destruct (decode_chat_request body) as [req|e]; [|by intros []].
  destruct (Stream req) eqn:Es.
  { unfold streamChatCompletion. destruct (negb can_flush); [by intros []|].
    destruct (llm_ChatCompletionStream (LLM h) req) as [[results|e] wire]; cbn;
      by intros [[=]|[]]. }
  destruct (BuildExactCacheKeyFromChatRequest req _ _) as [key|e] eqn:Eb.
  2:{ intros Hin. apply call_upstream_sets in Hin.
      by destruct Hin as [[]|(resp & wire & text & _ & _ & Hne & _)]. }
  destruct (cache_Get st (String_ key)) as [res st1].
  assert (Hup : In (CallCacheSet k v ttl)
                  (snd (fst (call_upstream h st1 req (String_ key)
                               [CallCacheGet (String_ key)]))) ->
                exists req0 key0 resp wire text,
                  Ok req = Ok req0 /\ Stream req0 = false
                  /\ BuildExactCacheKeyFromChatRequest req0
                       (if String.eqb userHeader EmptyString then "anon" else userHeader)
                       (if String.eqb (HandlerVersionID h) EmptyString then "v1"
                        else HandlerVersionID h) = Ok key0
                  /\ k = String_ key0
                  /\ llm_ChatCompletion (LLM h) req0 = (Ok resp, wire)
                  /\ marshal_chat_response resp = Ok text
                  /\ v = list_byte_of_string text /\ ttl = CacheTTL h
                  /\ fst (fst (call_upstream h st1 req (String_ key)
                                 [CallCacheGet (String_ key)])) = writeJSON resp).
  { intros Hin. apply call_upstream_sets in Hin.
    destruct Hin as [[[=]|[]]|(resp & wire & text & Hl & Hm & _ & -> & -> & -> & Hr)].
    by exists req, key, resp, wire, text. }
  destruct (hit res); [|exact Hup].
  destruct (unmarshal_chat_response (got res)) as [cached|e]; [|exact Hup].
  cbn. by intros [[=]|[]].
Qed.

(** X25. A streaming request never touches the cache: the handler
    makes no cache call and the cache is as it was. It makes at most one
    call at all: none when the writer cannot flush, and otherwise a single
    call of [ChatCompletionStream] with the decoded request. *)
Theorem streaming_bypasses_cache (h : ChatHandler) (c : ctx) (can_flush : bool)
    (st : S) (body userHeader : string) (req : ChatRequest) :
  decode_chat_request body = Ok req -> Stream req = true ->
  let out := Handlers.ChatCompletion h c can_flush st body userHeader in
  snd out = st
  /\ snd (fst out)
     = (if can_flush
        then [CallChatCompletionStream req (snd (llm_ChatCompletionStream (LLM h) req))]
        else [])
  /\ Forall (fun cl => is_cache_call cl = false) (snd (fst out))
  /\ (length (snd (fst out)) <= 1)%nat.
Proof.
  intros Hd Hs. cbv zeta. unfold Handlers.ChatCompletion. rewrite Hd, Hs.
  unfold streamChatCompletion. destruct can_flush; cbn [negb].
  - destruct (llm_ChatCompletionStream (LLM h) req) as [[results|e] wire]; cbn;
      (split; [reflexivity|]); (split; [reflexivity|]);
      (split; [by repeat constructor | lia]).
  - cbn. split; [reflexivity|]. split; [reflexivity|]. split; [constructor | lia].
Qed.

(** *** The relay of a stream to the caller *)

Lemma relay_prefix (results : list StreamResult) :
  forall c, exists more, relay Never results = relay c results ++ more.
Proof.
  induction results as [|r rest IH]; intros c; cbn [relay].
  - change (tick Never) with (Some Never). cbv iota beta.
    destruct (tick c); [exists EmptyString; by rewrite append_nil_r | by eexists].
  - change (tick Never) with (Some Never). cbv iota beta.
    destruct (tick c) as [c'|]; [|by eexists].
    destruct r as [ch|e]; [|exists EmptyString; by rewrite append_nil_r].
    destruct (IH c') as [more Hmore]. exists more.
    by rewrite Hmore, append_assoc.
Qed.

Lemma relay_chunks (chs : list StreamChunk) (rest : list StreamResult) :
  relay Never (map ResChunk chs ++ rest) = chunk_frames chs ++ relay Never rest.
Proof.
  induction chs as [|ch chs IH]; [reflexivity|].
  cbn [map app relay chunk_frames fold_right]. change (tick Never) with (Some Never).
  cbv iota beta. fold (chunk_frames chs). by rewrite IH, append_assoc.
Qed.

(** X26. While the caller stays connected (and its writes succeed) the
    relay writes one frame for each chunk, in order, and then: after the
    last chunk of a stream that ends without error, [data: [DONE]]; at
    the first error result, the fixed [upstream_error] frame followed by
    [data: [DONE]], whatever the error says and whatever results follow.
    So the relayed stream always ends with [data: [DONE]]. If the caller
    goes away, what was written is a prefix of that stream. *)
Theorem relay_framing (results : list StreamResult) :
  (exists frames, relay Never results = frames ++ done_frame)
  /\ (forall c, exists more, relay Never results = relay c results ++ more)
  /\ (forall c pre e e' rest,
        relay c (pre ++ ResErr e :: rest) = relay c (pre ++ [ResErr e']))
  /\ (forall chs, relay Never (map ResChunk chs) = chunk_frames chs ++ done_frame)
  /\ (forall chs e rest,
        relay Never (map ResChunk chs ++ ResErr e :: rest)
        = chunk_frames chs ++ sse_frame (error_json "upstream_error") ++ done_frame).
Proof.
  split; [|split; [|split; [|split]]].
  - induction results as [|r rest IH]; cbn [relay]; change (tick Never) with (Some Never);
      cbv iota beta.
    + by exists EmptyString.
    + destruct r as [ch|e]; [|by eexists].
      destruct IH as [frames Hf]. rewrite Hf.
      exists (sse_frame (stream_frame_json ch) ++ frames). by rewrite append_assoc.
  - apply relay_prefix.
  - intros c pre e e' rest. revert c.
    induction pre as [|r pre IH]; intros c; cbn [app relay];
      (destruct (tick c) as [c'|]; [|reflexivity]); [reflexivity|].
    destruct r as [ch|e0]; [|reflexivity]. by rewrite IH.
  - intros chs. rewrite <- (app_nil_r (map ResChunk chs)). by rewrite relay_chunks.
  - intros chs e rest. by rewrite relay_chunks.
Qed.

End HandlerMore.

Section MemoryHandler.
Import Go Llm Cache Client Handlers HandlerSpec.
Context `{JSONLib}.

(** X27. Over the in-process cache: a non-streaming request that
    misses is answered from upstream and stored; the same body from the
    same user, looked up no later than the TTL after that write, is
    answered from the cache with the stored response, without any call
    to the upstream client, and leaves the cache as it is. *)
Theorem miss_then_hit (h : ChatHandler) (c1 c2 : ctx) (f1 f2 : bool)
    (st : MemoryCache.items) (tget1 tset1 tget2 tset2 : Z) (body userHeader : string)
    (req : ChatRequest) (key : ExactCacheKey) (resp resp' : ChatResponse)
    (wire : list Retry.event) (text : string) :
  decode_chat_request body = Ok req ->
  Stream req = false ->
  BuildExactCacheKeyFromChatRequest req (user_of userHeader) (version_of h) = Ok key ->
  snd (fst (MemoryCache.Get st tget1 (String_ key))) = false ->
  llm_ChatCompletion (LLM h) req = (Ok resp, wire) ->
  marshal_chat_response resp = Ok text ->
  unmarshal_chat_response (list_byte_of_string text) = Ok resp' ->
  0 < CacheTTL h ->
  tget2 <= tset1 + CacheTTL h ->
  let first :=
    Handlers.ChatCompletion (H0 := memory_backend_at tget1 tset1) h c1 f1 st
      body userHeader in
  let second :=
    Handlers.ChatCompletion (H0 := memory_backend_at tget2 tset2) h c2 f2 (snd first)
      body userHeader in
  fst first = (writeJSON resp,
               [CallCacheGet (String_ key); CallChatCompletion req wire;
                CallCacheSet (String_ key) (list_byte_of_string text) (CacheTTL h)])
  /\ fst second = (writeJSON resp', [CallCacheGet (String_ key)])
  /\ snd second = snd first.
Proof.
  intros Hd Hs Hb Hmiss Hl Hm Hu Httl Hnow. cbv zeta.
  unfold user_of, version_of in Hb.
  assert (Hfirst :
    Handlers.ChatCompletion (H0 := memory_backend_at tget1 tset1) h c1 f1 st body userHeader
    = (writeJSON resp,
       [CallCacheGet (String_ key); CallChatCompletion req wire;
        CallCacheSet (String_ key) (list_byte_of_string text) (CacheTTL h)],
       MemoryCache.Set_ (snd (MemoryCache.Get st tget1 (String_ key))) tset1 (String_ key)
         (list_byte_of_string text) (CacheTTL h))).
  { unfold Handlers.ChatCompletion. rewrite Hd, Hs, Hb.
    cbn [cache_Get memory_backend_at memory_backend].
    destruct (MemoryCache.Get st tget1 (String_ key)) as [[ov hb] st1]. cbn [fst snd] in *.
    subst hb.
    assert (Hup : call_upstream (H0 := memory_backend_at tget1 tset1) h st1 req (String_ key)
                    [CallCacheGet (String_ key)]
                  = (writeJSON resp,
                     [CallCacheGet (String_ key); CallChatCompletion req wire;
                      CallCacheSet (String_ key) (list_byte_of_string text) (CacheTTL h)],
                     MemoryCache.Set_ st1 tset1 (String_ key)
                       (list_byte_of_string text) (CacheTTL h))).
    { unfold call_upstream. rewrite Hl, String_nonempty, Hm. reflexivity. }
    destruct ov; cbn [hit]; exact Hup. }
  rewrite Hfirst. cbn [fst snd]. split; [reflexivity|].
  set (st1 := snd (MemoryCache.Get st tget1 (String_ key))).
  set (v := list_byte_of_string text).
  unfold Handlers.ChatCompletion. rewrite Hd, Hs, Hb.
  cbn [cache_Get memory_backend_at memory_backend].
  rewrite (Get_live _ tget2 (String_ key)
             {| MemoryCache.value := v; MemoryCache.expiresAt := tset1 + CacheTTL h |});
    [|by apply Set_lookup | cbn; lia].
  cbn [MemoryCache.value hit got]. fold v in Hu. rewrite Hu. by split.
Qed.

End MemoryHandler.

Section KeyScoping.
Import Go Llm Cache.
Context `{JSONLib}.

Lemma list_ascii_of_string_app (s t : string) :
  list_ascii_of_string (s ++ t) = (list_ascii_of_string s ++ list_ascii_of_string t)%list.
Proof.
  induction s as [|c s IH]; [reflexivity|]. rewrite append_cons. cbn. by rewrite IH.
Qed.

Lemma append_cancel_r (s1 s2 t : string) : s1 ++ t = s2 ++ t -> s1 = s2.
Proof.
  intros E. apply (f_equal list_ascii_of_string) in E.
  rewrite !list_ascii_of_string_app in E. apply app_inv_tail in E.
  rewrite <- (string_of_list_ascii_of_string s1), <- (string_of_list_ascii_of_string s2).
  by rewrite E.
Qed.

(** X29. For one request and one version, two users get the same cache
    key exactly when their ids agree once surrounding white space is
    removed: no user is ever served another user's entry for the same
    request, whatever characters the ids hold. *)
Theorem keys_are_scoped_by_user (req : ChatRequest) (u1 u2 versionID : string)
    (k1 k2 : ExactCacheKey) :
  BuildExactCacheKeyFromChatRequest req u1 versionID = Ok k1 ->
  BuildExactCacheKeyFromChatRequest req u2 versionID = Ok k2 ->
  (String_ k1 = String_ k2 <-> TrimSpace u1 = TrimSpace u2).
Proof.
  unfold BuildExactCacheKeyFromChatRequest.
  destruct (marshal_ChatRequest req) as [body|e]; [|discriminate].
  intros [= <-] [= <-]. unfold String_. cbn [UserID ModelID VersionID Hash].
  split; [|by intros ->].
  intros E. apply append_cancel_l in E. by apply append_cancel_r in E.
Qed.

End KeyScoping.

(** ** Scenarios for the further properties *)

Section MoreScenarios.
Import Go Retry Spec RetrySpec Samples.
Local Existing Instance amd64.

(** A retry count of five set by the operator survives [WithDefaults]. *)
Lemma WithDefaults_normalizes_witness :
  Config.MaxRetries (Config.WithDefaults (with_max_retries 5 gateway_config)) = 5.
Proof.
  pose proof (WithDefaults_normalizes (with_max_retries 5 gateway_config)) as H.
  cbv zeta in H. destruct H as (_ & _ & _ & _ & _ & _ & _ & _ & H & _).
  apply H. vm_compute. reflexivity.
Defined.

(** Four retries: never more than five calls. *)
Lemma doWithRetry_attempts_bounded_witness :
  Z.of_nat (attempts (snd (doWithRetry (with_max_retries 4 gateway_config)
                                      (script [] overloaded)))) <= 4 + 1.
Proof.
  apply (doWithRetry_attempts_bounded (with_max_retries 4 gateway_config)
           (script [] overloaded)).
  vm_compute. split; [discriminate | reflexivity].
Defined.

(** Scenario 4 of the specification: two 503 answers, then 200. *)
Lemma doWithRetry_stops_at_first_final_outcome_witness :
  fst (doWithRetry (Config.WithDefaults gateway_config)
         (script [overloaded; overloaded] ok_response))
  = Ok (response 200 EmptyString "{}")
  /\ attempts (snd (doWithRetry (Config.WithDefaults gateway_config)
                      (script [overloaded; overloaded] ok_response))) = 3%nat.
Proof.
  refine (proj1 (doWithRetry_stops_at_first_final_outcome
                   (Config.WithDefaults gateway_config)
                   (script [overloaded; overloaded] ok_response) 2 _ _ _) _ _).
  - intros [|[|j]] Hj; [repeat split | repeat split | lia].
  - reflexivity.
  - vm_compute. reflexivity.
  - split; reflexivity.
Defined.

(** Three attempts against a provider that stays overloaded: a sleep
    after the first and after the second, none after the third. *)
Lemma doWithRetry_waits_between_attempts_witness :
  let evs := snd (doWithRetry (Config.WithDefaults gateway_config) (script [] overloaded)) in
  (paces evs = paced 0 (waits evs) /\ S (waits evs) = attempts evs)
  /\ paced 0 (waits evs) = [Tried 0; Slept; Tried 1; Slept; Tried 2].
Proof.
  intros evs. split; [|vm_compute; reflexivity].
  apply (doWithRetry_waits_between_attempts (Config.WithDefaults gateway_config)
           (script [] overloaded)).
  intros j. split; reflexivity.
Defined.

Lemma doWithRetry_exhaustion_error_witness :
  fst (doWithRetry (Config.WithDefaults gateway_config) (script [] overloaded))
  = Err "llmclient: max retries (3) exceeded: upstream status 503".
Proof.
  apply (doWithRetry_exhaustion_error (Config.WithDefaults gateway_config)
           (script [] overloaded)).
  intros i. unfold script. destruct i; repeat split.
Defined.

(** The default base, fourth attempt, a random factor of one half. *)
Lemma computeBackoff_in_range_witness :
  0 <= computeBackoff 0 3 f64_half <= 800 * Millisecond.
Proof.
  apply (computeBackoff_in_range 0 3 f64_half).
  - vm_compute. reflexivity.
  - lia.
  - reflexivity.
Defined.

End MoreScenarios.

Section ClientScenarios.
Import Go Llm Retry Client Spec ClientSpec Samples MoreSamples.
Local Existing Instance amd64.

(** The [hi] request reaches the provider: it was checked. *)
Lemma client_sends_only_checked_requests_witness :
  checked (Some hi_request) false.
Proof.
  apply (client_sends_only_checked_requests (Config.WithDefaults gateway_config)
           (script [] ok_response) Never None (Some hi_request)).
  vm_compute. discriminate.
Defined.

(** A provider that answers 200 with one choice and no usage. *)
Lemma ChatCompletion_success_shape_witness :
  exists up p,
    fst (doWithRetry (Config.WithDefaults gateway_config) (script [] ok_response)) = Ok up
    /\ 200 <= StatusCode up < 300
    /\ decode_provider_response (JSONLib := json_ok) (Body up) = Ok p
    /\ (1 <= length (elems (prChoices p)))%nat
    /\ [0] = map pcIndex (elems (prChoices p))
    /\ [{| Role := RoleAssistant; Content := "hello!" |}]
       = map pcMessage (elems (prChoices p))
    /\ ["stop"] = map pcFinishReason (elems (prChoices p))
    /\ Some {| PromptTokens := 0; CompletionTokens := 0; TotalTokens := 0 |}
       = Some (default {| PromptTokens := 0; CompletionTokens := 0; TotalTokens := 0 |}
                 (prUsage p)).
Proof.
  apply (ChatCompletion_success_shape (H := json_ok) (Config.WithDefaults gateway_config)
           (script [] ok_response) (Some hi_request)
           {| ID := "chatcmpl-1"; Created := 1700000000 * Second; RespModel := "gpt-4";
              Choices := Some [{| Index := 0;
                                  Message := {| Role := RoleAssistant; Content := "hello!" |};
                                  FinishReason := "stop" |}];
              RespUsage := Some {| PromptTokens := 0; CompletionTokens := 0;
                                   TotalTokens := 0 |} |}).
  vm_compute. reflexivity.
Defined.

(** Scenario 2 of the specification through the whole operation. *)
Lemma stream_results_well_formed_witness :
  well_formed [chunk "hel" EmptyString; chunk "lo" "stop"] = true.
Proof.
  apply (stream_results_well_formed (Config.WithDefaults gateway_config) streaming_upstream
           Never None (Some (with_stream hi_request))).
  vm_compute. reflexivity.
Defined.

(** A last payload without its newline is not delivered. *)
Lemma unterminated_line_is_dropped_witness :
  decode_stream Never
    (hello_stream ++ json_text "data: {'choices':[{'index':0,'delta':{'content':'hel'}}]}")
    None
  = decode_stream Never hello_stream None.
Proof. apply unterminated_line_is_dropped. vm_compute. reflexivity. Defined.

Lemma nothing_after_done_witness :
  sse_loop Never
    ([": keep-alive" ++ Handlers.newline]
     ++ ("data: [DONE]" ++ Handlers.newline)
     :: [json_text "data: {'choices':[{'index':0,'delta':{'content':'hel'}}]}"
         ++ Handlers.newline])
    (Some "connection reset")
  = sse_loop Never ([": keep-alive" ++ Handlers.newline]
                    ++ ["data: [DONE]" ++ Handlers.newline]) None.
Proof. apply nothing_after_done. vm_compute. reflexivity. Defined.

Lemma truncate_bound_witness : truncate "bad gateway" 200 = "bad gateway".
Proof. apply truncate_bound. vm_compute. lia. Defined.

End ClientScenarios.

Section CacheScenarios.
Import Go Llm Retry Cache Client Handlers HandlerSpec Samples MoreSamples.
Local Existing Instance amd64.

(** The streaming form of the [hi] request through the gateway's
    handler: one call, of the streaming operation. *)
Lemma streaming_bypasses_cache_witness :
  let out := Handlers.ChatCompletion (H0 := memory_backend 0)
               (gateway_handler streaming_upstream) Never true ∅ hi_stream_body EmptyString in
  snd out = ∅
  /\ snd (fst out) = [CallChatCompletionStream (with_stream hi_request) [EvAttempt 0]]
  /\ Forall (fun cl => is_cache_call cl = false) (snd (fst out))
  /\ (length (snd (fst out)) <= 1)%nat.
Proof.
  apply (streaming_bypasses_cache (H0 := memory_backend 0)
           (gateway_handler streaming_upstream) Never true ∅ hi_stream_body EmptyString
           (with_stream hi_request)); reflexivity.
Defined.

(** Scenario 1 of the specification: the [hi] request on an empty cache,
    answered by the provider within two seconds, and the same request
    again exactly five minutes after the write. *)
Lemma miss_then_hit_witness :
  let key := {| UserID := "anon"; ModelID := "gpt-4"; VersionID := "v1";
                Hash := "47622aa807bc7604c31e8b0a7da3c45adb5ecf0a332289cd5d82f4f28ec11a35" |} in
  let first := Handlers.ChatCompletion (H := json_ok)
                 (H0 := memory_backend_at 0 (2 * Second))
                 answering_handler Never true ∅ hi_body EmptyString in
  let second := Handlers.ChatCompletion (H := json_ok)
                  (H0 := memory_backend_at (2 * Second + 5 * Minute)
                           (3 * Second + 5 * Minute))
                  answering_handler Never true (snd first) hi_body EmptyString in
  fst first
  = (writeJSON (H := json_ok) (map_response hello_provider_response),
     [CallCacheGet (String_ key); CallChatCompletion hi_request [EvAttempt 0];
      CallCacheSet (String_ key) (list_byte_of_string hello_text)
        (CacheTTL answering_handler)])
  /\ fst second = (writeJSON (H := json_ok) hello_response, [CallCacheGet (String_ key)])
  /\ snd second = snd first.
Proof.
  intros key.
  refine (miss_then_hit (H := json_ok) answering_handler Never Never true true ∅
            0 (2 * Second) (2 * Second + 5 * Minute) (3 * Second + 5 * Minute)
            hi_body EmptyString hi_request key
            (map_response hello_provider_response) hello_response [EvAttempt 0] hello_text
            _ _ _ _ _ _ _ _ _); vm_compute; first [reflexivity | discriminate].
Defined.

(** The write the first call of that scenario makes. *)
Lemma cache_written_only_after_success_witness :
  exists req key resp wire text,
    decode_chat_request (JSONLib := json_ok) hi_body = Ok req
    /\ Stream req = false
    /\ BuildExactCacheKeyFromChatRequest (H := json_ok) req (user_of EmptyString)
         (version_of answering_handler) = Ok key
    /\ "exact:anon:gpt-4:v1:47622aa807bc7604c31e8b0a7da3c45adb5ecf0a332289cd5d82f4f28ec11a35"
       = String_ key
    /\ llm_ChatCompletion (LLM answering_handler) req = (Ok resp, wire)
    /\ marshal_chat_response (JSONLib := json_ok) resp = Ok text
    /\ list_byte_of_string hello_text = list_byte_of_string text
    /\ 5 * Minute = CacheTTL answering_handler
    /\ fst (fst (Handlers.ChatCompletion (H := json_ok) (H0 := memory_backend 0)
                   answering_handler Never true ∅ hi_body EmptyString))
       = writeJSON (H := json_ok) resp.
Proof.
  refine (cache_written_only_after_success (H := json_ok) (H0 := memory_backend 0)
            answering_handler Never true ∅ hi_body EmptyString
            "exact:anon:gpt-4:v1:47622aa807bc7604c31e8b0a7da3c45adb5ecf0a332289cd5d82f4f28ec11a35"
            (list_byte_of_string hello_text) (5 * Minute) _).
  vm_compute. right. right. left. reflexivity.
Defined.

(** Two spellings of one user share the key of the [hi] request. *)
Lemma keys_are_scoped_by_user_witness :
  String_ {| UserID := "alice"; ModelID := "gpt-4"; VersionID := "v1";
             Hash := "47622aa807bc7604c31e8b0a7da3c45adb5ecf0a332289cd5d82f4f28ec11a35" |}
  = String_ {| UserID := TrimSpace " alice "; ModelID := "gpt-4"; VersionID := "v1";
               Hash := "47622aa807bc7604c31e8b0a7da3c45adb5ecf0a332289cd5d82f4f28ec11a35" |}.
Proof.
  refine (proj2 (keys_are_scoped_by_user hi_request "alice" " alice " "v1" _ _ _ _) _);
    vm_compute; reflexivity.
Defined.

End CacheScenarios.
